(** * Storage quota and reclamation engine of the manuscript processor

    A shallow embedding of [backend/utils/storageManager.js] and of the
    handlers of [backend/controllers/storageController.js] that sit on top of
    it, together with the properties the specification states about them.

    Conventions of the embedding.

    - JavaScript numbers.  Byte counts, timestamps and counters are integers
      ([Z], [nat]); every quantity with a fractional part (the thresholds,
      a usage percentage, a cleanup target) is an exact rational ([Q]).  With
      the shipped [MAX_STORAGE = 2^29] the quotient [totalSize / MAX_STORAGE]
      and its product with [100] are computed by IEEE doubles without any
      rounding for every byte count below [2^46], and [0.95 * 100],
      [0.90 * 100], [0.85 * 100] evaluate to [95], [90], [85]; on those
      inputs the rational model and the doubles agree.
    - [Number.prototype.toFixed(2)] yields a decimal string with two
      fraction digits.  Such a string is represented by the integer it
      denotes in hundredths ([Fixed2]); [parseFloat] reads it back.
    - The MongoDB side is a [World]: the [outputFiles] GridFS bucket and the
      [File] collection, both keyed by [_id], a flag telling whether the
      bucket answers, the records whose deletion the collection rejects,
      the clock and the local time zone of the process.  Asynchronous
      functions become functions of the world in an exception monad;
      [try]/[catch] is [try_catch].  Console output is not part of the
      model.
    - Strings are sequences of bytes: a JavaScript string is represented by
      its UTF-8 encoding. *)

From Stdlib Require Import ZArith QArith Qround Lia String Ascii.
From stdpp Require Import base option list gmap sorting strings.

Close Scope Q_scope.
Local Open Scope Z_scope.

(** ** Data model *)

Abbreviation ObjectId := N (only parsing).

Inductive FileStatus := uploaded | processing | completed | failed.

Inductive StorageStatus := normal | warning | high | critical.

#[global] Instance FileStatus_eq_dec : EqDecision FileStatus.
Proof. solve_decision. Defined.

#[global] Instance StorageStatus_eq_dec : EqDecision StorageStatus.
Proof. solve_decision. Defined.

(** A file of the GridFS bucket as [bucket.find({}).toArray()] returns it. *)
Record GridFSFile := {
  gf_id : ObjectId;
  gf_length : Z;
  gf_filename : string }.

(** What the bucket keeps under an [_id]. *)
Record Blob := {
  blob_length : Z;
  blob_filename : string }.

(** An entry of [outputFiles]; [fileSize] and [gridfsFileId] may be unset. *)
Record OutputFile := {
  of_fileName : string;
  of_fileSize : option Z;
  of_gridfsFileId : option ObjectId;
  of_storedInGridFS : bool }.

(** The fields of a [File] document other than its [_id]. *)
Record FileDoc := {
  originalName : string;
  fileType : string;
  fileSize : Z;
  status : FileStatus;
  gridfsInputFileId : option ObjectId;
  outputFiles : list OutputFile;
  uploadedBy : ObjectId;
  createdAt : Z;
  processingStartedAt : option Z }.

(** A loaded Mongoose document: the [_id] and the fields read at load time. *)
Abbreviation Document := (ObjectId * FileDoc)%type (only parsing).

Definition doc_id (d : Document) : ObjectId := d.1.

(** [deleteRejected] holds the ids of the records whose deletion the
    [File] collection rejects; [now] is the reading of the clock, in
    milliseconds since the epoch; [localTZA t isUTC] is the offset of the
    local time zone, in milliseconds, at the time value [t], which is a UTC
    time value when [isUTC] holds and a local one otherwise. *)
Record World := {
  gridfsAvailable : bool;
  bucket : gmap ObjectId Blob;
  files : gmap ObjectId FileDoc;
  deleteRejected : gset ObjectId;
  now : Z;
  localTZA : Z -> bool -> Z }.

Definition set_bucket (b : gmap ObjectId Blob) (w : World) : World :=
  {| gridfsAvailable := gridfsAvailable w; bucket := b;
     files := files w; deleteRejected := deleteRejected w;
     now := now w; localTZA := localTZA w |}.

Definition set_files (f : gmap ObjectId FileDoc) (w : World) : World :=
  {| gridfsAvailable := gridfsAvailable w; bucket := bucket w;
     files := f; deleteRejected := deleteRejected w;
     now := now w; localTZA := localTZA w |}.

(** ** Exceptions and the monad of asynchronous functions *)

Inductive Error :=
  | StoreUnavailable
  | BlobNotFound (id : ObjectId)
  | CastError (raw : string)
  | RecordDeleteFailed (id : ObjectId).

Definition message (e : Error) : string :=
  match e with
  | StoreUnavailable => "GridFS bucket unavailable"
  | BlobNotFound _ => "File not found in GridFS"
  | CastError raw => "Cast to ObjectId failed for value " ++ raw
  | RecordDeleteFailed _ => "Record could not be deleted"
  end%string.

Inductive Result (A : Type) :=
  | Ok (a : A)
  | Throw (e : Error).
Arguments Ok {A} a.
Arguments Throw {A} e.

Definition M (A : Type) : Type := World -> Result A * World.

Definition ret {A} (a : A) : M A := fun w => (Ok a, w).

Definition throw {A} (e : Error) : M A := fun w => (Throw e, w).

Definition bind {A B} (m : M A) (k : A -> M B) : M B :=
  fun w =>
    match m w with
    | (Ok a, w') => k a w'
    | (Throw e, w') => (Throw e, w')
    end.

Definition try_catch {A} (m : M A) (handler : Error -> M A) : M A :=
  fun w =>
    match m w with
    | (Ok a, w') => (Ok a, w')
    | (Throw e, w') => handler e w'
    end.

Definition get_world : M World := fun w => (Ok w, w).

Notation "x <~ m ;; k" := (bind m (fun x => k))
  (at level 100, m at next level, right associativity).
Notation "m ;;; k" := (bind m (fun _ => k))
  (at level 100, right associativity).

(** ** JavaScript numbers *)

(** A decimal string with two fraction digits, as its value in hundredths. *)
Abbreviation Fixed2 := Z (only parsing).

(** [x.toFixed(2)]: the nearest multiple of [0.01], the larger one on a tie
    for a non-negative [x]; a negative [x] is formatted as [-((-x).toFixed(2))]. *)
Definition toFixed2 (x : Q) : Fixed2 :=
  if Qle_bool 0 x
  then Qfloor (x * 100 + (1 # 2))%Q
  else - Qfloor ((- x) * 100 + (1 # 2))%Q.

Definition parseFloat (s : Fixed2) : Q := (s # 100)%Q.

Definition MB : Z := 1024 * 1024.

(** ** Storage limits *)

Record StorageLimits := {
  MAX_STORAGE : Z;
  WARNING_THRESHOLD : Q;
  CLEANUP_THRESHOLD : Q;
  CRITICAL_THRESHOLD : Q;
  TARGET_AFTER_CLEANUP : Q }.

(** The limits of the source. *)
Definition STORAGE_LIMITS : StorageLimits := {|
  MAX_STORAGE := 512 * 1024 * 1024;
  WARNING_THRESHOLD := (85 # 100)%Q;
  CLEANUP_THRESHOLD := (90 # 100)%Q;
  CRITICAL_THRESHOLD := (95 # 100)%Q;
  TARGET_AFTER_CLEANUP := (70 # 100)%Q |}.

Record Stats := {
  totalSize : Z;
  totalSizeMB : Fixed2;
  maxStorageMB : Fixed2;
  usagePercent : Fixed2;
  fileCount : nat;
  available : Z;
  availableMB : Fixed2;
  stats_status : StorageStatus }.

(** ** The store adapters *)

(** [bucket.find({}).toArray()]: every file of the bucket, or a rejection
    when the bucket does not answer. *)
Definition bucket_find_all : M (list GridFSFile) :=
  fun w =>
    if gridfsAvailable w
    then (Ok ((fun kv : ObjectId * Blob =>
                 {| gf_id := kv.1; gf_length := blob_length kv.2;
                    gf_filename := blob_filename kv.2 |})
              <$> map_to_list (bucket w)), w)
    else (Throw StoreUnavailable, w).

(** Modelled from the spec: [deleteFromGridFS] of [utils/gridfs.js], which is
    not among the sources.  The blob store adapter's
    [delete(blobId) -> void | NotFound]: the blob is removed, and the call
    is rejected when no blob has that id or the store does not answer. *)
Definition deleteFromGridFS (id : ObjectId) : M unit :=
  fun w =>
    if gridfsAvailable w
    then match bucket w !! id with
         | Some _ => (Ok tt, set_bucket (delete id (bucket w)) w)
         | None => (Throw (BlobNotFound id), w)
         end
    else (Throw StoreUnavailable, w).

Section Limits.

Variable limits : StorageLimits.

(** ** Usage accountant *)

Definition getStorageStatus (usagePercent : Q) : StorageStatus :=
  if Qle_bool (CRITICAL_THRESHOLD limits * 100) usagePercent then critical
  else if Qle_bool (CLEANUP_THRESHOLD limits * 100) usagePercent then high
  else if Qle_bool (WARNING_THRESHOLD limits * 100) usagePercent then warning
  else normal.

Definition sumLengths (fs : list GridFSFile) : Z :=
  fold_left (fun acc f => acc + gf_length f) fs 0.

Definition getStorageStats : M Stats :=
  try_catch
    (fs <~ bucket_find_all ;;
     let totalSize := sumLengths fs in
     let fileCount := length fs in
     let usagePercent :=
       (inject_Z totalSize / inject_Z (MAX_STORAGE limits) * 100)%Q in
     ret {| totalSize := totalSize;
            totalSizeMB := toFixed2 (inject_Z totalSize / inject_Z MB);
            maxStorageMB :=
              toFixed2 (inject_Z (MAX_STORAGE limits) / inject_Z MB);
            usagePercent := toFixed2 usagePercent;
            fileCount := fileCount;
            available := MAX_STORAGE limits - totalSize;
            availableMB :=
              toFixed2 (inject_Z (MAX_STORAGE limits - totalSize)
                        / inject_Z MB);
            stats_status := getStorageStatus usagePercent |})
    (fun error => throw error).

(** ** Admission controller *)

(** The object [checkStorageAvailability] returns; a property that a
    branch does not set is [None]. *)
Record Availability := {
  canUpload : bool;
  shouldCleanup : option bool;
  reason : option string;
  avail_stats : option Stats;
  avail_error : option string }.

Definition REASON_CRITICAL : string :=
  "Storage quota critical. Please delete old files or contact administrator.".
Definition REASON_EXCEEDS : string :=
  "File size exceeds available storage. Please delete old files first.".
Definition REASON_HIGH : string :=
  "Storage is high. Automatic cleanup recommended.".

Definition checkStorageAvailability (fileSize : Z) : M Availability :=
  try_catch
    (stats <~ getStorageStats ;;
     let usagePercent := parseFloat (usagePercent stats) in
     if Qle_bool (CRITICAL_THRESHOLD limits * 100) usagePercent
     then ret {| canUpload := false; shouldCleanup := None;
                 reason := Some REASON_CRITICAL;
                 avail_stats := Some stats; avail_error := None |}
     else
       let projectedSize := totalSize stats + fileSize in
       let projectedPercent :=
         (inject_Z projectedSize / inject_Z (MAX_STORAGE limits) * 100)%Q in
       if negb (Qle_bool projectedPercent 100)
       then ret {| canUpload := false; shouldCleanup := None;
                   reason := Some REASON_EXCEEDS;
                   avail_stats := Some stats; avail_error := None |}
       else if Qle_bool (CLEANUP_THRESHOLD limits * 100) usagePercent
       then ret {| canUpload := true; shouldCleanup := Some true;
                   reason := Some REASON_HIGH;
                   avail_stats := Some stats; avail_error := None |}
       else ret {| canUpload := true; shouldCleanup := Some false;
                   reason := None;
                   avail_stats := Some stats; avail_error := None |})
    (fun error =>
       ret {| canUpload := true; shouldCleanup := Some false;
              reason := None; avail_stats := None;
              avail_error := Some (message error) |}).

End Limits.

(** ** Queries on the [File] collection *)

(** Modelled from the spec: the [File] model of [models/File.js], which is
    not among the sources, after the file record store of the
    specification (read and delete by id, query by filter, sort and limit).
    [File.find(filter)] yields the documents that satisfy the filter. *)
Definition File_find (cond : FileDoc -> bool) : M (list Document) :=
  fun w => (Ok (filter (fun d : Document => cond d.2 = true)
                       (map_to_list (files w))), w).

Definition createdAt_le (a b : Document) : Prop :=
  createdAt a.2 <= createdAt b.2.

#[global] Instance createdAt_le_dec : RelDecision createdAt_le.
Proof. intros a b. unfold createdAt_le. apply _. Defined.

#[global] Instance createdAt_le_trans : Transitive createdAt_le.
Proof. unfold createdAt_le. intros a b c. lia. Qed.

#[global] Instance createdAt_le_total : Total createdAt_le.
Proof. unfold createdAt_le. intros a b. lia. Qed.

(** [.sort({ createdAt: 1 })]. *)
Definition sort_createdAt (l : list Document) : list Document :=
  merge_sort createdAt_le l.

(** [.limit(n)] of a cursor: [0] is no limit, a negative [n] counts as
    its absolute value. *)
Definition cursor_limit (n : Z) (l : list Document) : list Document :=
  if n =? 0 then l else take (Z.to_nat (Z.abs n)) l.

(** [getOldestFiles(limit = 50)]; an omitted argument is [None].  The
    projection of [.select] keeps every field a caller reads. *)
Definition getOldestFiles (limit : option Z) : M (list Document) :=
  let limit := default 50 limit in
  try_catch
    (all <~ File_find (fun _ => true) ;;
     ret (cursor_limit limit (sort_createdAt all)))
    (fun error => throw error).

Definition DAY_MS : Z := 24 * 60 * 60 * 1000.

(** The time-value arithmetic of [Date]: the day number and the time
    within the day of a time value, the time value of a day number and a
    time within the day, and the conversions between UTC and local time
    values for a time zone [tza]. *)
Definition Day (t : Z) : Z := t / DAY_MS.

Definition TimeWithinDay (t : Z) : Z := t mod DAY_MS.

Definition MakeDate (day time : Z) : Z := day * DAY_MS + time.

Definition LocalTime (tza : Z -> bool -> Z) (t : Z) : Z := t + tza t true.

Definition UTC (tza : Z -> bool -> Z) (t : Z) : Z := t - tza t false.

(** [d.setDate(d.getDate() - 30)] on the date with time value [t]: the
    local time value of [t] is moved to the calendar day thirty days
    earlier, at the same time within the day, and read back as a UTC time
    value.  [MakeDay] of the year, the month and the day of the month less
    thirty is the day number of the local time value less thirty. *)
Definition setDate_minus_30 (tza : Z -> bool -> Z) (t : Z) : Z :=
  let local := LocalTime tza t in
  UTC tza (MakeDate (Day local - 30) (TimeWithinDay local)).

(** [new Date()] moved back thirty days with [setDate]. *)
Definition thirtyDaysAgo (tza : Z -> bool -> Z) (now : Z) : Z :=
  setDate_minus_30 tza now.

(** [{ field: { $lt: bound } }]: an unset field never matches. *)
Definition lt_date (field : option Z) (bound : Z) : bool :=
  match field with
  | Some t => t <? bound
  | None => false
  end.

(** The [$or] filter of [getCleanupCandidates]. *)
Definition isCleanupCandidate (cutoff : Z) (f : FileDoc) : bool :=
  bool_decide (status f = failed)
  || (bool_decide (status f = uploaded) && lt_date (Some (createdAt f)) cutoff)
  || (bool_decide (status f = processing)
      && lt_date (processingStartedAt f) cutoff).

Definition getCleanupCandidates : M (list Document) :=
  try_catch
    (w <~ get_world ;;
     let cutoff := thirtyDaysAgo (localTZA w) (now w) in
     found <~ File_find (isCleanupCandidate cutoff) ;;
     ret (sort_createdAt found))
    (fun error => throw error).

(** ** Record deletion *)

Inductive BlobKind := input | output.

Record DeletedBlob := {
  db_type : BlobKind;
  db_name : string }.

(** The object [deleteFileCompletely] returns; [deletedBlobs] is its field
    [deletedFiles] and [dr_createdAt] its field [createdAt]. *)
Record DeleteResult := {
  fileId : ObjectId;
  fileName : string;
  deletedSize : Z;
  deletedBlobs : list DeletedBlob;
  dr_createdAt : Z }.

(** Modelled from the spec: [file.deleteOne()] of the [File] model, the
    record store's delete by id: the document leaves the collection, or
    the deletion fails and the collection is as it was. *)
Definition deleteOne (file : Document) : M unit :=
  fun w =>
    if decide (doc_id file ∈ deleteRejected w)
    then (Throw (RecordDeleteFailed (doc_id file)), w)
    else (Ok tt, set_files (delete (doc_id file) (files w)) w).

(** The accumulators [deletedSize] and [deletedFiles] of
    [deleteFileCompletely]. *)
Abbreviation DeleteAcc := (Z * list DeletedBlob)%type (only parsing).

Definition deleteInputBlob (file : Document) (acc : DeleteAcc) : M DeleteAcc :=
  match gridfsInputFileId file.2 with
  | Some id =>
      try_catch
        (deleteFromGridFS id ;;;
         ret (acc.1 + fileSize file.2,
              acc.2 ++ [{| db_type := input;
                           db_name := originalName file.2 |}]))
        (fun _ => ret acc)
  | None => ret acc
  end.

Fixpoint deleteOutputBlobs (outs : list OutputFile) (acc : DeleteAcc)
  : M DeleteAcc :=
  match outs with
  | [] => ret acc
  | outputFile :: rest =>
      acc' <~
        (match of_storedInGridFS outputFile, of_gridfsFileId outputFile with
         | true, Some id =>
             try_catch
               (deleteFromGridFS id ;;;
                ret (acc.1 + default 0 (of_fileSize outputFile),
                     acc.2 ++ [{| db_type := output;
                                  db_name := of_fileName outputFile |}]))
               (fun _ => ret acc)
         | _, _ => ret acc
         end) ;;
      deleteOutputBlobs rest acc'
  end.

Definition deleteFileCompletely (file : Document) : M DeleteResult :=
  try_catch
    (acc <~ deleteInputBlob file (0, []) ;;
     acc <~ deleteOutputBlobs (outputFiles file.2) acc ;;
     deleteOne file ;;;
     ret {| fileId := doc_id file;
            fileName := originalName file.2;
            deletedSize := acc.1;
            deletedBlobs := acc.2;
            dr_createdAt := createdAt file.2 |})
    (fun error => throw error).

(** ** Reclamation engine *)

(** The two messages: 'Storage already below target threshold' and
    'Cleanup completed. Deleted n files.' *)
Inductive CleanupMessage :=
  | AlreadyBelowTarget
  | CleanupCompleted (deleted : nat).

(** The object [performAutoCleanup] returns.  [freedSize] and [freedSizeMB]
    are [None] when the returned object does not have the property. *)
Record CleanupResult := {
  cr_success : bool;
  cr_message : CleanupMessage;
  initialStats : Stats;
  finalStats : Stats;
  deletedFiles : list DeleteResult;
  freedSize : option Z;
  freedSizeMB : option Fixed2 }.

(** The accumulators [freedSize] and [deletedFiles] of [performAutoCleanup]. *)
Abbreviation CleanupAcc := (Z * list DeleteResult)%type (only parsing).

(** The loop that both phases run over their list of documents. *)
Fixpoint cleanupLoop (sizeToFree : Q) (l : list Document) (acc : CleanupAcc)
  : M CleanupAcc :=
  match l with
  | [] => ret acc
  | file :: rest =>
      if Qle_bool sizeToFree (inject_Z acc.1) then ret acc
      else
        acc' <~
          try_catch
            (result <~ deleteFileCompletely file ;;
             ret (acc.1 + deletedSize result, acc.2 ++ [result]))
            (fun _ => ret acc) ;;
        cleanupLoop sizeToFree rest acc'
  end.

Section Reclamation.

Variable limits : StorageLimits.

Definition performAutoCleanup (targetPercent : option Q) : M CleanupResult :=
  let targetPercent := default (TARGET_AFTER_CLEANUP limits) targetPercent in
  try_catch
    (initialStats <~ getStorageStats limits ;;
     let targetSize := (inject_Z (MAX_STORAGE limits) * targetPercent)%Q in
     let sizeToFree := (inject_Z (totalSize initialStats) - targetSize)%Q in
     if Qle_bool sizeToFree 0
     then ret {| cr_success := true; cr_message := AlreadyBelowTarget;
                 initialStats := initialStats; finalStats := initialStats;
                 deletedFiles := []; freedSize := None; freedSizeMB := None |}
     else
       cleanupCandidates <~ getCleanupCandidates ;;
       acc <~ cleanupLoop sizeToFree cleanupCandidates (0, []) ;;
       acc <~
         (if negb (Qle_bool sizeToFree (inject_Z acc.1))
          then
            oldFiles <~
              (found <~ File_find
                          (fun f => bool_decide (status f = completed)) ;;
               ret (cursor_limit 100 (sort_createdAt found))) ;;
            cleanupLoop sizeToFree oldFiles acc
          else ret acc) ;;
       finalStats <~ getStorageStats limits ;;
       ret {| cr_success := true;
              cr_message := CleanupCompleted (length acc.2);
              initialStats := initialStats; finalStats := finalStats;
              deletedFiles := acc.2; freedSize := Some acc.1;
              freedSizeMB :=
                Some (toFixed2 (inject_Z acc.1 / inject_Z MB)) |})
    (fun error => throw error).

End Reclamation.

(** ** Orphan scanner *)

(** The object the orphan scanner returns; [or_message] is the count its
    message 'Cleaned up n orphaned GridFS files' reports. *)
Record OrphanResult := {
  or_success : bool;
  or_message : nat;
  deletedCount : nat;
  or_freedSize : Z;
  or_freedSizeMB : Fixed2 }.

(** The body of [file.outputFiles.forEach] in the reference collection. *)
Definition addOutputReference (refs : gset ObjectId) (out : OutputFile)
  : gset ObjectId :=
  match of_gridfsFileId out with
  | Some id => {[id]} ∪ refs
  | None => refs
  end.

(** The body of [dbFiles.forEach]. *)
Definition addReferences (refs : gset ObjectId) (file : Document)
  : gset ObjectId :=
  let refs :=
    match gridfsInputFileId file.2 with
    | Some id => {[id]} ∪ refs
    | None => refs
    end in
  fold_left addOutputReference (outputFiles file.2) refs.

Definition referencedIds (dbFiles : list Document) : gset ObjectId :=
  fold_left addReferences dbFiles ∅.

(** The accumulators [deletedCount] and [freedSize] of the orphan loop. *)
Abbreviation OrphanAcc := (nat * Z)%type (only parsing).

Fixpoint orphanLoop (orphans : list GridFSFile) (acc : OrphanAcc)
  : M OrphanAcc :=
  match orphans with
  | [] => ret acc
  | orphan :: rest =>
      acc' <~
        try_catch
          (deleteFromGridFS (gf_id orphan) ;;;
           ret (S acc.1, acc.2 + gf_length orphan))
          (fun _ => ret acc) ;;
      orphanLoop rest acc'
  end.

Definition cleanupOrphanedGridFSFiles : M OrphanResult :=
  try_catch
    (gridfsFiles <~ bucket_find_all ;;
     dbFiles <~ File_find (fun _ => true) ;;
     let referenced := referencedIds dbFiles in
     let orphanedFiles :=
       filter (fun gFile => gf_id gFile ∉ referenced) gridfsFiles in
     acc <~ orphanLoop orphanedFiles (0%nat, 0) ;;
     ret {| or_success := true;
            or_message := acc.1;
            deletedCount := acc.1;
            or_freedSize := acc.2;
            or_freedSizeMB := toFixed2 (inject_Z acc.2 / inject_Z MB) |})
    (fun error => throw error).

(** ** [parseInt] *)

(** The white space and line terminators [parseInt] trims that are a
    single byte: TAB, LF, VT, FF, CR and SP. *)
Definition isWhiteSpace (c : ascii) : bool :=
  match nat_of_ascii c with
  | 9%nat | 10%nat | 11%nat | 12%nat | 13%nat | 32%nat => true
  | _ => false
  end.

(** Those of two bytes, U+00A0, and those of three: U+1680, U+2000 to
    U+200A, U+2028, U+2029, U+202F, U+205F, U+3000 and U+FEFF. *)
Definition isWhiteSpace2 (c1 c2 : ascii) : bool :=
  match nat_of_ascii c1, nat_of_ascii c2 with
  | 194%nat, 160%nat => true
  | _, _ => false
  end.

Definition isWhiteSpace3 (c1 c2 c3 : ascii) : bool :=
  match nat_of_ascii c1, nat_of_ascii c2, nat_of_ascii c3 with
  | 225%nat, 154%nat, 128%nat => true
  | 226%nat, 128%nat, n =>
      (128 <=? n)%nat && (n <=? 138)%nat
      || (n =? 168)%nat || (n =? 169)%nat || (n =? 175)%nat
  | 226%nat, 129%nat, 159%nat => true
  | 227%nat, 128%nat, 128%nat => true
  | 239%nat, 187%nat, 191%nat => true
  | _, _, _ => false
  end.

Fixpoint skipWhiteSpace (s : string) : string :=
  match s with
  | String c1 rest1 =>
      if isWhiteSpace c1 then skipWhiteSpace rest1
      else
        match rest1 with
        | String c2 rest2 =>
            if isWhiteSpace2 c1 c2 then skipWhiteSpace rest2
            else
              match rest2 with
              | String c3 rest3 =>
                  if isWhiteSpace3 c1 c2 c3 then skipWhiteSpace rest3 else s
              | EmptyString => s
              end
        | EmptyString => s
        end
  | EmptyString => s
  end.

Definition digitValue (c : ascii) : option Z :=
  let n := Z.of_nat (nat_of_ascii c) in
  if (48 <=? n) && (n <=? 57) then Some (n - 48)
  else if (97 <=? n) && (n <=? 122) then Some (n - 87)
  else if (65 <=? n) && (n <=? 90) then Some (n - 55)
  else None.

(** The longest prefix of digits of the radix; [None] when it is empty. *)
Fixpoint parseDigits (radix : Z) (s : string) (acc : option Z) : option Z :=
  match s with
  | String c rest =>
      match digitValue c with
      | Some d =>
          if d <? radix
          then parseDigits radix rest (Some (default 0 acc * radix + d))
          else acc
      | None => acc
      end
  | EmptyString => acc
  end.

(** [parseInt(v)] for a query parameter [v] that is a string or missing;
    [None] is [NaN]. *)
Definition parseInt (v : option string) : option Z :=
  let s := skipWhiteSpace (default "undefined"%string v) in
  let '(sign, s) :=
    match s with
    | String "-"%char rest => (-1, rest)
    | String "+"%char rest => (1, rest)
    | _ => (1, s)
    end in
  let '(radix, s) :=
    match s with
    | String "0"%char (String "x"%char rest) => (16, rest)
    | String "0"%char (String "X"%char rest) => (16, rest)
    | _ => (10, s)
    end in
  (fun n => sign * n) <$> parseDigits radix s None.

(** [n || fallback] for a number [n]: [NaN] and [0] are falsy. *)
Definition number_or (n : option Z) (fallback : Z) : Z :=
  match n with
  | Some v => if v =? 0 then fallback else v
  | None => fallback
  end.

(** ** Handlers of the storage controller *)

Inductive Response (A : Type) :=
  | Status200 (body : A)
  | Status400 (msg : string)
  | Status500 (msg : string) (error : string).
Arguments Status200 {A} body.
Arguments Status400 {A} msg.
Arguments Status500 {A} msg error.

Record FileSummary := {
  fs_id : ObjectId;
  fs_originalName : string;
  fs_status : FileStatus;
  fs_createdAt : Z;
  fs_fileSize : Z;
  fs_outputFilesCount : nat;
  fs_totalSize : Z;
  fs_uploadedBy : ObjectId }.

Definition withSize (file : Document) : FileSummary := {|
  fs_id := doc_id file;
  fs_originalName := originalName file.2;
  fs_status := status file.2;
  fs_createdAt := createdAt file.2;
  fs_fileSize := fileSize file.2;
  fs_outputFilesCount := length (outputFiles file.2);
  fs_totalSize :=
    fileSize file.2
    + fold_left (fun sum f => sum + default 0 (of_fileSize f))
                (outputFiles file.2) 0;
  fs_uploadedBy := uploadedBy file.2 |}.

Record OldestFilesBody := {
  ofb_count : nat;
  ofb_files : list FileSummary }.

(** [getOldestFilesList]; the argument is [req.query.limit]. *)
Definition getOldestFilesList (query_limit : option string)
  : M (Response OldestFilesBody) :=
  try_catch
    (let limit := number_or (parseInt query_limit) 50 in
     fs <~ getOldestFiles (Some limit) ;;
     let filesWithSize := withSize <$> fs in
     ret (Status200 {| ofb_count := length filesWithSize;
                       ofb_files := filesWithSize |}))
    (fun error =>
       ret (Status500 "Error fetching oldest files" (message error))).

(** An element of [req.body.fileIds]: a value Mongoose casts to an
    [ObjectId], or one it cannot cast. *)
Inductive IdArg :=
  | WellFormedId (id : ObjectId)
  | MalformedId (raw : string).

#[global] Instance IdArg_eq_dec : EqDecision IdArg.
Proof. solve_decision. Defined.

(** Modelled from the spec: [File.findById(fileId)] of the [File] model,
    the record store's read by id; a value that is no [ObjectId] is
    rejected with a cast error. *)
Definition File_findById (fileId : IdArg) : M (option Document) :=
  match fileId with
  | WellFormedId id => fun w => (Ok ((fun f => (id, f)) <$> files w !! id), w)
  | MalformedId raw => throw (CastError raw)
  end.

Record IdError := {
  ie_fileId : IdArg;
  ie_error : string }.

Record BulkDeleteBody := {
  bd_message : nat;
  bd_deletedFiles : list DeleteResult;
  bd_errors : list IdError;
  totalFreedSize : Z;
  totalFreedSizeMB : Fixed2;
  currentStats : Stats }.

(** The accumulators [deletedFiles], [errors] and [totalFreedSize]. *)
Record BulkAcc := {
  ba_deleted : list DeleteResult;
  ba_errors : list IdError;
  ba_freed : Z }.

(** The body of the loop over [fileIds]. *)
Definition bulkDeleteOne (fileId : IdArg) (acc : BulkAcc) : M BulkAcc :=
  try_catch
    (file <~ File_findById fileId ;;
     match file with
     | None =>
         ret {| ba_deleted := ba_deleted acc;
                ba_errors :=
                  ba_errors acc
                  ++ [{| ie_fileId := fileId;
                         ie_error := "File not found" |}];
                ba_freed := ba_freed acc |}
     | Some file =>
         result <~ deleteFileCompletely file ;;
         ret {| ba_deleted := ba_deleted acc ++ [result];
                ba_errors := ba_errors acc;
                ba_freed := ba_freed acc + deletedSize result |}
     end)
    (fun error =>
       ret {| ba_deleted := ba_deleted acc;
              ba_errors :=
                ba_errors acc
                ++ [{| ie_fileId := fileId;
                       ie_error := message error |}];
              ba_freed := ba_freed acc |}).

Fixpoint bulkDeleteLoop (fileIds : list IdArg) (acc : BulkAcc) : M BulkAcc :=
  match fileIds with
  | [] => ret acc
  | fileId :: rest =>
      acc' <~ bulkDeleteOne fileId acc ;;
      bulkDeleteLoop rest acc'
  end.

Section Controller.

Variable limits : StorageLimits.

(** [deleteMultipleFiles]; the argument is [req.body.fileIds], [None] when
    it is missing or not an array. *)
Definition deleteMultipleFiles (fileIds : option (list IdArg))
  : M (Response BulkDeleteBody) :=
  try_catch
    (match fileIds with
     | None | Some [] =>
         ret (Status400 "Please provide an array of file IDs to delete")
     | Some fileIds =>
         acc <~ bulkDeleteLoop fileIds
                  {| ba_deleted := []; ba_errors := []; ba_freed := 0 |} ;;
         stats <~ getStorageStats limits ;;
         ret (Status200
                {| bd_message := length (ba_deleted acc);
                   bd_deletedFiles := ba_deleted acc;
                   bd_errors := ba_errors acc;
                   totalFreedSize := ba_freed acc;
                   totalFreedSizeMB :=
                     toFixed2 (inject_Z (ba_freed acc) / inject_Z MB);
                   currentStats := stats |})
     end)
    (fun error => ret (Status500 "Error deleting files" (message error))).

End Controller.

(** ** Derived notions used in the statements *)

(** The snapshot computed from an enumeration of the bucket. *)
Definition statsOf (limits : StorageLimits) (fs : list GridFSFile) : Stats :=
  let total := sumLengths fs in
  {| totalSize := total;
     totalSizeMB := toFixed2 (inject_Z total / inject_Z MB);
     maxStorageMB := toFixed2 (inject_Z (MAX_STORAGE limits) / inject_Z MB);
     usagePercent :=
       toFixed2 (inject_Z total / inject_Z (MAX_STORAGE limits) * 100);
     fileCount := length fs;
     available := MAX_STORAGE limits - total;
     availableMB :=
       toFixed2 (inject_Z (MAX_STORAGE limits - total) / inject_Z MB);
     stats_status :=
       getStorageStatus limits
         (inject_Z total / inject_Z (MAX_STORAGE limits) * 100) |}.

Definition gridfsFilesOf (w : World) : list GridFSFile :=
  (fun kv : ObjectId * Blob =>
     {| gf_id := kv.1; gf_length := blob_length kv.2;
        gf_filename := blob_filename kv.2 |}) <$> map_to_list (bucket w).

(** The usage fraction of a snapshot: [totalSize / MAX_STORAGE]. *)
Definition usageFraction (limits : StorageLimits) (st : Stats) : Q :=
  inject_Z (totalSize st) / inject_Z (MAX_STORAGE limits).

(** A blob reference held by a document: the id, the size the document
    records for it, and the entry reported when it has been deleted. *)
Record BlobRef := {
  ref_id : ObjectId;
  ref_size : Z;
  ref_entry : DeletedBlob }.

Definition inputRef (f : FileDoc) : option BlobRef :=
  (fun id => {| ref_id := id; ref_size := fileSize f;
                ref_entry := {| db_type := input;
                                db_name := originalName f |} |})
  <$> gridfsInputFileId f.

Definition outputRef (o : OutputFile) : option BlobRef :=
  if of_storedInGridFS o
  then (fun id => {| ref_id := id; ref_size := default 0 (of_fileSize o);
                     ref_entry := {| db_type := output;
                                     db_name := of_fileName o |} |})
       <$> of_gridfsFileId o
  else None.

(** The input reference, if any, then the references of the outputs
    flagged as stored in GridFS, in the order of [outputFiles]. *)
Definition blobRefs (f : FileDoc) : list BlobRef :=
  option_list (inputRef f) ++ omap outputRef (outputFiles f).

(** Whether a delete of the blob [id] goes through in the world [w]. *)
Definition deletable (w : World) (id : ObjectId) : bool :=
  gridfsAvailable w && bool_decide (is_Some (bucket w !! id)).

Definition sumZ (l : list Z) : Z := foldr Z.add 0 l.

(** The blob deletions of [deleteFileCompletely] as a function of the list
    of references: a reference whose delete goes through is credited and
    reported, any other leaves the accumulators as they are. *)
Fixpoint deleteRefs (refs : list BlobRef) (acc : Z * list DeletedBlob)
  : M (Z * list DeletedBlob) :=
  fun w =>
    match refs with
    | [] => (Ok acc, w)
    | r :: rest =>
        if deletable w (ref_id r)
        then deleteRefs rest (acc.1 + ref_size r, acc.2 ++ [ref_entry r])
               (set_bucket (delete (ref_id r) (bucket w)) w)
        else deleteRefs rest acc w
    end.

(** A blob id is referenced in a world when some document of the [File]
    collection holds it, as its input reference or as the reference of one
    of its outputs. *)
Definition referenced (w : World) (id : ObjectId) : Prop :=
  exists fid doc,
    files w !! fid = Some doc
    /\ (gridfsInputFileId doc = Some id
        \/ exists o, o ∈ outputFiles doc /\ of_gridfsFileId o = Some id).

(** The bytes [performAutoCleanup] sets out to free: [sizeToFree], from the
    snapshot taken at the start of the run. *)
Definition bytesToFree (limits : StorageLimits) (targetPercent : option Q)
    (initial : Stats) : Q :=
  (inject_Z (totalSize initial)
   - inject_Z (MAX_STORAGE limits)
     * default (TARGET_AFTER_CLEANUP limits) targetPercent)%Q.

(** The Phase-1 candidates of a world, in the order [getCleanupCandidates]
    returns them, and the batch of completed records Phase 2 queries. *)
Definition phase1Candidates (w : World) : list (ObjectId * FileDoc) :=
  sort_createdAt
    (filter (fun d : ObjectId * FileDoc =>
               isCleanupCandidate (thirtyDaysAgo (localTZA w) (now w)) d.2
               = true)
            (map_to_list (files w))).

Definition phase2Batch (w : World) : list (ObjectId * FileDoc) :=
  cursor_limit 100
    (sort_createdAt
       (filter (fun d : ObjectId * FileDoc =>
                  bool_decide (status d.2 = completed) = true)
               (map_to_list (files w)))).

(** ** Sample worlds *)

(** The limits of the examples of the specification: a capacity of 1000
    bytes under the thresholds of the source. *)
Definition limits1000 : StorageLimits := {|
  MAX_STORAGE := 1000;
  WARNING_THRESHOLD := (85 # 100)%Q;
  CLEANUP_THRESHOLD := (90 # 100)%Q;
  CRITICAL_THRESHOLD := (95 # 100)%Q;
  TARGET_AFTER_CLEANUP := (70 # 100)%Q |}.

Definition blobOf (length : Z) : Blob :=
  {| blob_length := length; blob_filename := "blob" |}.

Definition worldOf (available : bool) (blobs : list (ObjectId * Z))
    (docs : list (ObjectId * FileDoc)) (now : Z) : World :=
  {| gridfsAvailable := available;
     bucket := list_to_map (prod_map id blobOf <$> blobs);
     files := list_to_map docs;
     deleteRejected := ∅;
     now := now;
     localTZA := fun _ _ => 0 |}.

(** A document with an input blob of [size] bytes stored under [blob] and
    no outputs. *)
Definition docOf (name : string) (st : FileStatus) (blob : ObjectId)
    (size : Z) (created : Z) : FileDoc :=
  {| originalName := name; fileType := "pdf"; fileSize := size;
     status := st; gridfsInputFileId := Some blob; outputFiles := [];
     uploadedBy := 1%N; createdAt := created;
     processingStartedAt := None |}.

(** One blob of 510027366 bytes under the shipped limits: 94.99999993% of
    the 512 MB. *)
Definition world_below_critical : World :=
  worldOf true [(1%N, 510027366)] [] 0.

(** 100 of 1000 bytes in use, and a failed record that could be reclaimed. *)
Definition world_below_target : World :=
  worldOf true [(1%N, 100)] [(10%N, docOf "failed.pdf" failed 1%N 100 5)] 0.

(** 900 of 1000 bytes in use: a failed record of 100 bytes and two
    completed records of 400 bytes each. *)
Definition world_two_phases : World :=
  worldOf true [(1%N, 100); (2%N, 400); (3%N, 400)]
    [(10%N, docOf "failed.pdf" failed 1%N 100 30);
     (20%N, docOf "old.pdf" completed 2%N 400 10);
     (21%N, docOf "new.pdf" completed 3%N 400 20)] 100.

(** Five blobs, of which the blobs 1 and 2 are referenced: one as an input,
    one as an output that is not flagged as stored. *)
Definition world_five_blobs : World :=
  worldOf true [(1%N, 10); (2%N, 20); (3%N, 30); (4%N, 40); (5%N, 50)]
    [(10%N,
      {| originalName := "a.pdf"; fileType := "pdf"; fileSize := 10;
         status := completed; gridfsInputFileId := Some 1%N;
         outputFiles :=
           [{| of_fileName := "a.xml"; of_fileSize := Some 20;
               of_gridfsFileId := Some 2%N; of_storedInGridFS := false |}];
         uploadedBy := 1%N; createdAt := 1; processingStartedAt := None |})]
    0.

(** A store that does not answer. *)
Definition world_unavailable : World :=
  worldOf false [(1%N, 960)] [] 0.

(** A record whose input blob is in the store, with one output whose blob
    is already gone and one output that was never stored in GridFS. *)
Definition doc_half_gone : FileDoc :=
  {| originalName := "m.pdf"; fileType := "pdf"; fileSize := 100;
     status := failed; gridfsInputFileId := Some 1%N;
     outputFiles :=
       [{| of_fileName := "m.xml"; of_fileSize := Some 40;
           of_gridfsFileId := Some 2%N; of_storedInGridFS := true |};
        {| of_fileName := "m.log"; of_fileSize := Some 7;
           of_gridfsFileId := None; of_storedInGridFS := false |}];
     uploadedBy := 1%N; createdAt := 1; processingStartedAt := None |}.

Definition world_half_gone : World :=
  worldOf true [(1%N, 100); (9%N, 5)] [(10%N, doc_half_gone)] 0.

(** The store of [world_two_phases] with a collection that rejects the
    deletion of the failed record. *)
Definition world_rejected_candidate : World :=
  {| gridfsAvailable := true;
     bucket := bucket world_two_phases;
     files := files world_two_phases;
     deleteRejected := {[10%N]};
     now := 100;
     localTZA := fun _ _ => 0 |}.

(** The store of [world_two_phases] with a bucket that does not answer. *)
Definition world_store_down : World :=
  {| gridfsAvailable := false;
     bucket := bucket world_two_phases;
     files := files world_two_phases;
     deleteRejected := ∅;
     now := 100;
     localTZA := fun _ _ => 0 |}.

(** ** The other handlers of the storage controller *)

(** How alarming a status is, from [normal] to [critical]. *)
Definition severity (s : StorageStatus) : nat :=
  match s with
  | normal => 0
  | warning => 1
  | high => 2
  | critical => 3
  end.

Record CandidatesBody := {
  cb_count : nat;
  cb_candidates : list FileSummary }.

(** A row of a [$group] stage: the key, [count: { $sum: 1 }] and
    [totalSize: { $sum: '$fileSize' }]. *)
Record GroupRow (K : Type) := {
  g_id : K;
  g_count : nat;
  g_totalSize : Z }.
Arguments g_id {K} _.
Arguments g_count {K} _.
Arguments g_totalSize {K} _.

#[global] Instance FileStatus_countable : Countable FileStatus.
Proof.
  refine (inj_countable'
            (fun s => match s with
                      | uploaded => 0 | processing => 1
                      | completed => 2 | failed => 3
                      end)%nat
            (fun n => match n with
                      | 0 => uploaded | 1 => processing
                      | 2 => completed | _ => failed
                      end)%nat _).
  by intros [].
Defined.

(** One document entering the accumulation of a [$group] stage. *)
Definition addToGroup `{Countable K} (key : K) (size : Z)
    (groups : gmap K (nat * Z)) : gmap K (nat * Z) :=
  let old := default (0%nat, 0) (groups !! key) in
  <[key := (S old.1, old.2 + size)]> groups.

Definition groupsOf `{Countable K} (key : FileDoc -> K)
    (docs : list (ObjectId * FileDoc)) : gmap K (nat * Z) :=
  foldr (fun d groups => addToGroup (key d.2) (fileSize d.2) groups) ∅ docs.

(** Modelled from the spec: [File.aggregate] of the [File] model with one
    [$group] stage keyed by a field of the documents, the grouped view of
    the file record store: one row for each value the field takes. *)
Definition File_aggregate_group `{Countable K} (key : FileDoc -> K)
  : M (list (GroupRow K)) :=
  fun w =>
    (Ok ((fun kv : K * (nat * Z) =>
            {| g_id := kv.1; g_count := kv.2.1; g_totalSize := kv.2.2 |})
         <$> map_to_list (groupsOf key (map_to_list (files w)))), w).

Definition totalSize_ge {K} (a b : GroupRow K) : Prop :=
  g_totalSize b <= g_totalSize a.

#[global] Instance totalSize_ge_dec {K} : RelDecision (@totalSize_ge K).
Proof. intros a b. unfold totalSize_ge. apply _. Defined.

#[global] Instance totalSize_ge_trans {K} : Transitive (@totalSize_ge K).
Proof. unfold totalSize_ge. intros a b c. lia. Qed.

#[global] Instance totalSize_ge_total {K} : Total (@totalSize_ge K).
Proof. unfold totalSize_ge. intros a b. lia. Qed.

(** The stages [{ $sort: { totalSize: -1 } }, { $limit: 10 }]. *)
Definition topTen {K} (rows : list (GroupRow K)) : list (GroupRow K) :=
  take 10 (merge_sort totalSize_ge rows).

Record ReportBody := {
  rb_stats : Stats;
  cleanupCandidatesCount : nat;
  statusCounts : list (GroupRow FileStatus);
  userCounts : list (GroupRow ObjectId);
  typeCounts : list (GroupRow string) }.


Section Handlers.

Variable limits : StorageLimits.




Definition getCleanupCandidatesList : M (Response CandidatesBody) :=
  try_catch
    (candidates <~ getCleanupCandidates ;;
     let candidatesWithSize := withSize <$> candidates in
     ret (Status200 {| cb_count := length candidatesWithSize;
                       cb_candidates := candidatesWithSize |}))
    (fun error =>
       ret (Status500 "Error fetching cleanup candidates" (message error))).

Definition getStorageReport : M (Response ReportBody) :=
  try_catch
    (stats <~ getStorageStats limits ;;
     cleanupCandidates <~ getCleanupCandidates ;;
     statusCounts <~ File_aggregate_group status ;;
     userCounts <~
       (rows <~ File_aggregate_group uploadedBy ;; ret (topTen rows)) ;;
     typeCounts <~ File_aggregate_group fileType ;;
     ret (Status200 {| rb_stats := stats;
                       cleanupCandidatesCount := length cleanupCandidates;
                       statusCounts := statusCounts;
                       userCounts := userCounts;
                       typeCounts := typeCounts |}))
    (fun error =>
       ret (Status500 "Error generating storage report" (message error))).


End Handlers.

(** ** Further derived notions *)

(** The bytes the bucket of a world holds. *)
Definition bucketBytes (w : World) : Z := sumLengths (gridfsFilesOf w).

(** The sizes a document records are accurate in a world when every blob
    it refers to that is in the store has the recorded length. *)
Definition accurateSizes (w : World) (f : FileDoc) : Prop :=
  forall ref b,
    ref ∈ blobRefs f -> bucket w !! ref_id ref = Some b ->
    blob_length b = ref_size ref.

(** The documents of a list that carry a given key. *)
Definition withKey `{EqDecision K} (key : FileDoc -> K) (k : K)
    (docs : list (ObjectId * FileDoc)) : list (ObjectId * FileDoc) :=
  filter (fun d => key d.2 = k) docs.

(** The row a [$group] stage computes for the key [k]: how many documents
    carry it and the sum of their [fileSize]. *)
Definition groupRowOf `{EqDecision K} (key : FileDoc -> K) (k : K)
    (docs : list (ObjectId * FileDoc)) : GroupRow K :=
  {| g_id := k;
     g_count := length (withKey key k docs);
     g_totalSize :=
       sumZ ((fun d : ObjectId * FileDoc => fileSize d.2)
             <$> withKey key k docs) |}.

(** * Properties *)

(** ** Running the monad *)

Lemma bind_Ok {A B} (m : M A) (k : A -> M B) w a w' :
  m w = (Ok a, w') -> bind m k w = k a w'.
Proof. intros H. unfold bind. by rewrite H. Qed.

Lemma bind_Throw {A B} (m : M A) (k : A -> M B) w e w' :
  m w = (Throw e, w') -> bind m k w = (Throw e, w').
Proof. intros H. unfold bind. by rewrite H. Qed.

Lemma try_catch_Ok {A} (m : M A) h w a w' :
  m w = (Ok a, w') -> try_catch m h w = (Ok a, w').
Proof. intros H. unfold try_catch. by rewrite H. Qed.

Lemma try_catch_Throw {A} (m : M A) h w e w' :
  m w = (Throw e, w') -> try_catch m h w = h e w'.
Proof. intros H. unfold try_catch. by rewrite H. Qed.

Lemma try_catch_rethrow {A} (m : M A) w :
  try_catch m (fun error => throw error) w = m w.
Proof. unfold try_catch, throw. by destruct (m w) as [[a|e] w']. Qed.

(** ** Usage accountant *)

Lemma Qle_bool_percent (c f : Q) :
  Qle_bool (c * 100) (f * 100) = Qle_bool c f.
Proof.
  apply eq_true_iff_eq. rewrite !Qle_bool_iff.
  apply Qmult_le_r. reflexivity.
Qed.

Lemma Qle_bool_false (x y : Q) : Qle_bool x y = false <-> ~ (x <= y)%Q.
Proof.
  rewrite <- Qle_bool_iff. by destruct (Qle_bool x y).
Qed.

Lemma bucket_find_all_available w :
  gridfsAvailable w = true -> bucket_find_all w = (Ok (gridfsFilesOf w), w).
Proof. intros H. unfold bucket_find_all. by rewrite H. Qed.

Lemma bucket_find_all_unavailable w :
  gridfsAvailable w = false -> bucket_find_all w = (Throw StoreUnavailable, w).
Proof. intros H. unfold bucket_find_all. by rewrite H. Qed.

Lemma getStorageStats_available limits w :
  gridfsAvailable w = true ->
  getStorageStats limits w = (Ok (statsOf limits (gridfsFilesOf w)), w).
Proof.
  intros H. unfold getStorageStats. rewrite try_catch_rethrow.
  by rewrite (bind_Ok _ _ _ _ _ (bucket_find_all_available w H)).
Qed.

Lemma getStorageStats_unavailable limits w :
  gridfsAvailable w = false ->
  getStorageStats limits w = (Throw StoreUnavailable, w).
Proof.
  intros H. unfold getStorageStats. rewrite try_catch_rethrow.
  by rewrite (bind_Throw _ _ _ _ _ (bucket_find_all_unavailable w H)).
Qed.

Lemma getStorageStats_inv limits w r w' :
  getStorageStats limits w = (r, w') ->
  w' = w /\
  (gridfsAvailable w = true /\ r = Ok (statsOf limits (gridfsFilesOf w))
   \/ gridfsAvailable w = false /\ r = Throw StoreUnavailable).
Proof.
  destruct (gridfsAvailable w) eqn:Hav; intros H.
  - rewrite getStorageStats_available in H by done. naive_solver.
  - rewrite getStorageStats_unavailable in H by done. naive_solver.
Qed.

(** C8.  The status is derived from the usage fraction by comparing it with
    the thresholds in descending order: at or above the critical threshold
    it is [critical], otherwise at or above the cleanup threshold [high],
    otherwise at or above the warning threshold [warning], otherwise
    [normal]; and the snapshot [getStorageStats] returns carries the status
    of its own usage fraction. *)
Theorem getStorageStatus_descending_thresholds (limits : StorageLimits) :
  (forall f : Q,
      ((CRITICAL_THRESHOLD limits <= f)%Q ->
       getStorageStatus limits (f * 100) = critical) /\
      (~ (CRITICAL_THRESHOLD limits <= f)%Q ->
       (CLEANUP_THRESHOLD limits <= f)%Q ->
       getStorageStatus limits (f * 100) = high) /\
      (~ (CRITICAL_THRESHOLD limits <= f)%Q ->
       ~ (CLEANUP_THRESHOLD limits <= f)%Q ->
       (WARNING_THRESHOLD limits <= f)%Q ->
       getStorageStatus limits (f * 100) = warning) /\
      (~ (CRITICAL_THRESHOLD limits <= f)%Q ->
       ~ (CLEANUP_THRESHOLD limits <= f)%Q ->
       ~ (WARNING_THRESHOLD limits <= f)%Q ->
       getStorageStatus limits (f * 100) = normal)) /\
  (forall w st w',
      getStorageStats limits w = (Ok st, w') ->
      stats_status st = getStorageStatus limits (usageFraction limits st * 100))
  /\
  (forall w,
      gridfsAvailable w = true ->
      exists st, getStorageStats limits w = (Ok st, w)).
Proof.
  split; [|split].
  - intros f. unfold getStorageStatus. rewrite !Qle_bool_percent.
    repeat split; intros;
      repeat match goal with
             | H : (_ <= _)%Q |- _ => apply Qle_bool_iff in H; rewrite H
             | H : ~ (_ <= _)%Q |- _ => apply Qle_bool_false in H; rewrite H
             end; reflexivity.
  - intros w st w' H. apply getStorageStats_inv in H as [_ [[_ H]|[_ H]]].
    + by inversion H.
    + discriminate.
  - intros w H. eexists. by apply getStorageStats_available.
Qed.

(** ** Admission controller *)

(** C4.  When the usage computation fails, [checkStorageAvailability] does
    not fail: it allows the upload, asks for no cleanup, and carries the
    message of the error. *)
Theorem checkStorageAvailability_fails_open
    (limits : StorageLimits) (fileSize : Z) (w w' : World) (e : Error) :
  getStorageStats limits w = (Throw e, w') ->
  checkStorageAvailability limits fileSize w
  = (Ok {| canUpload := true; shouldCleanup := Some false; reason := None;
           avail_stats := None; avail_error := Some (message e) |}, w').
Proof.
  intros H. unfold checkStorageAvailability.
  by rewrite (try_catch_Throw _ _ _ _ _ (bind_Throw _ _ _ _ _ H)).
Qed.

(** ** Record deletion *)

Lemma deleteFromGridFS_deletable w id :
  deletable w id = true ->
  deleteFromGridFS id w = (Ok tt, set_bucket (delete id (bucket w)) w).
Proof.
  unfold deletable, deleteFromGridFS.
  intros [Hav Hin%bool_decide_eq_true]%andb_prop. rewrite Hav.
  by destruct Hin as [b ->].
Qed.

Lemma deleteFromGridFS_not_deletable w id :
  deletable w id = false ->
  exists e, deleteFromGridFS id w = (Throw e, w).
Proof.
  unfold deletable, deleteFromGridFS. intros H.
  destruct (gridfsAvailable w); [|by eexists].
  destruct (bucket w !! id) eqn:Hb; [|by eexists].
  apply andb_false_iff in H as [H|H]; [done|].
  apply bool_decide_eq_false in H. destruct H. by eexists.
Qed.

(** One guarded blob deletion: the [try] block around [deleteFromGridFS]. *)
Lemma try_delete_blob (r : BlobRef) (acc : Z * list DeletedBlob) w :
  try_catch
    (deleteFromGridFS (ref_id r) ;;;
     ret (acc.1 + ref_size r, acc.2 ++ [ref_entry r]))
    (fun _ => ret acc) w
  = deleteRefs [r] acc w.
Proof.
  simpl. destruct (deletable w (ref_id r)) eqn:Hd.
  - apply try_catch_Ok.
    by rewrite (bind_Ok _ _ _ _ _ (deleteFromGridFS_deletable _ _ Hd)).
  - destruct (deleteFromGridFS_not_deletable _ _ Hd) as [e He].
    by rewrite (try_catch_Throw _ _ _ _ _ (bind_Throw _ _ _ _ _ He)).
Qed.

Lemma deleteRefs_total refs acc w :
  exists acc' w', deleteRefs refs acc w = (Ok acc', w').
Proof.
  revert acc w. induction refs as [|r refs IH]; intros acc w; simpl.
  - by eexists _, _.
  - destruct (deletable w (ref_id r)); apply IH.
Qed.

Lemma deleteRefs_app refs1 refs2 acc w :
  deleteRefs (refs1 ++ refs2) acc w
  = bind (deleteRefs refs1 acc) (deleteRefs refs2) w.
Proof.
  revert acc w. induction refs1 as [|r refs1 IH]; intros acc w; [done|].
  simpl. unfold bind in *. simpl.
  destruct (deletable w (ref_id r)); apply IH.
Qed.

Lemma deleteInputBlob_refs file acc w :
  deleteInputBlob file acc w
  = deleteRefs (option_list (inputRef file.2)) acc w.
Proof.
  unfold deleteInputBlob, inputRef.
  destruct (gridfsInputFileId file.2) as [id|]; [|done].
  exact (try_delete_blob
           {| ref_id := id; ref_size := fileSize file.2;
              ref_entry := {| db_type := input;
                              db_name := originalName file.2 |} |} acc w).
Qed.

Lemma deleteOutputBlobs_refs outs acc w :
  deleteOutputBlobs outs acc w = deleteRefs (omap outputRef outs) acc w.
Proof.
  revert acc w. induction outs as [|o outs IH]; intros acc w; [done|].
  cbn [deleteOutputBlobs omap list_omap]. unfold outputRef at 1.
  destruct (of_storedInGridFS o), (of_gridfsFileId o) as [id|]; simpl;
    try (unfold bind, ret; apply IH).
  pose proof (try_delete_blob
                {| ref_id := id; ref_size := default 0 (of_fileSize o);
                   ref_entry := {| db_type := output;
                                   db_name := of_fileName o |} |} acc w) as E.
  simpl in E. unfold bind at 1. simpl. rewrite E.
  destruct (deletable w id); apply IH.
Qed.

Lemma deletable_after_delete w id k :
  k ≠ id ->
  deletable (set_bucket (delete id (bucket w)) w) k = deletable w k.
Proof.
  intros Hne. unfold deletable. simpl. by rewrite lookup_delete_ne.
Qed.

Lemma deleteRefs_frame refs acc w acc' w' :
  deleteRefs refs acc w = (Ok acc', w') ->
  gridfsAvailable w' = gridfsAvailable w /\ files w' = files w
  /\ now w' = now w /\ deleteRejected w' = deleteRejected w
  /\ localTZA w' = localTZA w.
Proof.
  revert acc w. induction refs as [|r refs IH]; intros acc w; simpl.
  - intros [= _ <-]. done.
  - destruct (deletable w (ref_id r)); intros H; apply IH in H; apply H.
Qed.

Lemma deleteRefs_bucket refs acc w acc' w' k :
  deleteRefs refs acc w = (Ok acc', w') ->
  bucket w' !! k
  = if decide (gridfsAvailable w = true /\ k ∈ ref_id <$> refs)
    then None else bucket w !! k.
Proof.
  revert acc w. induction refs as [|r refs IH]; intros acc w; simpl.
  - intros [= _ <-]. case_decide as H; [|done].
    destruct H as [_ H]. by apply elem_of_nil in H.
  - destruct (deletable w (ref_id r)) eqn:Hd; intros H; apply IH in H;
      rewrite H; clear H; unfold deletable in Hd; simpl.
    + apply andb_prop in Hd as [Hav _].
      destruct (decide (k = ref_id r)) as [->|Hne].
      * rewrite lookup_delete_eq.
        rewrite (decide_True (P := _ /\ ref_id r ∈ ref_id r :: _))
          by (split; [done|left]).
        by destruct (decide _).
      * rewrite lookup_delete_ne by done.
        apply decide_ext. rewrite elem_of_cons. intuition.
    + destruct (decide (k = ref_id r)) as [->|Hne].
      * destruct (gridfsAvailable w) eqn:Hav; simpl in Hd.
        -- apply bool_decide_eq_false in Hd.
           destruct (bucket w !! ref_id r) eqn:E; [destruct Hd; by eexists|].
           by repeat destruct (decide _).
        -- by repeat (destruct (decide _) as [[? ?]|?]; try done).
      * apply decide_ext. rewrite elem_of_cons. intuition.
Qed.

Lemma deleteRefs_nothing refs acc w :
  (forall r, r ∈ refs -> deletable w (ref_id r) = false) ->
  deleteRefs refs acc w = (Ok acc, w).
Proof.
  induction refs as [|r refs IH]; intros H; simpl; [done|].
  rewrite (H r) by left. apply IH. intros r' Hr'. apply H. by right.
Qed.

Lemma filter_ext_elem {A} (P Q : A -> Prop)
    `{!forall x, Decision (P x)} `{!forall x, Decision (Q x)} (l : list A) :
  (forall x, x ∈ l -> P x <-> Q x) -> filter P l = filter Q l.
Proof.
  induction l as [|x l IH]; intros Hext; [done|].
  rewrite !filter_cons.
  rewrite IH by (intros y Hy; apply Hext; by right).
  pose proof (Hext x ltac:(left)) as Hx.
  repeat case_decide; tauto.
Qed.

(** With pairwise distinct references, the credited bytes are the recorded
    sizes of exactly the references whose blob could be deleted. *)
Lemma deleteRefs_credit refs acc w acc' w' :
  NoDup (ref_id <$> refs) ->
  deleteRefs refs acc w = (Ok acc', w') ->
  acc'.1 = acc.1
           + sumZ (ref_size
                   <$> filter (fun r => deletable w (ref_id r) = true) refs)
  /\ acc'.2 = acc.2
              ++ (ref_entry
                  <$> filter (fun r => deletable w (ref_id r) = true) refs).
Proof.
  revert acc w. induction refs as [|r refs IH]; intros acc w Hnd; simpl.
  - intros [= <- _]. rewrite app_nil_r. split; [unfold sumZ; simpl; lia|done].
  - apply NoDup_cons in Hnd as [Hnotin Hnd].
    rewrite filter_cons.
    destruct (deletable w (ref_id r)) eqn:Hd; intros H.
    + apply IH in H as [H1 H2]; [|done]. simpl in H1, H2.
      rewrite decide_True by done.
      rewrite (filter_ext_elem _ (fun r0 => deletable w (ref_id r0) = true))
        in H1, H2.
      * rewrite H1, H2. rewrite !fmap_cons. unfold sumZ. simpl.
        rewrite <- app_assoc. split; [lia|done].
      * intros x Hx. rewrite deletable_after_delete; [done|].
        intros E. apply Hnotin. rewrite <- E. by apply list_elem_of_fmap_2.
      * intros x Hx. rewrite deletable_after_delete; [done|].
        intros E. apply Hnotin. rewrite <- E. by apply list_elem_of_fmap_2.
    + rewrite decide_False by congruence. by apply IH.
Qed.

(** A run of [deleteFileCompletely]: the blob deletions, then the deletion
    of the record, which the collection accepts or rejects. *)
Lemma deleteFileCompletely_refs file w :
  exists acc w1,
    deleteRefs (blobRefs file.2) (0, []) w = (Ok acc, w1)
    /\ deleteFileCompletely file w
       = if decide (doc_id file ∈ deleteRejected w)
         then (Throw (RecordDeleteFailed (doc_id file)), w1)
         else (Ok {| fileId := doc_id file;
                     fileName := originalName file.2;
                     deletedSize := acc.1;
                     deletedBlobs := acc.2;
                     dr_createdAt := createdAt file.2 |},
               set_files (delete (doc_id file) (files w1)) w1).
Proof.
  destruct (deleteRefs_total (blobRefs file.2) (0, []) w) as (acc & w1 & H).
  exists acc, w1. split; [done|].
  pose proof (deleteRefs_frame _ _ _ _ _ H) as (_ & _ & _ & Hrej & _).
  unfold blobRefs in H. rewrite deleteRefs_app in H. unfold bind in H.
  unfold deleteFileCompletely. rewrite try_catch_rethrow. unfold bind at 1.
  rewrite deleteInputBlob_refs.
  destruct (deleteRefs (option_list (inputRef file.2)) (0, []) w)
    as [[acc0|e] w0]; [|done].
  unfold bind at 1. rewrite deleteOutputBlobs_refs, H.
  unfold bind at 1, deleteOne. rewrite Hrej.
  by destruct (decide (doc_id file ∈ deleteRejected w)).
Qed.

Lemma deletable_gone w id :
  bucket w !! id = None -> deletable w id = false.
Proof.
  intros H. unfold deletable. rewrite H.
  rewrite bool_decide_eq_false_2; [apply andb_false_r|].
  by intros [? ?].
Qed.

Lemma deletable_unavailable w id :
  gridfsAvailable w = false -> deletable w id = false.
Proof. intros H. unfold deletable. by rewrite H. Qed.

(** C5.  [deleteFileCompletely] goes through the input reference, if there
    is one, and through every output flagged as stored in GridFS.  Whatever
    the individual blob deletions do, the deletion of the record is
    reached.  When the collection accepts it, the call returns and the
    record is gone afterwards; on an answering store none of the referenced
    blobs remains and no other blob is touched.  Only the blobs that could
    be deleted are credited: with distinct references [deletedSize] is the
    sum of the recorded sizes of the references whose delete went through,
    and when every referenced blob is already gone (or no delete goes
    through) the call still succeeds with [deletedSize = 0].  Running it
    again on the resulting world succeeds, frees nothing and changes
    nothing.  When the collection rejects the deletion of the record, that
    failure, and no failure of a blob, is what the call throws: the record
    stays and the blobs have been deleted all the same. *)
Theorem deleteFileCompletely_tolerates_blob_failures
    (file : Document) (w : World) :
  (doc_id file ∉ deleteRejected w ->
   exists r w',
     deleteFileCompletely file w = (Ok r, w')
     /\ fileId r = doc_id file
     /\ files w' = delete (doc_id file) (files w)
     /\ (forall id,
           bucket w' !! id
           = if decide (gridfsAvailable w = true
                        /\ id ∈ ref_id <$> blobRefs file.2)
             then None else bucket w !! id)
     /\ (NoDup (ref_id <$> blobRefs file.2) ->
         deletedSize r
         = sumZ (ref_size
                 <$> filter (fun ref => deletable w (ref_id ref) = true)
                            (blobRefs file.2))
         /\ deletedBlobs r
            = ref_entry
              <$> filter (fun ref => deletable w (ref_id ref) = true)
                         (blobRefs file.2))
     /\ ((forall ref, ref ∈ blobRefs file.2 ->
                      deletable w (ref_id ref) = false) ->
         deletedSize r = 0 /\ deletedBlobs r = [] /\ bucket w' = bucket w)
     /\ exists r2,
          deleteFileCompletely file w' = (Ok r2, w')
          /\ deletedSize r2 = 0 /\ deletedBlobs r2 = [])
  /\ (doc_id file ∈ deleteRejected w ->
      exists w',
        deleteFileCompletely file w
        = (Throw (RecordDeleteFailed (doc_id file)), w')
        /\ files w' = files w
        /\ (forall id,
              bucket w' !! id
              = if decide (gridfsAvailable w = true
                           /\ id ∈ ref_id <$> blobRefs file.2)
                then None else bucket w !! id)).
Proof.
  destruct (deleteFileCompletely_refs file w) as (acc & w1 & Hrefs & Hrun).
  pose proof (deleteRefs_frame _ _ _ _ _ Hrefs)
    as (Hav & Hfiles & Hnow & Hrej & _).
  split; intros Hin.
  2: { rewrite decide_True in Hrun by done. exists w1.
       split; [done|]. split; [done|].
       intros id. by apply (deleteRefs_bucket _ _ _ _ _ id Hrefs). }
  rewrite decide_False in Hrun by done.
  eexists _, _. split; [exact Hrun|]. simpl.
  split; [done|]. split; [by rewrite Hfiles|].
  split; [intros id; by apply (deleteRefs_bucket _ _ _ _ _ id Hrefs)|].
  split; [|split].
  - intros Hnd. destruct (deleteRefs_credit _ _ _ _ _ Hnd Hrefs) as [H1 H2].
    simpl in H1, H2. by rewrite H1, H2.
  - intros Hgone. rewrite (deleteRefs_nothing _ _ _ Hgone) in Hrefs.
    by inversion Hrefs.
  - set (w2 := set_files (delete (doc_id file) (files w1)) w1).
    assert (forall ref, ref ∈ blobRefs file.2 ->
                        deletable w2 (ref_id ref) = false) as Hgone.
    { intros ref Href. destruct (gridfsAvailable w) eqn:E.
      - apply deletable_gone. simpl.
        rewrite (deleteRefs_bucket _ _ _ _ _ (ref_id ref) Hrefs).
        rewrite decide_True; [done|].
        split; [done|]. by apply list_elem_of_fmap_2.
      - apply deletable_unavailable. simpl. congruence. }
    destruct (deleteFileCompletely_refs file w2) as (acc2 & w3 & Hrefs2 & Hrun2).
    rewrite (deleteRefs_nothing _ _ _ Hgone) in Hrefs2.
    inversion Hrefs2; subst acc2 w3; clear Hrefs2.
    rewrite decide_False in Hrun2 by (cbn [w2 deleteRejected set_files]; congruence).
    assert (set_files (delete (doc_id file) (files w2)) w2 = w2) as Hsame.
    { unfold w2. simpl. unfold set_files. simpl.
      by rewrite delete_delete_eq. }
    rewrite Hsame in Hrun2. eexists. split; [exact Hrun2|done].
Qed.

(** ** Orphan scanner *)

Lemma elem_of_addOutputReferences outs refs id :
  id ∈ fold_left addOutputReference outs refs
  <-> id ∈ refs \/ exists o, o ∈ outs /\ of_gridfsFileId o = Some id.
Proof.
  revert refs. induction outs as [|o outs IH]; intros refs; simpl.
  - split; [by left|]. intros [H|(o & Ho & _)]; [done|].
    by apply elem_of_nil in Ho.
  - rewrite IH. unfold addOutputReference. split.
    + intros [H|(o' & Ho' & E)].
      * destruct (of_gridfsFileId o) as [oid|] eqn:Eo; [|by left].
        apply elem_of_union in H as [H|H]; [|by left].
        apply elem_of_singleton in H as ->. right. exists o. split; [left|done].
      * right. exists o'. split; [by right|done].
    + intros [H|(o' & Ho' & E)].
      * left. destruct (of_gridfsFileId o); [|done].
        apply elem_of_union. by right.
      * apply elem_of_cons in Ho' as [->|Ho'].
        -- left. rewrite E. apply elem_of_union. left.
           by apply elem_of_singleton.
        -- right. by exists o'.
Qed.

Lemma elem_of_addReferences refs file id :
  id ∈ addReferences refs file
  <-> id ∈ refs
      \/ gridfsInputFileId file.2 = Some id
      \/ exists o, o ∈ outputFiles file.2 /\ of_gridfsFileId o = Some id.
Proof.
  unfold addReferences. rewrite elem_of_addOutputReferences.
  destruct (gridfsInputFileId file.2) as [iid|].
  - rewrite elem_of_union, elem_of_singleton. naive_solver.
  - naive_solver.
Qed.

Lemma elem_of_fold_addReferences dbFiles refs id :
  id ∈ fold_left addReferences dbFiles refs
  <-> id ∈ refs
      \/ exists file, file ∈ dbFiles
           /\ (gridfsInputFileId file.2 = Some id
               \/ exists o, o ∈ outputFiles file.2
                            /\ of_gridfsFileId o = Some id).
Proof.
  revert refs. induction dbFiles as [|f dbFiles IH]; intros refs; simpl.
  - split; [by left|]. intros [H|(f & Hf & _)]; [done|].
    by apply elem_of_nil in Hf.
  - rewrite IH, elem_of_addReferences. split.
    + intros [[H|H]|(f' & Hf' & H)].
      * by left.
      * right. exists f. split; [left|done].
      * right. exists f'. split; [by right|done].
    + intros [H|(f' & Hf' & H)].
      * left. by left.
      * apply elem_of_cons in Hf' as [->|Hf'].
        -- left. by right.
        -- right. by exists f'.
Qed.

Lemma File_find_all w :
  File_find (fun _ => true) w = (Ok (map_to_list (files w)), w).
Proof.
  unfold File_find. f_equal. f_equal.
  induction (map_to_list (files w)) as [|d l IH]; [done|].
  rewrite filter_cons_True by done. by rewrite IH.
Qed.

(** The reference set of the scanner holds exactly the referenced ids. *)
Lemma elem_of_referencedIds w id :
  id ∈ referencedIds (map_to_list (files w)) <-> referenced w id.
Proof.
  unfold referencedIds, referenced. rewrite elem_of_fold_addReferences. split.
  - intros [H|([fid doc] & Hf & H)]; [by apply not_elem_of_empty in H|].
    apply elem_of_map_to_list in Hf. by exists fid, doc.
  - intros (fid & doc & Hf & H). right. exists (fid, doc).
    split; [by apply elem_of_map_to_list|done].
Qed.

Lemma elem_of_gridfsFilesOf w g :
  g ∈ gridfsFilesOf w
  <-> bucket w !! gf_id g
      = Some {| blob_length := gf_length g; blob_filename := gf_filename g |}.
Proof.
  unfold gridfsFilesOf. rewrite list_elem_of_fmap. split.
  - intros ([k [len name]] & -> & H). by apply elem_of_map_to_list in H.
  - intros H. eexists (gf_id g, _). split; [|by apply elem_of_map_to_list].
    by destruct g.
Qed.

Lemma NoDup_gridfsFilesOf w : NoDup (gf_id <$> gridfsFilesOf w).
Proof.
  unfold gridfsFilesOf. rewrite <- list_fmap_compose.
  apply (NoDup_fst_map_to_list (bucket w)).
Qed.

Lemma orphanLoop_frame orphans acc w acc' w' :
  orphanLoop orphans acc w = (Ok acc', w') ->
  gridfsAvailable w' = gridfsAvailable w /\ files w' = files w
  /\ now w' = now w.
Proof.
  revert acc w. induction orphans as [|o orphans IH]; intros acc w; simpl.
  - by intros [= _ <-].
  - unfold bind at 1, try_catch, bind, ret.
    destruct (deleteFromGridFS (gf_id o) w) as [[[]|e] w1] eqn:E;
      intros H; apply IH in H.
    + destruct (deletable w (gf_id o)) eqn:Hd.
      * rewrite deleteFromGridFS_deletable in E by done.
        inversion E; subst w1. apply H.
      * destruct (deleteFromGridFS_not_deletable _ _ Hd) as [e He].
        congruence.
    + destruct (deletable w (gf_id o)) eqn:Hd.
      * rewrite deleteFromGridFS_deletable in E by done. discriminate.
      * destruct (deleteFromGridFS_not_deletable _ _ Hd) as [e' He].
        rewrite He in E. inversion E; subst w1. apply H.
Qed.

Lemma orphanLoop_total orphans acc w :
  exists acc' w', orphanLoop orphans acc w = (Ok acc', w').
Proof.
  revert acc w. induction orphans as [|o orphans IH]; intros acc w; simpl.
  - by eexists _, _.
  - unfold bind at 1, try_catch, bind, ret.
    destruct (deleteFromGridFS (gf_id o) w) as [[[]|e] w1]; apply IH.
Qed.

(** Deleting a list of distinct blobs that are all in an answering store:
    every delete goes through. *)
Lemma orphanLoop_all_deleted orphans acc w :
  gridfsAvailable w = true ->
  NoDup (gf_id <$> orphans) ->
  (forall o, o ∈ orphans -> is_Some (bucket w !! gf_id o)) ->
  exists w',
    orphanLoop orphans acc w
    = (Ok ((acc.1 + length orphans)%nat, acc.2 + sumZ (gf_length <$> orphans)),
       w')
    /\ (forall k, bucket w' !! k
                  = if decide (k ∈ gf_id <$> orphans) then None
                    else bucket w !! k)
    /\ (size (bucket w') + length orphans = size (bucket w))%nat.
Proof.
  revert acc w. induction orphans as [|o orphans IH]; intros acc w Hav Hnd Hin.
  - exists w. split; [|split].
    + simpl. unfold ret, sumZ. simpl. do 2 f_equal. destruct acc as [n z].
      simpl. f_equal; lia.
    + intros k. rewrite fmap_nil.
      destruct (decide (k ∈ [])) as [H%elem_of_nil|]; done.
    + simpl. lia.
  - rewrite fmap_cons in Hnd. apply NoDup_cons in Hnd as [Hnotin Hnd].
    assert (deletable w (gf_id o) = true) as Hd.
    { unfold deletable. rewrite Hav. simpl. apply bool_decide_eq_true.
      apply Hin. left. }
    simpl. unfold bind at 1, try_catch, bind at 1, ret.
    rewrite (deleteFromGridFS_deletable _ _ Hd).
    set (w1 := set_bucket (delete (gf_id o) (bucket w)) w).
    destruct (IH (S acc.1, acc.2 + gf_length o) w1) as (w' & Hrun & Hb & Hsz).
    + done.
    + done.
    + intros o' Ho'. simpl. rewrite lookup_delete_ne; [apply Hin; by right|].
      intros E. apply Hnotin. rewrite E. by apply list_elem_of_fmap_2.
    + exists w'. split; [|split].
      * rewrite Hrun. simpl. unfold sumZ. simpl.
        do 3 f_equal; [lia|symmetry; apply Z.add_assoc].
      * intros k. rewrite Hb. simpl.
        destruct (decide (k = gf_id o)) as [->|Hne].
        -- rewrite lookup_delete_eq.
           rewrite (decide_True (P := gf_id o ∈ gf_id o :: _)) by left.
           by destruct (decide _).
        -- rewrite lookup_delete_ne by done. apply decide_ext.
           rewrite elem_of_cons. intuition.
      * simpl in Hsz. rewrite map_size_delete_Some in Hsz by (apply Hin; left).
        assert (size (bucket w) ≠ 0%nat).
        { apply map_size_ne_0_lookup_2 with (gf_id o). apply Hin. left. }
        simpl. lia.
Qed.

Lemma NoDup_fmap_filter {A B} (f : A -> B) (P : A -> Prop)
    `{!forall x, Decision (P x)} (l : list A) :
  NoDup (f <$> l) -> NoDup (f <$> filter P l).
Proof.
  induction l as [|x l IH]; [done|].
  rewrite fmap_cons, filter_cons. intros [Hx Hl]%NoDup_cons.
  case_decide; [|by apply IH].
  rewrite fmap_cons. apply NoDup_cons. split; [|by apply IH].
  intros (y & E & Hy)%list_elem_of_fmap. apply Hx.
  apply list_elem_of_filter in Hy as [_ Hy]. rewrite E.
  by apply list_elem_of_fmap_2.
Qed.

Lemma filter_none {A} (P : A -> Prop) `{!forall x, Decision (P x)}
    (l : list A) :
  (forall x, x ∈ l -> ~ P x) -> filter P l = [].
Proof.
  induction l as [|x l IH]; [done|]. intros Hno.
  rewrite filter_cons_False by (apply Hno; left).
  apply IH. intros y Hy. apply Hno. by right.
Qed.

Lemma cleanupOrphanedGridFSFiles_unavailable w :
  gridfsAvailable w = false ->
  cleanupOrphanedGridFSFiles w = (Throw StoreUnavailable, w).
Proof.
  intros H. unfold cleanupOrphanedGridFSFiles. rewrite try_catch_rethrow.
  by rewrite (bind_Throw _ _ _ _ _ (bucket_find_all_unavailable w H)).
Qed.

Lemma cleanupOrphanedGridFSFiles_available w :
  gridfsAvailable w = true ->
  cleanupOrphanedGridFSFiles w
  = bind (orphanLoop
            (filter (fun gFile =>
                       gf_id gFile ∉ referencedIds (map_to_list (files w)))
                    (gridfsFilesOf w))
            (0%nat, 0))
         (fun acc =>
            ret {| or_success := true;
                   or_message := acc.1;
                   deletedCount := acc.1;
                   or_freedSize := acc.2;
                   or_freedSizeMB := toFixed2 (inject_Z acc.2 / inject_Z MB) |})
         w.
Proof.
  intros H. unfold cleanupOrphanedGridFSFiles. rewrite try_catch_rethrow.
  rewrite (bind_Ok _ _ _ _ _ (bucket_find_all_available w H)).
  by rewrite (bind_Ok _ _ _ _ _ (File_find_all w)).
Qed.

(** C9.  The orphan scanner leaves the [File] collection as it found it,
    whatever the world it starts from and whether it returns or throws. *)
Theorem cleanupOrphanedGridFSFiles_keeps_records (w : World) :
  files (cleanupOrphanedGridFSFiles w).2 = files w.
Proof.
  destruct (gridfsAvailable w) eqn:Hav.
  - rewrite cleanupOrphanedGridFSFiles_available by done. unfold bind.
    destruct (orphanLoop_total
                (filter (fun gFile =>
                           gf_id gFile ∉ referencedIds (map_to_list (files w)))
                        (gridfsFilesOf w)) (0%nat, 0) w) as (acc & w' & H).
    rewrite H. simpl. by apply orphanLoop_frame in H as (_ & ? & _).
  - by rewrite cleanupOrphanedGridFSFiles_unavailable.
Qed.

(** C6.  On an answering store the orphan scanner deletes exactly the blobs
    whose id no document references (as input or as any output): a
    referenced blob is kept as it is, any other blob is gone, the count it
    reports is the number of blobs that left the store, and a second run
    right after the first deletes nothing and leaves the world as it is. *)
Theorem cleanupOrphanedGridFSFiles_deletes_exactly_orphans (w : World) :
  gridfsAvailable w = true ->
  exists r w',
    cleanupOrphanedGridFSFiles w = (Ok r, w')
    /\ (forall id, referenced w id -> bucket w' !! id = bucket w !! id)
    /\ (forall id, ~ referenced w id -> bucket w' !! id = None)
    /\ (deletedCount r + size (bucket w') = size (bucket w))%nat
    /\ exists r2,
         cleanupOrphanedGridFSFiles w' = (Ok r2, w')
         /\ deletedCount r2 = 0%nat /\ or_freedSize r2 = 0.
Proof.
  intros Hav. rewrite cleanupOrphanedGridFSFiles_available by done.
  set (refs := referencedIds (map_to_list (files w))).
  set (orphans := filter (fun gFile => gf_id gFile ∉ refs) (gridfsFilesOf w)).
  destruct (orphanLoop_all_deleted orphans (0%nat, 0) w) as (w' & Hrun & Hb & Hsz).
  { done. }
  { apply NoDup_fmap_filter, NoDup_gridfsFilesOf. }
  { intros o [_ Ho%elem_of_gridfsFilesOf]%list_elem_of_filter. by eexists. }
  assert (forall k, bucket w' !! k
                    = if decide (k ∈ refs) then bucket w !! k else None) as Hb'.
  { intros k. rewrite Hb. destruct (decide (k ∈ refs)) as [Hk|Hk].
    - rewrite decide_False; [done|].
      intros (o & -> & [Ho _]%list_elem_of_filter)%list_elem_of_fmap. done.
    - destruct (bucket w !! k) as [[len name]|] eqn:E; [|by destruct (decide _)].
      rewrite decide_True; [done|].
      apply list_elem_of_fmap.
      exists {| gf_id := k; gf_length := len; gf_filename := name |}.
      split; [done|]. apply list_elem_of_filter. split; [done|].
      by apply elem_of_gridfsFilesOf. }
  pose proof (orphanLoop_frame _ _ _ _ _ Hrun) as (Hav' & Hfiles & _).
  rewrite (bind_Ok _ _ _ _ _ Hrun). eexists _, _. split; [reflexivity|].
  simpl. split; [|split; [|split]].
  - intros id Hid%elem_of_referencedIds. rewrite Hb'. by rewrite decide_True.
  - intros id Hid. rewrite Hb'. rewrite decide_False; [done|].
    unfold refs. by rewrite elem_of_referencedIds.
  - lia.
  - rewrite cleanupOrphanedGridFSFiles_available by congruence.
    rewrite Hfiles. fold refs.
    assert (filter (fun gFile => gf_id gFile ∉ refs) (gridfsFilesOf w') = [])
      as ->.
    { apply filter_none.
      intros g [b Hg]%elem_of_gridfsFilesOf%mk_is_Some Hnot.
      rewrite Hb' in Hg. by rewrite decide_False in Hg. }
    eexists. split; [reflexivity|done].
Qed.

(** ** Reclamation engine *)

(** What a call of [deleteFileCompletely] does: the referenced blobs
    leave an answering bucket in any case; the record leaves the
    collection and the call returns when the collection accepts the
    deletion; the call throws and the record stays when it rejects it. *)
Lemma deleteFileCompletely_effect file w :
  exists res w',
    deleteFileCompletely file w = (res, w')
    /\ gridfsAvailable w' = gridfsAvailable w
    /\ now w' = now w
    /\ deleteRejected w' = deleteRejected w
    /\ localTZA w' = localTZA w
    /\ (forall k, bucket w' !! k
                  = if decide (gridfsAvailable w = true
                               /\ k ∈ ref_id <$> blobRefs file.2)
                    then None else bucket w !! k)
    /\ (doc_id file ∉ deleteRejected w ->
        exists r,
          res = Ok r /\ fileId r = doc_id file
          /\ files w' = delete (doc_id file) (files w))
    /\ (doc_id file ∈ deleteRejected w ->
        res = Throw (RecordDeleteFailed (doc_id file))
        /\ files w' = files w).
Proof.
  destruct (deleteFileCompletely_refs file w) as (acc & w1 & Hrefs & Hrun).
  pose proof (deleteRefs_frame _ _ _ _ _ Hrefs)
    as (Hav & Hfiles & Hnow & Hrej & Htz).
  pose proof (fun k => deleteRefs_bucket _ _ _ _ _ k Hrefs) as Hb.
  destruct (decide (doc_id file ∈ deleteRejected w)) as [Hin|Hnin].
  - exists (Throw (RecordDeleteFailed (doc_id file))), w1.
    split; [done|]. do 5 (split; [done|]). split; [done|]. done.
  - eexists (Ok _), _. split; [exact Hrun|].
    cbn [gridfsAvailable now deleteRejected localTZA bucket files set_files].
    do 5 (split; [done|]). split; [|done].
    intros _. eexists. split; [done|]. split; [done|]. by rewrite Hfiles.
Qed.

Lemma sumZ_app l1 l2 : sumZ (l1 ++ l2) = sumZ l1 + sumZ l2.
Proof. unfold sumZ. induction l1 as [|x l1 IH]; simpl; lia. Qed.

(** What a run of the deletion loop does: it tries the first [k]
    documents of its list, one after the other, each at a moment when the
    bytes freed so far are still below the bytes to free, and it stops
    before the end of the list only once the bytes to free are reached.
    A document whose deletion the collection rejects is skipped: its
    record stays and it is not logged, but its blobs have been deleted. *)
Lemma cleanupLoop_spec sizeToFree l acc w :
  exists (k : nat) (dnew : list DeleteResult) (w' : World),
    cleanupLoop sizeToFree l acc w
    = (Ok (acc.1 + sumZ (deletedSize <$> dnew), acc.2 ++ dnew), w')
    /\ fileId <$> dnew
       = doc_id <$> filter (fun d : ObjectId * FileDoc =>
                              d.1 ∉ deleteRejected w) (take k l)
    /\ (forall j, (j < length dnew)%nat ->
          (inject_Z (acc.1 + sumZ (deletedSize <$> take j dnew))
           < sizeToFree)%Q)
    /\ (k = length l
        \/ (sizeToFree
            <= inject_Z (acc.1 + sumZ (deletedSize <$> dnew)))%Q)
    /\ gridfsAvailable w' = gridfsAvailable w
    /\ now w' = now w
    /\ deleteRejected w' = deleteRejected w
    /\ localTZA w' = localTZA w
    /\ (forall id, files w' !! id
                   = if decide (id ∈ fileId <$> dnew) then None
                     else files w !! id)
    /\ (forall b, bucket w !! b = None -> bucket w' !! b = None)
    /\ (gridfsAvailable w = true ->
        forall (d : ObjectId * FileDoc) ref,
          d ∈ take k l -> ref ∈ blobRefs d.2 ->
          bucket w' !! ref_id ref = None).
Proof.
  revert acc w. induction l as [|file rest IH]; intros acc w.
  - exists 0%nat, [], w. simpl. unfold ret. rewrite app_nil_r.
    unfold sumZ. simpl. rewrite Z.add_0_r. destruct acc as [f d].
    do 2 (split; [done|]). split; [intros j Hj; lia|].
    split; [by left|]. do 4 (split; [done|]).
    split; [|split; [done|]].
    + intros id.
      first [done|rewrite decide_False; [done|apply not_elem_of_nil]].
    + intros _ d0 ref Hd0. by apply elem_of_nil in Hd0.
  - simpl. destruct (Qle_bool sizeToFree (inject_Z acc.1)) eqn:Hbreak.
    + exists 0%nat, [], w. unfold ret. rewrite app_nil_r.
      unfold sumZ. simpl. rewrite Z.add_0_r. destruct acc as [f d].
      do 2 (split; [done|]). split; [intros j Hj; simpl in Hj; lia|].
      split; [right; by apply Qle_bool_iff|]. do 4 (split; [done|]).
      split; [|split; [done|]].
      * intros id.
        first [done|rewrite decide_False; [done|apply not_elem_of_nil]].
      * intros _ d0 ref Hd0. by apply elem_of_nil in Hd0.
    + destruct (deleteFileCompletely_effect file w)
        as (res & w1 & Hdel & Hav & Hnow & Hrej & Htz & Hb & Hok & Hfail).
      assert (forall b, bucket w !! b = None -> bucket w1 !! b = None) as Hnone.
      { intros b Hnb. rewrite Hb, Hnb. by destruct (decide _). }
      assert (gridfsAvailable w = true ->
              forall ref, ref ∈ blobRefs file.2 ->
                          bucket w1 !! ref_id ref = None) as Hgone.
      { intros Hav0 ref Href. rewrite Hb, decide_True; [done|].
        split; [done|]. by apply list_elem_of_fmap_2. }
      unfold bind at 1.
      destruct (decide (doc_id file ∈ deleteRejected w)) as [Hin|Hnin].
      * (* the collection rejects the deletion: the record is skipped *)
        destruct (Hfail Hin) as [-> Hfiles].
        rewrite (try_catch_Throw _ _ _ _ _ (bind_Throw _ _ _ _ _ Hdel)).
        unfold ret at 1.
        destruct (IH acc w1)
          as (k & dnew & w' & Hrun & Hids & Hbelow & Hstop & Hav' & Hnow'
              & Hrej' & Htz' & Hf & Hnone' & Hgone').
        exists (S k), dnew, w'. rewrite firstn_cons.
        rewrite filter_cons_False by (intros Hn; by apply Hn).
        rewrite Hrej in Hids.
        split; [done|]. split; [done|]. split; [done|].
        split; [destruct Hstop as [->|?]; [by left|by right]|].
        do 4 (split; [congruence|]).
        split; [|split].
        -- intros id. by rewrite Hf, Hfiles.
        -- intros b Hnb. by apply Hnone', Hnone.
        -- intros Hav0 d0 ref [->|Hd0]%elem_of_cons Href.
           ++ by apply Hnone', Hgone.
           ++ apply (Hgone' ltac:(congruence) d0 ref Hd0 Href).
      * (* the record is deleted and logged *)
        destruct (Hok Hnin) as (r & -> & Hid & Hfiles).
        rewrite (try_catch_Ok _ _ _ _ _ (bind_Ok _ _ _ _ _ Hdel)).
        destruct (IH (acc.1 + deletedSize r, acc.2 ++ [r]) w1)
          as (k & dnew & w' & Hrun & Hids & Hbelow & Hstop & Hav' & Hnow'
              & Hrej' & Htz' & Hf & Hnone' & Hgone').
        exists (S k), (r :: dnew), w'. cbn [fst snd] in *.
        rewrite firstn_cons. rewrite filter_cons_True by done.
        rewrite !fmap_cons. rewrite Hrej in Hids.
        assert (forall l, sumZ (deletedSize r :: l) = deletedSize r + sumZ l)
          as Hsum by done.
        split; [|split; [|split; [|split]]].
        -- rewrite Hrun, Hsum, <- app_assoc, Z.add_assoc. done.
        -- by rewrite Hids, Hid.
        -- intros [|j] Hj.
           ++ rewrite take_0, fmap_nil. unfold sumZ at 1. simpl foldr.
              rewrite Z.add_0_r.
              apply Qnot_le_lt. by apply Qle_bool_false.
           ++ rewrite firstn_cons, fmap_cons, Hsum, Z.add_assoc.
              apply Hbelow. simpl in Hj. lia.
        -- destruct Hstop as [->|Hstop]; [by left|right].
           by rewrite Hsum, Z.add_assoc.
        -- do 4 (split; [congruence|]). split; [|split].
           ++ intros id. rewrite Hf, Hfiles, Hid.
              destruct (decide (id = doc_id file)) as [->|Hne].
              ** rewrite lookup_delete_eq.
                 rewrite (decide_True (P := doc_id file ∈ doc_id file :: _))
                   by left.
                 by destruct (decide _).
              ** rewrite lookup_delete_ne by done. apply decide_ext.
                 rewrite elem_of_cons. intuition.
           ++ intros b Hnb. by apply Hnone', Hnone.
           ++ intros Hav0 d0 ref [->|Hd0]%elem_of_cons Href.
              ** by apply Hnone', Hgone.
              ** apply (Hgone' ltac:(congruence) d0 ref Hd0 Href).
Qed.

Lemma elem_of_sort_createdAt d l : d ∈ sort_createdAt l <-> d ∈ l.
Proof. unfold sort_createdAt. by rewrite merge_sort_Permutation. Qed.

Lemma elem_of_cursor_limit n l d : d ∈ cursor_limit n l -> d ∈ l.
Proof.
  unfold cursor_limit. destruct (n =? 0); [done|].
  intros H. eapply elem_of_sublist; [exact H|apply sublist_take].
Qed.

Lemma getCleanupCandidates_run w :
  getCleanupCandidates w = (Ok (phase1Candidates w), w).
Proof. unfold getCleanupCandidates. by rewrite try_catch_rethrow. Qed.

Lemma candidate_not_completed cutoff c :
  isCleanupCandidate cutoff c = true -> status c ≠ completed.
Proof.
  unfold isCleanupCandidate. intros H E. rewrite E in H.
  by rewrite !bool_decide_eq_false_2 in H.
Qed.

(** The shape of a run of [performAutoCleanup] that returns.  Phase 1
    tries a prefix of the candidates and Phase 2 a prefix of the batch of
    completed records queried after Phase 1; the log holds, in that order,
    the tried documents whose deletion the collection accepted.  Phase 2
    tries something only when Phase 1 went through all its candidates;
    every deletion happens while the bytes freed so far are below the bytes
    to free; and the blobs of every document tried are gone. *)
Lemma performAutoCleanup_phases limits targetPercent w res w' :
  performAutoCleanup limits targetPercent w = (Ok res, w') ->
  exists (k1 k2 : nat) (d1 d2 : list DeleteResult) (w1 : World),
    deletedFiles res = d1 ++ d2
    /\ fileId <$> d1
       = doc_id <$> filter (fun d : ObjectId * FileDoc =>
                              d.1 ∉ deleteRejected w)
                           (take k1 (phase1Candidates w))
    /\ fileId <$> d2
       = doc_id <$> filter (fun d : ObjectId * FileDoc =>
                              d.1 ∉ deleteRejected w)
                           (take k2 (phase2Batch w1))
    /\ (k2 ≠ 0%nat -> k1 = length (phase1Candidates w))
    /\ (forall j, (j < length (d1 ++ d2))%nat ->
          (inject_Z (sumZ (deletedSize <$> take j (d1 ++ d2)))
           < bytesToFree limits targetPercent (initialStats res))%Q)
    /\ (forall id, files w1 !! id
                   = if decide (id ∈ fileId <$> d1) then None
                     else files w !! id)
    /\ (forall id, files w' !! id
                   = if decide (id ∈ fileId <$> d2) then None
                     else files w1 !! id)
    /\ (forall (d : ObjectId * FileDoc) ref,
          d ∈ take k1 (phase1Candidates w) ++ take k2 (phase2Batch w1) ->
          ref ∈ blobRefs d.2 -> bucket w' !! ref_id ref = None)
    /\ ((bytesToFree limits targetPercent (initialStats res)
         <= inject_Z (sumZ (deletedSize <$> d1 ++ d2)))%Q
        \/ (k1 = length (phase1Candidates w)
            /\ k2 = length (phase2Batch w1))
        \/ (bytesToFree limits targetPercent (initialStats res) <= 0)%Q).
Proof.
  unfold performAutoCleanup. rewrite try_catch_rethrow. unfold bind at 1.
  destruct (getStorageStats limits w) as [[st|e] w0] eqn:Hst; [|done].
  apply getStorageStats_inv in Hst as [-> [[Hav Hst]|[_ ?]]]; [|done].
  clear Hst. unfold bytesToFree.
  set (toFree := (inject_Z (totalSize st)
                  - inject_Z (MAX_STORAGE limits)
                    * default (TARGET_AFTER_CLEANUP limits) targetPercent)%Q).
  destruct (Qle_bool toFree 0) eqn:Hearly.
  { intros [= <- <-]. exists 0%nat, 0%nat, [], [], w.
    cbn [deletedFiles initialStats]. rewrite !take_0, !fmap_nil.
    split; [done|]. split; [done|]. split; [done|]. split; [done|].
    split; [intros j Hj; simpl in Hj; lia|].
    split; [intros id; rewrite decide_False; [done|apply not_elem_of_nil]|].
    split; [intros id; rewrite decide_False; [done|apply not_elem_of_nil]|].
    split; [intros d ref Hd; by apply elem_of_nil in Hd|].
    right. right. by apply Qle_bool_iff. }
  rewrite (bind_Ok _ _ _ _ _ (getCleanupCandidates_run w)).
  destruct (cleanupLoop_spec toFree (phase1Candidates w) (0, []) w)
    as (k1 & d1 & w1 & Hrun1 & Hids1 & Hbelow1 & Hstop1 & Hav1 & Hnow1
        & Hrej1 & Htz1 & Hf1 & Hnone1 & Hgone1).
  rewrite (bind_Ok _ _ _ _ _ Hrun1). cbn [fst snd] in *.
  rewrite app_nil_l in *. rewrite Z.add_0_l in *.
  destruct (Qle_bool toFree (inject_Z (sumZ (deletedSize <$> d1)))) eqn:Hmet;
    cbn [negb].
  - unfold bind at 1, ret at 1.
    rewrite (bind_Ok _ _ _ _ _
               (getStorageStats_available limits w1 ltac:(congruence))).
    intros [= <- <-]. exists k1, 0%nat, d1, [], w1.
    cbn [deletedFiles initialStats].
    rewrite !app_nil_r, take_0, fmap_nil.
    split; [done|]. split; [done|]. split; [done|]. split; [done|].
    split; [done|]. split; [done|].
    split; [intros id; rewrite decide_False; [done|apply not_elem_of_nil]|].
    split; [intros d ref Hd; by apply (Hgone1 Hav d ref)|].
    left. by apply Qle_bool_iff.
  - destruct (cleanupLoop_spec toFree (phase2Batch w1)
                (sumZ (deletedSize <$> d1), d1) w1)
      as (k2 & d2 & w2 & Hrun2 & Hids2 & Hbelow2 & Hstop2 & Hav2 & Hnow2
          & Hrej2 & Htz2 & Hf2 & Hnone2 & Hgone2).
    cbn [fst snd] in *.
    assert (forall (k : Z * list DeleteResult -> M CleanupResult),
              bind (oldFiles <~
                      (found <~ File_find
                                  (fun f => bool_decide (status f = completed)) ;;
                       ret (cursor_limit 100 (sort_createdAt found))) ;;
                    cleanupLoop toFree oldFiles
                      (sumZ (deletedSize <$> d1), d1)) k w1
              = k (sumZ (deletedSize <$> d1) + sumZ (deletedSize <$> d2),
                   d1 ++ d2) w2) as ->.
    { intros k. apply bind_Ok. rewrite <- Hrun2. reflexivity. }
    rewrite (bind_Ok _ _ _ _ _
               (getStorageStats_available limits w2 ltac:(congruence))).
    intros [= <- <-]. exists k1, k2, d1, d2, w1.
    cbn [deletedFiles initialStats fst snd].
    rewrite Hrej1 in Hids2.
    split; [done|]. split; [done|]. split; [done|].
    split; [|split; [|split; [done|split; [done|split]]]].
    + intros _. destruct Hstop1 as [?|Hstop1]; [done|].
      apply Qle_bool_iff in Hstop1. congruence.
    + intros j Hj. destruct (decide (j < length d1)%nat) as [Hlt|Hge].
      * rewrite take_app_le by lia. by apply Hbelow1.
      * rewrite take_app_ge by lia. rewrite fmap_app, sumZ_app.
        apply Hbelow2. rewrite length_app in Hj. lia.
    + intros d ref [Hd|Hd]%elem_of_app Href.
      * by apply Hnone2, (Hgone1 Hav d ref).
      * apply (Hgone2 ltac:(congruence) d ref Hd Href).
    + rewrite fmap_app, sumZ_app.
      destruct Hstop2 as [->|Hstop2]; [|by left].
      destruct Hstop1 as [->|Hstop1]; [right; by left|].
      apply Qle_bool_iff in Hstop1. congruence.
Qed.



Lemma elem_of_phase1Candidates w (d : ObjectId * FileDoc) :
  d ∈ phase1Candidates w
  <-> files w !! d.1 = Some d.2
      /\ isCleanupCandidate (thirtyDaysAgo (localTZA w) (now w)) d.2 = true.
Proof.
  unfold phase1Candidates. rewrite elem_of_sort_createdAt, list_elem_of_filter.
  destruct d as [id f]. rewrite elem_of_map_to_list. simpl. tauto.
Qed.

Lemma elem_of_phase2Batch w (d : ObjectId * FileDoc) :
  d ∈ phase2Batch w -> files w !! d.1 = Some d.2 /\ status d.2 = completed.
Proof.
  unfold phase2Batch. intros H%elem_of_cursor_limit.
  apply elem_of_sort_createdAt, list_elem_of_filter in H as [Hst Hin].
  destruct d as [id f]. apply elem_of_map_to_list in Hin.
  by apply bool_decide_eq_true in Hst.
Qed.






Lemma elem_of_filter_take {A} (P : A -> Prop) `{!forall x, Decision (P x)}
    (l : list A) k x :
  x ∈ filter P (take k l) -> x ∈ l.
Proof.
  intros [_ Hx]%list_elem_of_filter.
  eapply elem_of_sublist; [exact Hx|apply sublist_take].
Qed.


(** ** Bulk deletion *)

Lemma File_findById_wellformed id w :
  File_findById (WellFormedId id) w
  = (Ok ((fun f => (id, f)) <$> files w !! id), w).
Proof. done. Qed.

Lemma File_findById_malformed raw w :
  File_findById (MalformedId raw) w = (Throw (CastError raw), w).
Proof. done. Qed.

(** One turn of the loop of [deleteMultipleFiles]: a record that is found
    is deleted and reported, or reported as an error when the collection
    rejects its deletion; an id without a record or one that cannot be
    cast is reported as an error; and the loop goes on in every case. *)
Lemma bulkDeleteOne_spec arg acc w :
  exists (dh : list DeleteResult) (eh : list IdError) (w1 : World),
    bulkDeleteOne arg acc w
    = (Ok {| ba_deleted := ba_deleted acc ++ dh;
             ba_errors := ba_errors acc ++ eh;
             ba_freed := ba_freed acc + sumZ (deletedSize <$> dh) |}, w1)
    /\ gridfsAvailable w1 = gridfsAvailable w
    /\ now w1 = now w
    /\ deleteRejected w1 = deleteRejected w
    /\ ((exists id doc r,
           arg = WellFormedId id /\ files w !! id = Some doc
           /\ (id ∉ deleteRejected w)
           /\ dh = [r] /\ eh = [] /\ fileId r = id
           /\ files w1 = delete id (files w)
           /\ (forall k, bucket w1 !! k
                         = if decide (gridfsAvailable w = true
                                      /\ k ∈ ref_id <$> blobRefs doc)
                           then None else bucket w !! k))
        \/ (exists id doc,
              arg = WellFormedId id /\ files w !! id = Some doc
              /\ id ∈ deleteRejected w
              /\ dh = []
              /\ eh = [{| ie_fileId := WellFormedId id;
                          ie_error := message (RecordDeleteFailed id) |}]
              /\ files w1 = files w
              /\ (forall k, bucket w1 !! k
                            = if decide (gridfsAvailable w = true
                                         /\ k ∈ ref_id <$> blobRefs doc)
                              then None else bucket w !! k))
        \/ (exists id,
              arg = WellFormedId id /\ files w !! id = None
              /\ dh = []
              /\ eh = [{| ie_fileId := WellFormedId id;
                          ie_error := "File not found" |}]
              /\ w1 = w)
        \/ (exists raw,
              arg = MalformedId raw
              /\ dh = []
              /\ eh = [{| ie_fileId := MalformedId raw;
                          ie_error := message (CastError raw) |}]
              /\ w1 = w)).
Proof.
  unfold bulkDeleteOne. destruct arg as [id|raw].
  - destruct (files w !! id) as [doc|] eqn:Hdoc.
    + destruct (deleteFileCompletely_effect (id, doc) w)
        as (res & w1 & Hdel & Hav & Hnow & Hrej & _ & Hb & Hok & Hfail).
      destruct (decide (id ∈ deleteRejected w)) as [Hin|Hnin].
      * destruct (Hfail Hin) as [-> Hfiles].
        exists [], [{| ie_fileId := WellFormedId id;
                       ie_error := message (RecordDeleteFailed id) |}], w1.
        split; [|split; [done|split; [done|split; [done|]]]].
        -- erewrite try_catch_Throw;
             [|rewrite (bind_Ok _ _ _ _ _ (File_findById_wellformed id w));
               rewrite Hdoc; cbn [fmap option_fmap option_map];
               apply bind_Throw; exact Hdel].
           unfold ret, sumZ. simpl. by rewrite app_nil_r, Z.add_0_r.
        -- right. left. by exists id, doc.
      * destruct (Hok Hnin) as (r & -> & Hid & Hfiles).
        exists [r], [], w1. split; [|split; [done|split; [done|split; [done|]]]].
        -- apply try_catch_Ok.
           rewrite (bind_Ok _ _ _ _ _ (File_findById_wellformed id w)).
           rewrite Hdoc. simpl. rewrite (bind_Ok _ _ _ _ _ Hdel).
           unfold ret, sumZ. simpl. by rewrite app_nil_r, Z.add_0_r.
        -- left. by exists id, doc, r.
    + exists [], [{| ie_fileId := WellFormedId id;
                     ie_error := "File not found" |}], w.
      split; [|split; [done|split; [done|split; [done|]]]].
      * apply try_catch_Ok.
        rewrite (bind_Ok _ _ _ _ _ (File_findById_wellformed id w)).
        rewrite Hdoc. simpl. unfold ret, sumZ. simpl.
        by rewrite app_nil_r, Z.add_0_r.
      * right. right. left. by exists id.
  - exists [], [{| ie_fileId := MalformedId raw;
                   ie_error := message (CastError raw) |}], w.
    split; [|split; [done|split; [done|split; [done|]]]].
    + rewrite (try_catch_Throw _ _ _ _ _
                 (bind_Throw _ _ _ _ _ (File_findById_malformed raw w))).
      unfold ret, sumZ. simpl. by rewrite app_nil_r, Z.add_0_r.
    + right. right. right. by exists raw.
Qed.

(** What the loop of [deleteMultipleFiles] does with a list of ids, stated
    against the world it starts from. *)
Lemma bulkDeleteLoop_spec fileIds acc w :
  exists (dnew : list DeleteResult) (enew : list IdError) (w' : World),
    bulkDeleteLoop fileIds acc w
    = (Ok {| ba_deleted := ba_deleted acc ++ dnew;
             ba_errors := ba_errors acc ++ enew;
             ba_freed := ba_freed acc + sumZ (deletedSize <$> dnew) |}, w')
    /\ (length dnew + length enew = length fileIds)%nat
    /\ gridfsAvailable w' = gridfsAvailable w
    /\ now w' = now w
    /\ deleteRejected w' = deleteRejected w
    /\ (forall id, files w' !! id
                   = if decide (WellFormedId id ∈ fileIds
                                /\ id ∉ deleteRejected w) then None
                     else files w !! id)
    /\ (forall k, bucket w !! k = None -> bucket w' !! k = None)
    /\ (forall id, WellFormedId id ∈ fileIds -> files w !! id = None ->
          {| ie_fileId := WellFormedId id; ie_error := "File not found" |}
          ∈ enew)
    /\ (forall raw, MalformedId raw ∈ fileIds ->
          {| ie_fileId := MalformedId raw;
             ie_error := message (CastError raw) |} ∈ enew)
    /\ (forall id doc, WellFormedId id ∈ fileIds -> files w !! id = Some doc ->
          (id ∉ deleteRejected w -> exists r, r ∈ dnew /\ fileId r = id)
          /\ (id ∈ deleteRejected w ->
              {| ie_fileId := WellFormedId id;
                 ie_error := message (RecordDeleteFailed id) |} ∈ enew)
          /\ (gridfsAvailable w = true ->
              forall ref, ref ∈ blobRefs doc -> bucket w' !! ref_id ref = None))
    /\ (forall r, r ∈ dnew ->
          WellFormedId (fileId r) ∈ fileIds /\ is_Some (files w !! fileId r)
          /\ fileId r ∉ deleteRejected w).
Proof.
  revert acc w. induction fileIds as [|arg rest IH]; intros acc w.
  - exists [], [], w. cbn [bulkDeleteLoop]. unfold ret, sumZ.
    rewrite !app_nil_r. simpl foldr. rewrite Z.add_0_r. destruct acc.
    split; [done|]. split; [done|]. split; [done|]. split; [done|].
    split; [done|]. split; [|split; [done|]].
    { intros id. rewrite decide_False; [done|].
      intros [H _]. by apply not_elem_of_nil in H. }
    repeat split; intros; exfalso; eapply not_elem_of_nil; eauto.
  - destruct (bulkDeleteOne_spec arg acc w)
      as (dh & eh & w1 & Hstep & Hav1 & Hnow1 & Hrej1 & Hcase).
    destruct (IH {| ba_deleted := ba_deleted acc ++ dh;
                    ba_errors := ba_errors acc ++ eh;
                    ba_freed := ba_freed acc + sumZ (deletedSize <$> dh) |} w1)
      as (dt & et & w' & Hrun & Hlen & Hav & Hnow & Hrej & Hfiles & Hbucket
          & Habsent & Hbad & Hpresent & Hdeleted).
    cbn [ba_deleted ba_errors ba_freed] in Hrun.
    rewrite Hrej1 in Hfiles, Hpresent, Hdeleted.
    exists (dh ++ dt), (eh ++ et), w'.
    split.
    { cbn [bulkDeleteLoop]. rewrite (bind_Ok _ _ _ _ _ Hstep), Hrun.
      by rewrite fmap_app, sumZ_app, !app_assoc, Z.add_assoc. }
    split; [|split; [congruence|split; [congruence|split; [congruence|]]]].
    { rewrite !length_app. simpl.
      destruct Hcase as [(id & doc & r & _ & _ & _ & -> & -> & _)
                        |[(id & doc & _ & _ & _ & -> & -> & _)
                         |[(id & _ & _ & -> & -> & _)
                          |(raw & _ & -> & -> & _)]]]; simpl; lia. }
    destruct Hcase
      as [(id & doc & r & -> & Hdoc & Hacc & -> & -> & Hid & Hf1 & Hb1)
         |[(id & doc & -> & Hdoc & Hin & -> & -> & Hf1 & Hb1)
          |[(id & -> & Hdoc & -> & -> & ->)
           |(raw & -> & -> & -> & ->)]]].
    + (* a record that was found and deleted *)
      assert (forall k, bucket w !! k = None -> bucket w1 !! k = None) as Hb1'.
      { intros k Hk. rewrite Hb1, Hk. by destruct (decide _). }
      split; [|split; [|split; [|split; [|split]]]].
      * intros k. rewrite Hfiles, Hf1.
        destruct (decide (k = id)) as [->|Hne].
        -- rewrite lookup_delete_eq.
           rewrite (decide_True (P := WellFormedId id ∈ WellFormedId id :: _
                                      /\ _)) by (split; [left|done]).
           by destruct (decide _).
        -- rewrite lookup_delete_ne by done. apply decide_ext.
           rewrite elem_of_cons. split; [intros [? ?]; split; [by right|done]|].
           intros [[[= ?]|?] ?]; done.
      * intros k Hk. by apply Hbucket, Hb1'.
      * intros k [[= ->]|Hk]%elem_of_cons Hnone; [congruence|].
        apply elem_of_app. right. apply Habsent; [done|].
        rewrite Hf1. destruct (decide (k = id)) as [->|Hne];
          [apply lookup_delete_eq|by rewrite lookup_delete_ne].
      * intros raw [[=]|Hraw]%elem_of_cons.
        apply elem_of_app. right. by apply Hbad.
      * intros k doc' Hk Hdoc'.
        destruct (decide (k = id)) as [->|Hne].
        -- split; [intros _; exists r; split; [left|done]|].
           split; [done|].
           intros Havail ref Href. apply Hbucket. rewrite Hb1.
           rewrite decide_True; [done|]. split; [done|].
           rewrite Hdoc in Hdoc'. inversion Hdoc'; subst doc'.
           by apply list_elem_of_fmap_2.
        -- apply elem_of_cons in Hk as [[= ?]|Hk]; [done|].
           destruct (Hpresent k doc' Hk) as (Hok' & Hrej' & Hblobs).
           { rewrite Hf1. by rewrite lookup_delete_ne. }
           split; [|split].
           ++ intros Hnk. destruct (Hok' Hnk) as (r' & Hr' & Hidr').
              exists r'. split; [by right|done].
           ++ intros Hink. by apply Hrej'.
           ++ intros Havail. apply Hblobs. congruence.
      * intros r' [->|Hr']%elem_of_cons.
        -- rewrite Hid. split; [left|split; [by eexists|done]].
        -- destruct (Hdeleted r' Hr') as (Hin' & [d Hd] & Hnr).
           split; [by right|]. split; [|done].
           rewrite Hf1 in Hd. apply lookup_delete_Some in Hd as [_ Hd].
           by eexists.
    + (* a record whose deletion the collection rejects *)
      assert (forall k, bucket w !! k = None -> bucket w1 !! k = None) as Hb1'.
      { intros k Hk. rewrite Hb1, Hk. by destruct (decide _). }
      rewrite Hf1 in Hfiles, Hpresent, Hdeleted, Habsent.
      split; [|split; [|split; [|split; [|split]]]].
      * intros k. rewrite Hfiles. apply decide_ext.
        rewrite elem_of_cons. split; [intros [? ?]; split; [by right|done]|].
        intros [[[= ->]|?] ?]; done.
      * intros k Hk. by apply Hbucket, Hb1'.
      * intros k [[= ->]|Hk]%elem_of_cons Hnone; [congruence|].
        right. by apply Habsent.
      * intros raw [[=]|Hraw]%elem_of_cons. right. by apply Hbad.
      * intros k doc' Hk Hdoc'.
        destruct (decide (k = id)) as [->|Hne].
        -- split; [done|]. split; [intros _; left|].
           intros Havail ref Href. apply Hbucket. rewrite Hb1.
           rewrite decide_True; [done|]. split; [done|].
           rewrite Hdoc in Hdoc'. inversion Hdoc'; subst doc'.
           by apply list_elem_of_fmap_2.
        -- apply elem_of_cons in Hk as [[= ?]|Hk]; [done|].
           destruct (Hpresent k doc' Hk Hdoc') as (Hok' & Hrej' & Hblobs).
           split; [done|]. split.
           ++ intros Hink. right. by apply Hrej'.
           ++ intros Havail. apply Hblobs. congruence.
      * intros r' Hr'. destruct (Hdeleted r' Hr') as (Hin' & Hsome & Hnr).
        split; [by right|done].
    + (* an id without a record *)
      split; [|split; [|split; [|split; [|split]]]].
      * intros k. rewrite Hfiles.
        destruct (decide (k = id)) as [->|Hne].
        -- rewrite Hdoc. by repeat destruct (decide _).
        -- apply decide_ext. rewrite elem_of_cons.
           split; [intros [? ?]; split; [by right|done]|].
           intros [[[= ?]|?] ?]; done.
      * done.
      * intros k [[= ->]|Hk]%elem_of_cons Hnone; [left|].
        right. by apply Habsent.
      * intros raw [[=]|Hraw]%elem_of_cons. right. by apply Hbad.
      * intros k doc' [[= ->]|Hk]%elem_of_cons Hdoc'; [congruence|].
        destruct (Hpresent k doc' Hk Hdoc') as (Hok' & Hrej' & Hblobs).
        split; [done|]. split; [|done].
        intros Hink. right. by apply Hrej'.
      * intros r' Hr'. destruct (Hdeleted r' Hr') as (Hin' & Hsome & Hnr).
        split; [by right|done].
    + (* an id that cannot be cast *)
      split; [|split; [|split; [|split; [|split]]]].
      * intros k. rewrite Hfiles. apply decide_ext.
        rewrite elem_of_cons. split; [intros [? ?]; split; [by right|done]|].
        intros [[[=]|?] ?]; done.
      * done.
      * intros k [[=]|Hk]%elem_of_cons Hnone. right. by apply Habsent.
      * intros raw' [[= ->]|Hraw]%elem_of_cons; [left|]. right. by apply Hbad.
      * intros k doc' [[=]|Hk]%elem_of_cons Hdoc'.
        destruct (Hpresent k doc' Hk Hdoc') as (Hok' & Hrej' & Hblobs).
        split; [done|]. split; [|done].
        intros Hink. right. by apply Hrej'.
      * intros r' Hr'. destruct (Hdeleted r' Hr') as (Hin' & Hsome & Hnr).
        split; [by right|done].
Qed.

(** C7.  For a non-empty list of ids, on a store whose usage can be
    computed, [deleteMultipleFiles] answers 200 whatever the individual
    ids are: every id is accounted for, as a deletion or as an error; an
    id without a record is reported with "File not found" and an id that
    cannot be cast with the message of the cast failure; a record that
    exists and whose deletion the collection accepts is deleted together
    with its blobs and reported among the deletions; a record whose
    deletion the collection rejects is reported among the errors with the
    message of that failure, and it stays while its blobs are gone; only
    records that were deleted are reported among the deletions; and
    [totalFreedSize] is the sum of the bytes freed by the reported
    deletions.  On a bucket that does not answer, the loop runs all the
    same and removes the records the collection lets go, but the closing
    [getStorageStats] throws and the answer is 500, without a report. *)
Theorem deleteMultipleFiles_partial_success
    (limits : StorageLimits) (fileIds : list IdArg) (w : World) :
  fileIds ≠ [] ->
  (gridfsAvailable w = true ->
   exists body w',
     deleteMultipleFiles limits (Some fileIds) w = (Ok (Status200 body), w')
     /\ (length (bd_deletedFiles body) + length (bd_errors body)
         = length fileIds)%nat
     /\ bd_message body = length (bd_deletedFiles body)
     /\ totalFreedSize body = sumZ (deletedSize <$> bd_deletedFiles body)
     /\ (forall id, WellFormedId id ∈ fileIds -> files w !! id = None ->
           {| ie_fileId := WellFormedId id; ie_error := "File not found" |}
           ∈ bd_errors body)
     /\ (forall raw, MalformedId raw ∈ fileIds ->
           {| ie_fileId := MalformedId raw;
              ie_error := message (CastError raw) |} ∈ bd_errors body)
     /\ (forall id doc,
           WellFormedId id ∈ fileIds -> files w !! id = Some doc ->
           id ∉ deleteRejected w ->
           (exists r, r ∈ bd_deletedFiles body /\ fileId r = id)
           /\ files w' !! id = None
           /\ (forall ref, ref ∈ blobRefs doc ->
                           bucket w' !! ref_id ref = None))
     /\ (forall id doc,
           WellFormedId id ∈ fileIds -> files w !! id = Some doc ->
           id ∈ deleteRejected w ->
           {| ie_fileId := WellFormedId id;
              ie_error := message (RecordDeleteFailed id) |} ∈ bd_errors body
           /\ files w' !! id = Some doc
           /\ (forall ref, ref ∈ blobRefs doc ->
                           bucket w' !! ref_id ref = None))
     /\ (forall r, r ∈ bd_deletedFiles body ->
           WellFormedId (fileId r) ∈ fileIds
           /\ is_Some (files w !! fileId r)
           /\ files w' !! fileId r = None)
     /\ (forall id, WellFormedId id ∉ fileIds ->
                    files w' !! id = files w !! id))
  /\ (gridfsAvailable w = false ->
      exists w',
        deleteMultipleFiles limits (Some fileIds) w
        = (Ok (Status500 "Error deleting files" (message StoreUnavailable)),
           w')
        /\ (forall id, files w' !! id
                       = if decide (WellFormedId id ∈ fileIds
                                    /\ id ∉ deleteRejected w) then None
                         else files w !! id)).
Proof.
  intros Hne.
  destruct (bulkDeleteLoop_spec fileIds
              {| ba_deleted := []; ba_errors := []; ba_freed := 0 |} w)
    as (dnew & enew & w' & Hrun & Hlen & Hav' & Hnow & Hrej & Hfiles & Hbucket
        & Habsent & Hbad & Hpresent & Hdeleted).
  cbn [ba_deleted ba_errors ba_freed] in Hrun.
  rewrite !app_nil_l, Z.add_0_l in Hrun.
  split; intros Hav.
  2: { exists w'. split; [|done].
       unfold deleteMultipleFiles.
       destruct fileIds as [|arg rest]; [done|].
       erewrite try_catch_Throw; [reflexivity|].
       rewrite (bind_Ok _ _ _ _ _ Hrun).
       apply bind_Throw. apply getStorageStats_unavailable. congruence. }
  eexists _, w'. split.
  { unfold deleteMultipleFiles. apply try_catch_Ok.
    destruct fileIds as [|arg rest]; [done|].
    rewrite (bind_Ok _ _ _ _ _ Hrun).
    rewrite (bind_Ok _ _ _ _ _
               (getStorageStats_available limits w' ltac:(congruence))).
    reflexivity. }
  cbn [bd_deletedFiles bd_errors bd_message totalFreedSize ba_deleted
       ba_errors ba_freed].
  split; [done|]. split; [done|]. split; [done|]. split; [done|].
  split; [done|]. split; [|split; [|split]].
  - intros id doc Hid Hdoc Hacc.
    destruct (Hpresent id doc Hid Hdoc) as (Hok & _ & Hblobs).
    split; [by apply Hok|]. split; [|by apply Hblobs].
    rewrite Hfiles. by rewrite decide_True.
  - intros id doc Hid Hdoc Hin.
    destruct (Hpresent id doc Hid Hdoc) as (_ & Hfail & Hblobs).
    split; [by apply Hfail|]. split; [|by apply Hblobs].
    rewrite Hfiles. rewrite decide_False; [done|]. by intros [_ ?].
  - intros r Hr. destruct (Hdeleted r Hr) as (Hin & Hsome & Hacc).
    split; [done|]. split; [done|].
    rewrite Hfiles. by rewrite decide_True.
  - intros id Hnot. rewrite Hfiles. rewrite decide_False; [done|].
    by intros [? _].
Qed.

(** ** Oldest files *)

Lemma getOldestFiles_run limit w :
  getOldestFiles limit w
  = (Ok (cursor_limit (default 50 limit)
           (sort_createdAt (map_to_list (files w)))), w).
Proof.
  unfold getOldestFiles. rewrite try_catch_rethrow.
  by rewrite (bind_Ok _ _ _ _ _ (File_find_all w)).
Qed.

(** C10.  Without a numeric [limit] parameter (the query parameter is
    missing, or [parseInt] yields [NaN] on it) the handler asks for 50
    files, which is also the default of [getOldestFiles] itself: both
    return the first 50 documents of the collection in ascending
    [createdAt] order, that is at most 50 records, none of them created
    after a record that is left out. *)
Theorem oldest_files_default_limit (query_limit : option string) (w : World) :
  query_limit = None \/ parseInt query_limit = None ->
  let oldest := take 50 (sort_createdAt (map_to_list (files w))) in
  getOldestFilesList query_limit w
  = (Ok (Status200 {| ofb_count := length oldest;
                      ofb_files := withSize <$> oldest |}), w)
  /\ getOldestFiles None w = (Ok oldest, w)
  /\ (length oldest <= 50)%nat
  /\ (forall d : ObjectId * FileDoc,
        d ∈ oldest -> files w !! d.1 = Some d.2)
  /\ (forall d d' : ObjectId * FileDoc,
        d ∈ oldest -> files w !! d'.1 = Some d'.2 -> d' ∉ oldest ->
        createdAt d.2 <= createdAt d'.2).
Proof.
  intros Hq oldest.
  assert (parseInt query_limit = None) as Hnan by (by destruct Hq as [->|?]).
  split; [|split; [|split; [|split]]].
  - unfold getOldestFilesList. apply try_catch_Ok. rewrite Hnan.
    rewrite (bind_Ok _ _ _ _ _ (getOldestFiles_run _ w)).
    cbn [number_or default]. unfold cursor_limit. simpl.
    unfold ret. by rewrite length_fmap.
  - by rewrite getOldestFiles_run.
  - unfold oldest. rewrite length_take. lia.
  - intros [id f] Hd. apply elem_of_map_to_list.
    apply elem_of_sort_createdAt.
    eapply elem_of_sublist; [exact Hd|apply sublist_take].
  - intros d [id' f'] Hd Hd' Hout.
    assert ((id', f') ∈ drop 50 (sort_createdAt (map_to_list (files w))))
      as Hrest.
    { apply elem_of_map_to_list, elem_of_sort_createdAt in Hd'.
      rewrite <- (take_drop 50) in Hd'.
      apply elem_of_app in Hd' as [?|?]; done. }
    apply (StronglySorted_app_1_elem_of createdAt_le oldest
             (drop 50 (sort_createdAt (map_to_list (files w)))) d (id', f'));
      [|done|done].
    unfold oldest. rewrite take_drop.
    apply StronglySorted_merge_sort; apply _.
Qed.

(** ** Where the code departs from the specification *)

Lemma Qle_sub_0 (a b : Q) : (a - b <= 0)%Q <-> (a <= b)%Q.
Proof.
  split; intros H.
  - apply (Qplus_le_l _ _ (- b)). rewrite Qplus_opp_r. exact H.
  - apply (Qplus_le_l _ _ (- b)) in H. rewrite Qplus_opp_r in H. exact H.
Qed.

(** Whenever the usage is at or below the target, [performAutoCleanup]
    returns at once: the world is untouched, [deletedFiles] is empty, and the
    object it returns has no [freedSize] and no [freedSizeMB]. *)
Lemma performAutoCleanup_below_target
    (limits : StorageLimits) (target : Q) (w : World) (st : Stats) :
  getStorageStats limits w = (Ok st, w) ->
  (inject_Z (totalSize st) <= inject_Z (MAX_STORAGE limits) * target)%Q ->
  performAutoCleanup limits (Some target) w
  = (Ok {| cr_success := true; cr_message := AlreadyBelowTarget;
           initialStats := st; finalStats := st; deletedFiles := [];
           freedSize := None; freedSizeMB := None |}, w).
Proof.
  intros Hst Hle. unfold performAutoCleanup. rewrite try_catch_rethrow.
  rewrite (bind_Ok _ _ _ _ _ Hst). cbv beta zeta. cbn [default].
  destruct (Qle_bool _ 0) eqn:E; [done|].
  apply Qle_bool_false in E. destruct E. by apply Qle_sub_0.
Qed.

(** What [checkStorageAvailability] decides once the usage is known: the
    order of the checks is the one of the specification, and the two threshold
    checks read the percentage as it is shown, rounded to two decimals. *)
Lemma checkStorageAvailability_decision_order
    (limits : StorageLimits) (fileSize : Z) (w : World) (st : Stats) :
  getStorageStats limits w = (Ok st, w) ->
  let shown := parseFloat (usagePercent st) in
  let projected :=
    (inject_Z (totalSize st + fileSize) / inject_Z (MAX_STORAGE limits)
     * 100)%Q in
  exists a,
    checkStorageAvailability limits fileSize w = (Ok a, w)
    /\ avail_stats a = Some st
    /\ avail_error a = None
    /\ ((CRITICAL_THRESHOLD limits * 100 <= shown)%Q ->
        canUpload a = false /\ reason a = Some REASON_CRITICAL)
    /\ (~ (CRITICAL_THRESHOLD limits * 100 <= shown)%Q ->
        ~ (projected <= 100)%Q ->
        canUpload a = false /\ reason a = Some REASON_EXCEEDS)
    /\ (~ (CRITICAL_THRESHOLD limits * 100 <= shown)%Q ->
        (projected <= 100)%Q ->
        (CLEANUP_THRESHOLD limits * 100 <= shown)%Q ->
        canUpload a = true /\ shouldCleanup a = Some true)
    /\ (~ (CRITICAL_THRESHOLD limits * 100 <= shown)%Q ->
        (projected <= 100)%Q ->
        ~ (CLEANUP_THRESHOLD limits * 100 <= shown)%Q ->
        canUpload a = true /\ shouldCleanup a = Some false
        /\ reason a = None).
Proof.
  intros Hst shown projected.
  unfold checkStorageAvailability.
  rewrite (try_catch_Ok _ _ w
             (if Qle_bool (CRITICAL_THRESHOLD limits * 100) shown
              then {| canUpload := false; shouldCleanup := None;
                      reason := Some REASON_CRITICAL;
                      avail_stats := Some st; avail_error := None |}
              else if negb (Qle_bool projected 100)
              then {| canUpload := false; shouldCleanup := None;
                      reason := Some REASON_EXCEEDS;
                      avail_stats := Some st; avail_error := None |}
              else if Qle_bool (CLEANUP_THRESHOLD limits * 100) shown
              then {| canUpload := true; shouldCleanup := Some true;
                      reason := Some REASON_HIGH;
                      avail_stats := Some st; avail_error := None |}
              else {| canUpload := true; shouldCleanup := Some false;
                      reason := None;
                      avail_stats := Some st; avail_error := None |}) w).
  - eexists. split; [reflexivity|].
    destruct (Qle_bool (CRITICAL_THRESHOLD limits * 100) shown) eqn:Hc;
      [|destruct (Qle_bool projected 100) eqn:Hp;
        [destruct (Qle_bool (CLEANUP_THRESHOLD limits * 100) shown) eqn:Hh|]];
      cbn [negb canUpload shouldCleanup reason avail_stats avail_error];
      repeat match goal with
             | H : Qle_bool _ _ = true |- _ => apply Qle_bool_iff in H
             | H : Qle_bool _ _ = false |- _ => apply Qle_bool_false in H
             end;
      repeat split; intros; done.
  - rewrite (bind_Ok _ _ _ _ _ Hst). fold shown. fold projected.
    by repeat destruct (Qle_bool _ _).
Qed.

(** The cases the specification works out on a capacity of 1000 bytes. *)
Example checkStorageAvailability_960_of_1000 :
  exists a,
    (checkStorageAvailability limits1000 10
       (worldOf true [(1%N, 960)] [] 0)).1 = Ok a
    /\ canUpload a = false /\ reason a = Some REASON_CRITICAL.
Proof. eexists. split; [vm_compute; reflexivity|done]. Qed.

Example checkStorageAvailability_500_plus_600 :
  exists a,
    (checkStorageAvailability limits1000 600
       (worldOf true [(1%N, 500)] [] 0)).1 = Ok a
    /\ canUpload a = false /\ reason a = Some REASON_EXCEEDS.
Proof. eexists. split; [vm_compute; reflexivity|done]. Qed.

Example checkStorageAvailability_900_plus_50 :
  exists a,
    (checkStorageAvailability limits1000 50
       (worldOf true [(1%N, 900)] [] 0)).1 = Ok a
    /\ canUpload a = true /\ shouldCleanup a = Some true.
Proof. eexists. split; [vm_compute; reflexivity|done]. Qed.

(** C2 at a world below the target: 100 of 1000 bytes are in use and the
    target is 70%.  Nothing is deleted and the world is untouched, but the
    object returned by the early exit carries no [freedSize] (it is
    [undefined], not [0]) and no [freedSizeMB], which the regular exit
    provides and the command line script prints. *)
Theorem performAutoCleanup_early_return_omits_freedSize :
  exists res,
    performAutoCleanup limits1000 (Some (70 # 100)%Q) world_below_target
    = (Ok res, world_below_target)
    /\ (inject_Z (totalSize (initialStats res))
        <= inject_Z (MAX_STORAGE limits1000) * (70 # 100))%Q
    /\ deletedFiles res = []
    /\ finalStats res = initialStats res
    /\ freedSize res = None
    /\ freedSizeMB res = None.
Proof.
  eexists. split.
  - apply performAutoCleanup_below_target.
    + by apply getStorageStats_available.
    + vm_compute. discriminate.
  - repeat split. vm_compute. discriminate.
Qed.

(** C3 at a world just below the critical threshold under the shipped
    limits: 510027366 of 536870912 bytes are in use, that is 94.99999993%,
    and one more byte is to be uploaded.  The usage fraction is below the
    critical threshold and at or above the cleanup threshold, the projected
    size fits, and the snapshot itself is classified [high]; yet the upload
    is refused as critical, because the comparison is made on the
    percentage rounded to two decimals, "95.00". *)
Theorem checkStorageAvailability_rounds_up_to_critical :
  exists a st,
    checkStorageAvailability STORAGE_LIMITS 1 world_below_critical
    = (Ok a, world_below_critical)
    /\ avail_stats a = Some st
    /\ (usageFraction STORAGE_LIMITS st < CRITICAL_THRESHOLD STORAGE_LIMITS)%Q
    /\ (CLEANUP_THRESHOLD STORAGE_LIMITS <= usageFraction STORAGE_LIMITS st)%Q
    /\ totalSize st + 1 <= MAX_STORAGE STORAGE_LIMITS
    /\ stats_status st = high
    /\ usagePercent st = 9500
    /\ canUpload a = false
    /\ reason a = Some REASON_CRITICAL.
Proof.
  eexists _, _. split; [vm_compute; reflexivity|].
  cbn [avail_stats canUpload reason]. split; [reflexivity|].
  repeat split; vm_compute; congruence.
Qed.

(** ** The theorems at sample inputs *)

Lemma getStorageStatus_descending_thresholds_witness :
  (CRITICAL_THRESHOLD STORAGE_LIMITS <= 96 # 100)%Q
  /\ getStorageStatus STORAGE_LIMITS ((96 # 100) * 100) = critical.
Proof.
  split; [vm_compute; discriminate|].
  apply (getStorageStatus_descending_thresholds STORAGE_LIMITS).
  vm_compute. discriminate.
Defined.

Lemma checkStorageAvailability_fails_open_witness :
  getStorageStats limits1000 world_unavailable
  = (Throw StoreUnavailable, world_unavailable)
  /\ checkStorageAvailability limits1000 10 world_unavailable
     = (Ok {| canUpload := true; shouldCleanup := Some false; reason := None;
              avail_stats := None;
              avail_error := Some (message StoreUnavailable) |},
        world_unavailable).
Proof.
  split; [reflexivity|].
  apply (checkStorageAvailability_fails_open limits1000 10 world_unavailable).
  reflexivity.
Defined.



Lemma deleteFileCompletely_tolerates_blob_failures_witness :
  exists r w',
    deleteFileCompletely (10%N, doc_half_gone) world_half_gone = (Ok r, w')
    /\ deletedSize r = 100
    /\ deletedBlobs r = [{| db_type := input; db_name := "m.pdf" |}]
    /\ files w' !! 10%N = None
    /\ bucket w' !! 1%N = None
    /\ bucket w' !! 9%N = bucket world_half_gone !! 9%N
    /\ exists r2,
         deleteFileCompletely (10%N, doc_half_gone) w' = (Ok r2, w')
         /\ deletedSize r2 = 0 /\ deletedBlobs r2 = [].
Proof.
  destruct (proj1 (deleteFileCompletely_tolerates_blob_failures
                     (10%N, doc_half_gone) world_half_gone)
              (not_elem_of_empty _))
    as (r & w' & Hrun & _ & Hfiles & Hbucket & Hcredit & _ & Hretry).
  exists r, w'. split; [exact Hrun|].
  destruct Hcredit as [-> ->].
  { refine (bool_decide_unpack _ _). vm_compute. exact I. }
  split; [reflexivity|]. split; [reflexivity|].
  split; [by rewrite Hfiles, lookup_delete_eq|].
  split; [by rewrite Hbucket|].
  split; [by rewrite Hbucket|].
  exact Hretry.
Defined.

(** The call on the failed record 10 of [world_rejected_candidate], whose
    deletion the collection rejects: it throws, the record is still there
    afterwards, and the blob of its input is gone. *)
Lemma deleteFileCompletely_record_kept_when_delete_rejected :
  exists doc w',
    files world_rejected_candidate !! 10%N = Some doc
    /\ deleteFileCompletely (10%N, doc) world_rejected_candidate
       = (Throw (RecordDeleteFailed 10%N), w')
    /\ files w' !! 10%N = Some doc
    /\ is_Some (bucket world_rejected_candidate !! 1%N)
    /\ bucket w' !! 1%N = None.
Proof.
  eexists _, _. split; [vm_compute; reflexivity|].
  split; [vm_compute; reflexivity|].
  split; [vm_compute; reflexivity|].
  split; [vm_compute; by eexists|]. reflexivity.
Qed.

Lemma cleanupOrphanedGridFSFiles_deletes_exactly_orphans_witness :
  gridfsAvailable world_five_blobs = true
  /\ size (bucket world_five_blobs) = 5%nat
  /\ exists r w',
       cleanupOrphanedGridFSFiles world_five_blobs = (Ok r, w')
       /\ deletedCount r = 3%nat
       /\ size (bucket w') = 2%nat
       /\ exists r2,
            cleanupOrphanedGridFSFiles w' = (Ok r2, w')
            /\ deletedCount r2 = 0%nat /\ or_freedSize r2 = 0.
Proof.
  split; [reflexivity|]. split; [reflexivity|].
  destruct (cleanupOrphanedGridFSFiles_deletes_exactly_orphans
              world_five_blobs eq_refl)
    as (r & w' & Hrun & Hkept & Hgone & Hcount & Hagain).
  exists r, w'. split; [exact Hrun|].
  assert (deletedCount r = 3%nat) as Hthree.
  { revert Hrun. vm_compute. by intros [= <- _]. }
  split; [exact Hthree|]. split; [|exact Hagain].
  rewrite Hthree in Hcount.
  change (size (bucket world_five_blobs)) with 5%nat in Hcount. lia.
Defined.

Lemma deleteMultipleFiles_partial_success_witness :
  [WellFormedId 10%N; WellFormedId 99%N; WellFormedId 20%N] ≠ []
  /\ gridfsAvailable world_two_phases = true
  /\ exists body w',
       deleteMultipleFiles limits1000
         (Some [WellFormedId 10%N; WellFormedId 99%N; WellFormedId 20%N])
         world_two_phases
       = (Ok (Status200 body), w')
       /\ fileId <$> bd_deletedFiles body = [10%N; 20%N]
       /\ bd_errors body
          = [{| ie_fileId := WellFormedId 99%N;
                ie_error := "File not found" |}]
       /\ totalFreedSize body = 500
       /\ totalFreedSize body = sumZ (deletedSize <$> bd_deletedFiles body).
Proof.
  split; [done|]. split; [reflexivity|].
  destruct (proj1 (deleteMultipleFiles_partial_success limits1000
                     [WellFormedId 10%N; WellFormedId 99%N; WellFormedId 20%N]
                     world_two_phases ltac:(done)) eq_refl)
    as (body & w' & Hrun & _ & _ & Hsum & _).
  exists body, w'. split; [exact Hrun|].
  revert Hrun Hsum. vm_compute. intros [= <- _] _. done.
Defined.

(** The same request on a bucket that does not answer, and on a collection
    that rejects the deletion of record 10: in the first case the answer
    is 500 with no report, after the records 10 and 20 have been removed
    and none of their blobs; in the second the valid id 10 is reported
    among the errors, its record is still there and its blob is gone. *)
Lemma deleteMultipleFiles_valid_id_not_reported_as_success :
  (exists w',
      deleteMultipleFiles limits1000
        (Some [WellFormedId 10%N; WellFormedId 99%N; WellFormedId 20%N])
        world_store_down
      = (Ok (Status500 "Error deleting files" (message StoreUnavailable)), w')
      /\ is_Some (files world_store_down !! 10%N)
      /\ files w' !! 10%N = None
      /\ files w' !! 20%N = None
      /\ bucket w' = bucket world_store_down)
  /\ (exists body w',
        deleteMultipleFiles limits1000
          (Some [WellFormedId 10%N; WellFormedId 99%N; WellFormedId 20%N])
          world_rejected_candidate
        = (Ok (Status200 body), w')
        /\ fileId <$> bd_deletedFiles body = [20%N]
        /\ ie_fileId <$> bd_errors body
           = [WellFormedId 10%N; WellFormedId 99%N]
        /\ is_Some (files world_rejected_candidate !! 10%N)
        /\ files w' !! 10%N = files world_rejected_candidate !! 10%N
        /\ is_Some (bucket world_rejected_candidate !! 1%N)
        /\ bucket w' !! 1%N = None).
Proof.
  split.
  - eexists. split; [vm_compute; reflexivity|].
    split; [vm_compute; by eexists|]. by vm_compute.
  - eexists _, _. split; [vm_compute; reflexivity|].
    split; [reflexivity|]. split; [reflexivity|].
    split; [vm_compute; by eexists|]. split; [reflexivity|].
    split; [vm_compute; by eexists|]. reflexivity.
Qed.

Lemma oldest_files_default_limit_witness :
  parseInt (Some "abc"%string) = None
  /\ getOldestFilesList (Some "abc"%string) world_two_phases
     = (Ok (Status200
              {| ofb_count := 3;
                 ofb_files :=
                   withSize
                   <$> take 50 (sort_createdAt
                                  (map_to_list (files world_two_phases))) |}),
        world_two_phases)
  /\ getOldestFilesList None world_two_phases
     = getOldestFilesList (Some "abc"%string) world_two_phases.
Proof.
  split; [reflexivity|].
  destruct (oldest_files_default_limit (Some "abc"%string) world_two_phases)
    as (Hhandler & _); [by right|].
  destruct (oldest_files_default_limit None world_two_phases)
    as (Hmissing & _); [by left|].
  split; [exact Hhandler|]. by rewrite Hmissing, Hhandler.
Defined.

(** * Further properties of the storage manager and its callers *)

(** ** Status and admission *)

(** X1.  A larger usage percentage never yields a less alarming status. *)
Theorem getStorageStatus_monotone (limits : StorageLimits) (p q : Q) :
  (p <= q)%Q ->
  (severity (getStorageStatus limits p)
   <= severity (getStorageStatus limits q))%nat.
Proof.
  intros Hpq. unfold getStorageStatus.
  repeat match goal with
         | |- context [Qle_bool ?a ?b] => destruct (Qle_bool a b) eqn:?
         end; simpl; try lia; exfalso;
    match goal with
    | H1 : Qle_bool ?t p = true, H2 : Qle_bool ?t q = false |- _ =>
        apply Qle_bool_iff in H1; apply Qle_bool_false in H2;
        apply H2; by apply Qle_trans with p
    end.
Qed.

Lemma getStorageStatus_monotone_witness :
  (9000 # 100 <= 9600 # 100)%Q
  /\ (severity (getStorageStatus STORAGE_LIMITS (9000 # 100))
      <= severity (getStorageStatus STORAGE_LIMITS (9600 # 100)))%nat.
Proof.
  split; [vm_compute; discriminate|].
  apply (getStorageStatus_monotone STORAGE_LIMITS). vm_compute. discriminate.
Defined.

Lemma projected_fits (x m : Z) :
  0 < m -> ((inject_Z x / inject_Z m * 100 <= 100)%Q <-> x <= m).
Proof.
  intros Hm. destruct m as [|p|p]; try lia.
  unfold Qle, Qdiv, Qmult, Qinv, inject_Z. simpl. lia.
Qed.

(** X2.  [checkStorageAvailability] always answers and never writes: for
    every world and size it returns a decision and leaves the world as it
    found it. *)
Theorem checkStorageAvailability_answers_readonly
    (limits : StorageLimits) (fileSize : Z) (w : World) :
  exists a, checkStorageAvailability limits fileSize w = (Ok a, w).
Proof.
  destruct (gridfsAvailable w) eqn:Hav.
  - destruct (checkStorageAvailability_decision_order limits fileSize w _
                (getStorageStats_available limits w Hav)) as (a & Ha & _).
    by exists a.
  - eexists. unfold checkStorageAvailability.
    by rewrite (try_catch_Throw _ _ _ _ _
                  (bind_Throw _ _ _ _ _
                     (getStorageStats_unavailable limits w Hav))).
Qed.

(** X3.  An upload that is admitted on an answering store fits: with a
    positive capacity, [canUpload] with a snapshot attached means that the
    bytes in use plus the bytes of the upload do not exceed [MAX_STORAGE],
    and that the shown percentage is below the critical one. *)
Theorem checkStorageAvailability_admitted_fits
    (limits : StorageLimits) (fileSize : Z) (w w' : World)
    (a : Availability) (st : Stats) :
  0 < MAX_STORAGE limits ->
  checkStorageAvailability limits fileSize w = (Ok a, w') ->
  canUpload a = true ->
  avail_stats a = Some st ->
  totalSize st + fileSize <= MAX_STORAGE limits
  /\ (parseFloat (usagePercent st) < CRITICAL_THRESHOLD limits * 100)%Q
  /\ st = statsOf limits (gridfsFilesOf w).
Proof.
  intros Hmax Hrun Hcan Hst.
  destruct (gridfsAvailable w) eqn:Hav.
  - destruct (checkStorageAvailability_decision_order limits fileSize w _
                (getStorageStats_available limits w Hav))
      as (a' & Ha' & Hst' & _ & Hcrit & Hexceeds & _).
    rewrite Ha' in Hrun. inversion Hrun; subst a' w'. clear Hrun.
    rewrite Hst' in Hst. inversion Hst; subst st. clear Hst.
    assert (~ (CRITICAL_THRESHOLD limits * 100
               <= parseFloat (usagePercent (statsOf limits (gridfsFilesOf w))))%Q)
      as Hnc.
    { intros H. destruct (Hcrit H) as [E _]. congruence. }
    split; [|split; [by apply Qnot_le_lt|done]].
    apply projected_fits; [done|].
    destruct (Qlt_le_dec 100
                (inject_Z (totalSize (statsOf limits (gridfsFilesOf w))
                           + fileSize)
                 / inject_Z (MAX_STORAGE limits) * 100)) as [Hlt|Hle]; [|done].
    destruct (Hexceeds Hnc) as [E _]; [by apply Qlt_not_le|congruence].
  - unfold checkStorageAvailability in Hrun.
    rewrite (try_catch_Throw _ _ _ _ _
               (bind_Throw _ _ _ _ _
                  (getStorageStats_unavailable limits w Hav))) in Hrun.
    inversion Hrun; subst. discriminate.
Qed.

Lemma checkStorageAvailability_admitted_fits_witness :
  0 < MAX_STORAGE limits1000
  /\ exists a st,
       checkStorageAvailability limits1000 50 (worldOf true [(1%N, 900)] [] 0)
       = (Ok a, worldOf true [(1%N, 900)] [] 0)
       /\ canUpload a = true
       /\ avail_stats a = Some st
       /\ totalSize st + 50 <= MAX_STORAGE limits1000.
Proof.
  split; [done|]. eexists _, _.
  split; [vm_compute; reflexivity|]. split; [reflexivity|].
  split; [reflexivity|].
  eapply (checkStorageAvailability_admitted_fits
            limits1000 50 (worldOf true [(1%N, 900)] [] 0));
    try done; vm_compute; reflexivity.
Defined.

(** The decision on an answering store, as one expression. *)
Lemma checkStorageAvailability_available limits fileSize w :
  gridfsAvailable w = true ->
  let st := statsOf limits (gridfsFilesOf w) in
  let shown := parseFloat (usagePercent st) in
  let projected :=
    (inject_Z (totalSize st + fileSize) / inject_Z (MAX_STORAGE limits)
     * 100)%Q in
  checkStorageAvailability limits fileSize w
  = (Ok (if Qle_bool (CRITICAL_THRESHOLD limits * 100) shown
         then {| canUpload := false; shouldCleanup := None;
                 reason := Some REASON_CRITICAL;
                 avail_stats := Some st; avail_error := None |}
         else if negb (Qle_bool projected 100)
         then {| canUpload := false; shouldCleanup := None;
                 reason := Some REASON_EXCEEDS;
                 avail_stats := Some st; avail_error := None |}
         else if Qle_bool (CLEANUP_THRESHOLD limits * 100) shown
         then {| canUpload := true; shouldCleanup := Some true;
                 reason := Some REASON_HIGH;
                 avail_stats := Some st; avail_error := None |}
         else {| canUpload := true; shouldCleanup := Some false;
                 reason := None;
                 avail_stats := Some st; avail_error := None |}), w).
Proof.
  intros Hav st shown projected. unfold checkStorageAvailability.
  apply try_catch_Ok.
  rewrite (bind_Ok _ _ _ _ _ (getStorageStats_available limits w Hav)).
  fold st. fold shown. fold projected.
  by repeat destruct (Qle_bool _ _).
Qed.

(** The fail-open answer on a store that does not answer. *)
Lemma checkStorageAvailability_unavailable limits fileSize w :
  gridfsAvailable w = false ->
  checkStorageAvailability limits fileSize w
  = (Ok {| canUpload := true; shouldCleanup := Some false; reason := None;
           avail_stats := None;
           avail_error := Some (message StoreUnavailable) |}, w).
Proof.
  intros Hav. unfold checkStorageAvailability.
  by rewrite (try_catch_Throw _ _ _ _ _
                (bind_Throw _ _ _ _ _
                   (getStorageStats_unavailable limits w Hav))).
Qed.

(** X4.  With a positive capacity, an upload that is admitted stays
    admitted, with the very same answer, when it gets smaller. *)
Theorem checkStorageAvailability_smaller_upload
    (limits : StorageLimits) (s s' : Z) (w w' : World) (a : Availability) :
  0 < MAX_STORAGE limits ->
  s' <= s ->
  checkStorageAvailability limits s w = (Ok a, w') ->
  canUpload a = true ->
  checkStorageAvailability limits s' w = (Ok a, w').
Proof.
  intros Hmax Hle Hrun Hcan.
  destruct (gridfsAvailable w) eqn:Hav.
  - rewrite checkStorageAvailability_available in Hrun |- * by done.
    cbv zeta in *.
    destruct (Qle_bool (CRITICAL_THRESHOLD limits * 100) _) eqn:Hc;
      [inversion Hrun; subst; discriminate|].
    destruct (Qle_bool
                (inject_Z (totalSize (statsOf limits (gridfsFilesOf w)) + s)
                 / inject_Z (MAX_STORAGE limits) * 100) 100) eqn:Hp;
      [|inversion Hrun; subst; discriminate].
    assert (Qle_bool
              (inject_Z (totalSize (statsOf limits (gridfsFilesOf w)) + s')
               / inject_Z (MAX_STORAGE limits) * 100) 100 = true) as ->.
    { apply Qle_bool_iff, (proj2 (projected_fits _ _ Hmax)).
      apply Qle_bool_iff, (proj1 (projected_fits _ _ Hmax)) in Hp. lia. }
    exact Hrun.
  - rewrite checkStorageAvailability_unavailable in Hrun |- * by done.
    exact Hrun.
Qed.

Lemma checkStorageAvailability_smaller_upload_witness :
  0 < MAX_STORAGE limits1000 /\ 10 <= 50
  /\ exists a,
       checkStorageAvailability limits1000 50 (worldOf true [(1%N, 900)] [] 0)
       = (Ok a, worldOf true [(1%N, 900)] [] 0)
       /\ canUpload a = true
       /\ checkStorageAvailability limits1000 10
            (worldOf true [(1%N, 900)] [] 0)
          = (Ok a, worldOf true [(1%N, 900)] [] 0).
Proof.
  split; [done|]. split; [done|]. eexists.
  split; [vm_compute; reflexivity|]. split; [reflexivity|].
  apply (checkStorageAvailability_smaller_upload limits1000 50 10);
    try done; vm_compute; reflexivity.
Defined.

Lemma toFixed2_ge (n : Z) (x : Q) :
  0 <= n -> (inject_Z n <= x * 100)%Q -> n <= toFixed2 x.
Proof.
  intros Hn Hx. unfold toFixed2.
  assert (0 <= x)%Q as Hx0.
  { apply (Qmult_le_r _ _ 100); [reflexivity|].
    rewrite Qmult_0_l. apply Qle_trans with (inject_Z n); [|done].
    unfold Qle, inject_Z. simpl. lia. }
  apply Qle_bool_iff in Hx0. rewrite Hx0.
  rewrite <- (Qfloor_Z n). apply Qfloor_resp_le.
  apply Qle_trans with (x * 100)%Q; [done|].
  rewrite <- (Qplus_0_r (x * 100)) at 1.
  apply Qplus_le_r. discriminate.
Qed.

(** X5.  Where the critical percentage has at most two decimals, as with
    the shipped limits, a snapshot whose status is [critical] refuses every
    upload: the admission check never disagrees with a critical status. *)
Theorem critical_status_refuses_uploads
    (limits : StorageLimits) (n : Z) (fileSize : Z) (w : World) (st : Stats) :
  0 <= n ->
  (CRITICAL_THRESHOLD limits * 100 == n # 100)%Q ->
  getStorageStats limits w = (Ok st, w) ->
  stats_status st = critical ->
  exists a,
    checkStorageAvailability limits fileSize w = (Ok a, w)
    /\ canUpload a = false
    /\ reason a = Some REASON_CRITICAL.
Proof.
  intros Hn Hcrit Hst Hstatus.
  apply getStorageStats_inv in Hst as [_ [[Hav Hst]|[_ ?]]]; [|done].
  inversion Hst; subst st; clear Hst.
  rewrite checkStorageAvailability_available by done. cbv zeta.
  set (p := (inject_Z (sumLengths (gridfsFilesOf w))
             / inject_Z (MAX_STORAGE limits) * 100)%Q) in *.
  assert (Qle_bool (CRITICAL_THRESHOLD limits * 100) p = true) as Hp.
  { revert Hstatus. unfold statsOf. cbn [stats_status]. fold p.
    unfold getStorageStatus. by repeat destruct (Qle_bool _ p). }
  assert (Qle_bool (CRITICAL_THRESHOLD limits * 100)
            (parseFloat (usagePercent (statsOf limits (gridfsFilesOf w))))
          = true) as ->.
  { apply Qle_bool_iff. apply Qle_bool_iff in Hp.
    unfold statsOf. cbn [usagePercent]. fold p. rewrite Hcrit in *.
    unfold parseFloat.
    assert (n <= toFixed2 p) as Hge.
    { apply toFixed2_ge; [done|].
      apply (Qmult_le_r _ _ 100) in Hp; [|reflexivity].
      apply Qle_trans with ((n # 100) * 100)%Q; [|done].
      unfold Qle, Qmult, inject_Z. simpl. lia. }
    unfold Qle. simpl. lia. }
  by eexists.
Qed.

Lemma critical_status_refuses_uploads_witness :
  0 <= 9500
  /\ (CRITICAL_THRESHOLD STORAGE_LIMITS * 100 == 9500 # 100)%Q
  /\ exists st a,
       getStorageStats STORAGE_LIMITS (worldOf true [(1%N, 520000000)] [] 0)
       = (Ok st, worldOf true [(1%N, 520000000)] [] 0)
       /\ stats_status st = critical
       /\ checkStorageAvailability STORAGE_LIMITS 0
            (worldOf true [(1%N, 520000000)] [] 0)
          = (Ok a, worldOf true [(1%N, 520000000)] [] 0)
       /\ canUpload a = false.
Proof.
  split; [done|]. split; [reflexivity|].
  destruct (critical_status_refuses_uploads STORAGE_LIMITS 9500 0
              (worldOf true [(1%N, 520000000)] [] 0)
              (statsOf STORAGE_LIMITS
                 (gridfsFilesOf (worldOf true [(1%N, 520000000)] [] 0))))
    as (a & Ha & Hcan & _).
  - done.
  - reflexivity.
  - by apply getStorageStats_available.
  - vm_compute. reflexivity.
  - eexists _, a. split; [by apply getStorageStats_available|].
    split; [vm_compute; reflexivity|]. by split.
Defined.

(** ** Listings *)

Lemma isCleanupCandidate_spec cutoff (f : FileDoc) :
  isCleanupCandidate cutoff f = true
  <-> status f = failed
      \/ (status f = uploaded /\ createdAt f < cutoff)
      \/ (status f = processing
          /\ exists t, processingStartedAt f = Some t /\ t < cutoff).
Proof.
  unfold isCleanupCandidate, lt_date.
  rewrite !orb_true_iff, !andb_true_iff, !bool_decide_eq_true, Z.ltb_lt.
  destruct (processingStartedAt f) as [t|].
  - rewrite Z.ltb_lt. split.
    + intros [[?|?]|[? ?]]; eauto 6.
    + intros [?|[?|[? (t' & [= <-] & ?)]]]; eauto.
  - split.
    + intros [[?|?]|[? ?]]; eauto; done.
    + intros [?|[?|[? (t' & ? & ?)]]]; eauto; done.
Qed.

Lemma sort_createdAt_sorted l : StronglySorted createdAt_le (sort_createdAt l).
Proof. apply (StronglySorted_merge_sort createdAt_le). Qed.

Lemma NoDup_sort_filter (P : ObjectId * FileDoc -> Prop)
    `{!forall x, Decision (P x)} (w : World) :
  NoDup (doc_id <$> sort_createdAt (filter P (map_to_list (files w)))).
Proof.
  unfold sort_createdAt. rewrite merge_sort_Permutation.
  apply NoDup_fmap_filter. apply (NoDup_fst_map_to_list (files w)).
Qed.

(** The cutoff of the candidates: thirty days of twenty-four hours before
    the clock reading, shifted by the difference between the offset of the
    local time zone now and its offset on the calendar day thirty days
    earlier. *)
Lemma thirtyDaysAgo_offsets (tza : Z -> bool -> Z) (t : Z) :
  thirtyDaysAgo tza t
  = t - 30 * DAY_MS
    + (tza t true - tza (t + tza t true - 30 * DAY_MS) false).
Proof.
  unfold thirtyDaysAgo, setDate_minus_30, UTC, MakeDate, Day, TimeWithinDay,
    LocalTime.
  set (l := t + tza t true).
  assert ((l / DAY_MS - 30) * DAY_MS + l mod DAY_MS = l - 30 * DAY_MS) as ->.
  { pose proof (Z.div_mod l DAY_MS ltac:(done)) as H.
    unfold DAY_MS in *. lia. }
  unfold l. lia.
Qed.

(** X6.  [getCleanupCandidates] reads only: it returns, oldest first and
    each record once, exactly the records that are failed, or uploaded and
    created before the cutoff, or processing with a start date before the
    cutoff; a processing record without a start date is never a candidate,
    nor is a completed record.  The cutoff is the clock reading moved back
    by thirty calendar days of the local time zone: thirty days of
    twenty-four hours when the offset of the zone is the same at both
    ends, and off by the difference of the offsets otherwise. *)
Theorem getCleanupCandidates_listing (w : World) :
  exists l,
    getCleanupCandidates w = (Ok l, w)
    /\ (forall d : ObjectId * FileDoc,
          d ∈ l
          <-> files w !! d.1 = Some d.2
              /\ (status d.2 = failed
                  \/ (status d.2 = uploaded
                      /\ createdAt d.2 < thirtyDaysAgo (localTZA w) (now w))
                  \/ (status d.2 = processing
                      /\ exists t, processingStartedAt d.2 = Some t
                                   /\ t < thirtyDaysAgo (localTZA w) (now w))))
    /\ StronglySorted createdAt_le l
    /\ NoDup (doc_id <$> l)
    /\ (forall d : ObjectId * FileDoc, d ∈ l -> status d.2 ≠ completed)
    /\ thirtyDaysAgo (localTZA w) (now w)
       = now w - 30 * DAY_MS
         + (localTZA w (now w) true
            - localTZA w (now w + localTZA w (now w) true - 30 * DAY_MS)
                false).
Proof.
  exists (phase1Candidates w). split; [apply getCleanupCandidates_run|].
  split; [|split; [|split; [|split]]].
  - intros d. rewrite elem_of_phase1Candidates, isCleanupCandidate_spec. done.
  - apply sort_createdAt_sorted.
  - apply NoDup_sort_filter.
  - intros d [_ Hd]%elem_of_phase1Candidates.
    by apply candidate_not_completed in Hd.
  - apply thirtyDaysAgo_offsets.
Qed.

Lemma length_sort_createdAt l : length (sort_createdAt l) = length l.
Proof. unfold sort_createdAt. by rewrite merge_sort_Permutation. Qed.

Lemma cursor_limit_pos n l :
  0 < n -> cursor_limit n l = take (Z.to_nat n) l.
Proof.
  intros Hn. unfold cursor_limit.
  destruct (n =? 0) eqn:E; [lia|]. by rewrite Z.abs_eq by lia.
Qed.

(** X7.  A [limit] query parameter that parses to a positive number [n]
    makes [getOldestFilesList] answer 200 with the [n] oldest records, or
    with all of them when there are fewer, and the world is left as it
    was. *)
Theorem getOldestFilesList_explicit_limit
    (query_limit : option string) (n : Z) (w : World) :
  parseInt query_limit = Some n ->
  0 < n ->
  getOldestFilesList query_limit w
  = (Ok (Status200
           {| ofb_count := Nat.min (Z.to_nat n) (size (files w));
              ofb_files :=
                withSize
                <$> take (Z.to_nat n)
                         (sort_createdAt (map_to_list (files w))) |}), w).
Proof.
  intros Hparse Hn. unfold getOldestFilesList. apply try_catch_Ok.
  rewrite Hparse. unfold number_or.
  destruct (n =? 0) eqn:E; [lia|].
  rewrite (bind_Ok _ _ _ _ _ (getOldestFiles_run _ w)).
  unfold ret. cbn [default]. unfold id.
  rewrite cursor_limit_pos by done.
  by rewrite length_fmap, length_take, length_sort_createdAt,
    length_map_to_list.
Qed.

Lemma getOldestFilesList_explicit_limit_witness :
  parseInt (Some "2"%string) = Some 2
  /\ 0 < 2
  /\ getOldestFilesList (Some "2"%string) world_two_phases
     = (Ok (Status200
              {| ofb_count := Nat.min (Z.to_nat 2)
                                (size (files world_two_phases));
                 ofb_files :=
                   withSize
                   <$> take (Z.to_nat 2)
                            (sort_createdAt
                               (map_to_list (files world_two_phases))) |}),
        world_two_phases).
Proof.
  split; [reflexivity|]. split; [done|].
  apply (getOldestFilesList_explicit_limit (Some "2"%string) 2);
    [reflexivity|done].
Defined.

(** X8.  A [limit] query parameter that parses to zero is falsy: the
    handler answers as it does without the parameter, with the default of
    fifty records, not with none and not with all. *)
Theorem getOldestFilesList_zero_is_default
    (query_limit : option string) (w : World) :
  parseInt query_limit = Some 0 ->
  getOldestFilesList query_limit w = getOldestFilesList None w
  /\ exists body,
       getOldestFilesList query_limit w = (Ok (Status200 body), w)
       /\ ofb_count body = Nat.min 50 (size (files w)).
Proof.
  intros Hparse. unfold getOldestFilesList.
  rewrite Hparse. cbn [number_or Z.eqb].
  split; [done|].
  eexists. split.
  - apply try_catch_Ok.
    rewrite (bind_Ok _ _ _ _ _ (getOldestFiles_run _ w)). reflexivity.
  - cbn [ofb_count default]. unfold id.
    rewrite cursor_limit_pos by done.
    rewrite length_fmap, length_take, length_sort_createdAt,
      length_map_to_list. done.
Qed.

Lemma getOldestFilesList_zero_is_default_witness :
  parseInt (Some "0"%string) = Some 0
  /\ getOldestFilesList (Some "0"%string) world_two_phases
     = getOldestFilesList None world_two_phases.
Proof.
  split; [reflexivity|].
  apply (getOldestFilesList_zero_is_default (Some "0"%string)
           world_two_phases).
  reflexivity.
Defined.

Lemma fold_left_add_sumZ {A} (f : A -> Z) (l : list A) (a : Z) :
  fold_left (fun sum x => sum + f x) l a = a + sumZ (f <$> l).
Proof.
  revert a. induction l as [|x l IH]; intros a.
  - unfold sumZ. simpl. lia.
  - cbn [fold_left]. rewrite IH, fmap_cons. unfold sumZ. simpl. lia.
Qed.

(** X9.  [getCleanupCandidatesList] answers 200 whatever the state of the
    blob store and writes nothing; it lists one summary for each cleanup
    candidate, in the candidates' order, none of them of a completed
    record, and the size it shows for a record is its input size plus the
    recorded sizes of its outputs, an output without a recorded size
    counting for nothing. *)
Theorem getCleanupCandidatesList_summaries (w : World) :
  exists body,
    getCleanupCandidatesList w = (Ok (Status200 body), w)
    /\ cb_count body = length (phase1Candidates w)
    /\ fs_id <$> cb_candidates body = doc_id <$> phase1Candidates w
    /\ (forall s, s ∈ cb_candidates body ->
          fs_status s ≠ completed
          /\ exists doc,
               files w !! fs_id s = Some doc
               /\ fs_totalSize s
                  = fileSize doc
                    + sumZ ((fun o => default 0 (of_fileSize o))
                            <$> outputFiles doc)).
Proof.
  eexists. split.
  { unfold getCleanupCandidatesList. apply try_catch_Ok.
    rewrite (bind_Ok _ _ _ _ _ (getCleanupCandidates_run w)). reflexivity. }
  cbn [cb_count cb_candidates].
  split; [by rewrite length_fmap|].
  split; [by rewrite <- list_fmap_compose|].
  intros s (d & -> & Hd)%list_elem_of_fmap.
  apply elem_of_phase1Candidates in Hd as [Hlook Hcand].
  split; [by apply candidate_not_completed in Hcand|].
  exists d.2. split; [done|].
  unfold withSize. cbn [fs_totalSize].
  by rewrite (fold_left_add_sumZ (fun o => default 0 (of_fileSize o))).
Qed.

(** ** Byte accounting of a record deletion *)

Lemma sumZ_cons x l : sumZ (x :: l) = x + sumZ l.
Proof. done. Qed.

Lemma sumZ_Permutation l1 l2 : l1 ≡ₚ l2 -> sumZ l1 = sumZ l2.
Proof.
  induction 1 as [|x l1 l2 _ IH|x y l|l1 l2 l3 _ IH1 _ IH2];
    rewrite ?sumZ_cons; lia.
Qed.

Lemma sumLengths_sumZ fs : sumLengths fs = sumZ (gf_length <$> fs).
Proof.
  unfold sumLengths. rewrite (fold_left_add_sumZ gf_length). lia.
Qed.

Lemma bucketBytes_sumZ w :
  bucketBytes w
  = sumZ ((fun kv : ObjectId * Blob => blob_length kv.2)
          <$> map_to_list (bucket w)).
Proof.
  unfold bucketBytes, gridfsFilesOf.
  by rewrite sumLengths_sumZ, <- list_fmap_compose.
Qed.

Lemma bucketBytes_delete w id b :
  bucket w !! id = Some b ->
  bucketBytes (set_bucket (delete id (bucket w)) w)
  = bucketBytes w - blob_length b.
Proof.
  intros Hb. rewrite !bucketBytes_sumZ. cbn [bucket set_bucket].
  rewrite <- (sumZ_Permutation _ _
                (fmap_Permutation _ _ _ (map_to_list_delete _ _ _ Hb))).
  rewrite fmap_cons, sumZ_cons. cbn [snd]. lia.
Qed.

Lemma bucketBytes_set_files f w : bucketBytes (set_files f w) = bucketBytes w.
Proof. done. Qed.

Lemma deletable_Some w id :
  deletable w id = true ->
  gridfsAvailable w = true /\ exists b, bucket w !! id = Some b.
Proof.
  unfold deletable. intros [Hav Hb%bool_decide_eq_true]%andb_true_iff.
  split; [done|]. destruct Hb as [b Hb]. by exists b.
Qed.

(** What the blob deletions do to the bucket: one blob leaves it for each
    entry reported, nothing enters it, and when the sizes the references
    record are the lengths of the blobs, the bytes credited are the bytes
    that left. *)
Lemma deleteRefs_accounting refs acc w acc' w' :
  deleteRefs refs acc w = (Ok acc', w') ->
  (size (bucket w) + length acc.2 = size (bucket w') + length acc'.2)%nat
  /\ (forall k b, bucket w' !! k = Some b -> bucket w !! k = Some b)
  /\ ((forall r b, r ∈ refs -> bucket w !! ref_id r = Some b ->
         blob_length b = ref_size r) ->
      bucketBytes w' + acc'.1 = bucketBytes w + acc.1)
  /\ ((forall r, r ∈ refs -> 0 <= ref_size r) ->
      acc.1 <= acc'.1 <= acc.1 + sumZ (ref_size <$> refs)).
Proof.
  revert acc w. induction refs as [|r refs IH]; intros acc w.
  - cbn [deleteRefs]. intros [= <- <-]. rewrite fmap_nil. unfold sumZ.
    cbn [foldr]. repeat split; try done; lia.
  - cbn [deleteRefs]. destruct (deletable w (ref_id r)) eqn:Hd.
    + intros Hrun. apply IH in Hrun as (Hsz & Hsub & Hbytes & Hbound).
      apply deletable_Some in Hd as [Hav [b Hb]].
      cbn [fst snd bucket set_bucket] in *.
      split; [|split; [|split]].
      * rewrite map_size_delete_Some in Hsz by (by eexists).
        assert (size (bucket w) ≠ 0%nat)
          by (apply map_size_ne_0_lookup_2 with (ref_id r); by eexists).
        rewrite length_app in Hsz. cbn [length] in Hsz. lia.
      * intros k b' Hk. apply Hsub in Hk.
        by apply lookup_delete_Some in Hk as [_ Hk].
      * intros Hacc.
        rewrite (bucketBytes_delete _ _ _ Hb) in Hbytes.
        rewrite (Hacc r b) in Hbytes by (done || left).
        rewrite Hbytes; [lia|].
        intros r' b' Hr' [_ Hb']%lookup_delete_Some.
        apply Hacc; [by right|done].
      * intros Hnn. rewrite fmap_cons, sumZ_cons.
        pose proof (Hnn r ltac:(left)).
        destruct Hbound as [? ?]; [intros r' Hr'; apply Hnn; by right|].
        lia.
    + intros Hrun. apply IH in Hrun as (Hsz & Hsub & Hbytes & Hbound).
      split; [done|]. split; [done|]. split.
      * intros Hacc. apply Hbytes. intros r' b' Hr'. apply Hacc. by right.
      * intros Hnn. rewrite fmap_cons, sumZ_cons.
        pose proof (Hnn r ltac:(left)).
        destruct Hbound as [? ?]; [intros r' Hr'; apply Hnn; by right|].
        lia.
Qed.

(** A call of [deleteFileCompletely] with the accounting of its blob
    deletions, whether the record is deleted in the end or not. *)
Lemma deleteFileCompletely_accounting file w res w' :
  deleteFileCompletely file w = (res, w') ->
  (forall k b, bucket w' !! k = Some b -> bucket w !! k = Some b)
  /\ (accurateSizes w file.2 ->
      (forall ref, ref ∈ blobRefs file.2 -> 0 <= ref_size ref) ->
      bucketBytes w' <= bucketBytes w)
  /\ (forall r, res = Ok r ->
        (size (bucket w) = size (bucket w') + length (deletedBlobs r))%nat
        /\ (accurateSizes w file.2 ->
            bucketBytes w' = bucketBytes w - deletedSize r)
        /\ ((forall ref, ref ∈ blobRefs file.2 -> 0 <= ref_size ref) ->
            0 <= deletedSize r <= sumZ (ref_size <$> blobRefs file.2))).
Proof.
  destruct (deleteFileCompletely_refs file w) as (acc & w1 & Hrefs & ->).
  apply deleteRefs_accounting in Hrefs as (Hsz & Hsub & Hbytes & Hbound).
  cbn [fst snd length] in *.
  assert (accurateSizes w file.2 -> bucketBytes w1 + acc.1 = bucketBytes w)
    as Hbytes'.
  { intros Hacc. rewrite <- (Z.add_0_r (bucketBytes w)). apply Hbytes.
    intros ref b Href Hb. by apply (Hacc ref b). }
  destruct (decide (doc_id file ∈ deleteRejected w)); intros [= <- <-];
    (split; [done|]); (split; [|intros r [= <-]]).
  - intros Hacc Hnn. specialize (Hbytes' Hacc). specialize (Hbound Hnn). lia.
  - intros Hacc Hnn. rewrite bucketBytes_set_files.
    specialize (Hbytes' Hacc). specialize (Hbound Hnn). lia.
  - cbn [deletedBlobs deletedSize bucket set_files].
    split; [lia|]. split.
    + intros Hacc. rewrite bucketBytes_set_files.
      specialize (Hbytes' Hacc). lia.
    + intros Hnn. specialize (Hbound Hnn). lia.
Qed.

(** X10.  When the collection accepts the deletion of the record,
    [deleteFileCompletely] removes from the bucket exactly as many blobs
    as it reports in [deletedFiles], puts nothing into it, and on a blob
    store that does not answer it still removes the record while it
    reports no blob and no byte.  When the collection rejects the
    deletion, the call throws: the record stays and nothing has entered
    the bucket. *)
Theorem deleteFileCompletely_blob_count (file : Document) (w : World) :
  (doc_id file ∉ deleteRejected w ->
   exists r w',
     deleteFileCompletely file w = (Ok r, w')
     /\ (size (bucket w) = size (bucket w') + length (deletedBlobs r))%nat
     /\ (forall k b, bucket w' !! k = Some b -> bucket w !! k = Some b)
     /\ (gridfsAvailable w = false ->
         deletedBlobs r = [] /\ deletedSize r = 0
         /\ bucket w' = bucket w
         /\ files w' = delete (doc_id file) (files w)))
  /\ (doc_id file ∈ deleteRejected w ->
      exists w',
        deleteFileCompletely file w
        = (Throw (RecordDeleteFailed (doc_id file)), w')
        /\ files w' = files w
        /\ (forall k b, bucket w' !! k = Some b -> bucket w !! k = Some b)
        /\ (gridfsAvailable w = false -> bucket w' = bucket w)).
Proof.
  destruct (deleteFileCompletely_effect file w)
    as (res & w' & Hrun & _ & _ & _ & _ & Hb & Hok & Hfail).
  destruct (deleteFileCompletely_accounting _ _ _ _ Hrun)
    as (Hsub & _ & Hcount).
  assert (gridfsAvailable w = false -> bucket w' = bucket w) as Hsame.
  { intros Hav. apply map_eq. intros k. rewrite Hb, decide_False; [done|].
    rewrite Hav. by intros [? _]. }
  split; intros Hin.
  - destruct (Hok Hin) as (r & -> & _ & Hfiles).
    destruct (Hcount r eq_refl) as (Hsz & _ & _).
    exists r, w'. split; [done|]. split; [done|]. split; [done|].
    intros Hav. split; [|split; [|by split; [apply Hsame|]]].
    + rewrite (Hsame Hav) in Hsz. apply nil_length_inv. lia.
    + destruct (deleteFileCompletely_refs file w) as (acc & w1 & Hrefs & Hrun').
      rewrite decide_False in Hrun' by done.
      rewrite Hrun' in Hrun. injection Hrun as <- _.
      rewrite deleteRefs_nothing in Hrefs
        by (intros; by apply deletable_unavailable).
      by injection Hrefs as <- _.
  - destruct (Hfail Hin) as (-> & Hfiles). by exists w'.
Qed.

(** X11.  When the sizes a record holds for its blobs are the lengths of
    the blobs in the store, the bytes [deleteFileCompletely] reports as
    deleted are the bytes by which the bucket shrinks. *)
Theorem deleteFileCompletely_frees_reported_bytes
    (file : Document) (w w' : World) (r : DeleteResult) :
  accurateSizes w file.2 ->
  deleteFileCompletely file w = (Ok r, w') ->
  bucketBytes w' = bucketBytes w - deletedSize r.
Proof.
  intros Hacc Hrun.
  destruct (deleteFileCompletely_accounting _ _ _ _ Hrun) as (_ & _ & Hok).
  by apply (Hok r eq_refl).
Qed.

Lemma sumZ_nonneg l : (forall x, x ∈ l -> 0 <= x) -> 0 <= sumZ l.
Proof.
  induction l as [|x l IH]; intros Hl; [done|].
  rewrite sumZ_cons. pose proof (Hl x ltac:(left)).
  assert (0 <= sumZ l); [|lia]. apply IH. intros y Hy. apply Hl. by right.
Qed.

Lemma sumZ_outputRefs_le (outs : list OutputFile) :
  (forall o n, o ∈ outs -> of_fileSize o = Some n -> 0 <= n) ->
  sumZ (ref_size <$> omap outputRef outs)
  <= sumZ ((fun o => default 0 (of_fileSize o)) <$> outs).
Proof.
  induction outs as [|o outs IH]; intros Hnn; [done|].
  rewrite fmap_cons, sumZ_cons.
  change (omap outputRef (o :: outs))
    with (match outputRef o with
          | Some y => y :: omap outputRef outs
          | None => omap outputRef outs
          end).
  assert (0 <= default 0 (of_fileSize o)) as Ho.
  { destruct (of_fileSize o) as [n|] eqn:E; [|done].
    apply (Hnn o n); [left|done]. }
  assert (sumZ (ref_size <$> omap outputRef outs)
          <= sumZ ((fun o => default 0 (of_fileSize o)) <$> outs)) as IH'.
  { apply IH. intros o' n Ho'. apply Hnn. by right. }
  unfold outputRef at 1.
  destruct (of_storedInGridFS o), (of_gridfsFileId o);
    cbn [fmap option_fmap option_map];
    rewrite ?fmap_cons, ?sumZ_cons; cbn [ref_size]; lia.
Qed.

(** X12.  With non-negative recorded sizes, the bytes
    [deleteFileCompletely] reports lie between zero and the total size the
    listings show for the record. *)
Theorem deleteFileCompletely_size_bounds
    (file : Document) (w w' : World) (r : DeleteResult) :
  0 <= fileSize file.2 ->
  (forall o n, o ∈ outputFiles file.2 -> of_fileSize o = Some n -> 0 <= n) ->
  deleteFileCompletely file w = (Ok r, w') ->
  0 <= deletedSize r <= fs_totalSize (withSize file).
Proof.
  intros Hin Houts Hrun.
  pose proof (sumZ_outputRefs_le _ Houts) as Hle.
  destruct (deleteFileCompletely_accounting _ _ _ _ Hrun) as (_ & _ & Hok).
  destruct (Hok r eq_refl) as (_ & _ & Hbound).
  unfold withSize. cbn [fs_totalSize].
  rewrite (fold_left_add_sumZ (fun o => default 0 (of_fileSize o))).
  assert (sumZ (ref_size <$> blobRefs file.2)
          <= fileSize file.2 + sumZ (ref_size <$> omap outputRef
                                                    (outputFiles file.2)))
    as Hrefs.
  { unfold blobRefs. rewrite fmap_app, sumZ_app.
    unfold inputRef. destruct (gridfsInputFileId file.2); cbn; lia. }
  destruct Hbound as [? ?]; [|lia].
  intros ref [Href|Href]%elem_of_app.
  - unfold inputRef in Href. destruct (gridfsInputFileId file.2); cbn in Href.
    + apply list_elem_of_singleton in Href as ->. done.
    + by apply elem_of_nil in Href.
  - apply list_elem_of_omap in Href as (o & Ho & Href).
    unfold outputRef in Href.
    destruct (of_storedInGridFS o), (of_gridfsFileId o);
      cbn in Href; try done.
    injection Href as <-. cbn [ref_size].
    destruct (of_fileSize o) as [sz|] eqn:E; [|done]. by apply (Houts o sz).
Qed.

Lemma accurateSizes_check w f :
  forallb (fun ref =>
             match bucket w !! ref_id ref with
             | Some b => blob_length b =? ref_size ref
             | None => true
             end) (blobRefs f) = true ->
  accurateSizes w f.
Proof.
  intros Hall ref b Href Hb.
  rewrite forallb_forall in Hall.
  apply list_elem_of_In, Hall in Href. rewrite Hb in Href. lia.
Qed.

Lemma outputs_nonneg_check (outs : list OutputFile) :
  forallb (fun o => 0 <=? default 0 (of_fileSize o)) outs = true ->
  forall o n, o ∈ outs -> of_fileSize o = Some n -> 0 <= n.
Proof.
  intros Hall o n Ho Hn. rewrite forallb_forall in Hall.
  apply list_elem_of_In, Hall in Ho. rewrite Hn in Ho. cbn in Ho. lia.
Qed.

Lemma deleteFileCompletely_frees_reported_bytes_witness :
  accurateSizes world_half_gone doc_half_gone
  /\ exists r w',
       deleteFileCompletely (10%N, doc_half_gone) world_half_gone = (Ok r, w')
       /\ bucketBytes w' = bucketBytes world_half_gone - deletedSize r.
Proof.
  split; [apply accurateSizes_check; vm_compute; reflexivity|].
  eexists _, _. split; [vm_compute; reflexivity|].
  eapply (deleteFileCompletely_frees_reported_bytes
            (10%N, doc_half_gone) world_half_gone).
  - apply accurateSizes_check. vm_compute. reflexivity.
  - vm_compute. reflexivity.
Defined.

Lemma deleteFileCompletely_size_bounds_witness :
  0 <= fileSize doc_half_gone
  /\ (forall o n, o ∈ outputFiles doc_half_gone ->
        of_fileSize o = Some n -> 0 <= n)
  /\ exists r w',
       deleteFileCompletely (10%N, doc_half_gone) world_half_gone = (Ok r, w')
       /\ 0 <= deletedSize r <= fs_totalSize (withSize (10%N, doc_half_gone)).
Proof.
  split; [vm_compute; discriminate|].
  split; [apply outputs_nonneg_check; vm_compute; reflexivity|].
  eexists _, _. split; [vm_compute; reflexivity|].
  eapply (deleteFileCompletely_size_bounds
            (10%N, doc_half_gone) world_half_gone).
  - vm_compute. discriminate.
  - apply outputs_nonneg_check. vm_compute. reflexivity.
  - vm_compute. reflexivity.
Defined.

(** ** Byte accounting of the reclamation engine *)

(** The bucket through a run of the deletion loop: nothing enters it; with
    accurate and non-negative recorded sizes it shrinks by at least the
    bytes credited, and by exactly those bytes when the collection accepts
    every deletion the loop tries. *)
Lemma cleanupLoop_accounting sizeToFree l acc w acc' w' :
  cleanupLoop sizeToFree l acc w = (Ok acc', w') ->
  (forall k b, bucket w' !! k = Some b -> bucket w !! k = Some b)
  /\ ((forall d : ObjectId * FileDoc, d ∈ l -> accurateSizes w d.2) ->
      ((forall d : ObjectId * FileDoc, d ∈ l -> d.1 ∉ deleteRejected w) ->
       bucketBytes w' + acc'.1 = bucketBytes w + acc.1)
      /\ ((forall (d : ObjectId * FileDoc) ref,
              d ∈ l -> ref ∈ blobRefs d.2 -> 0 <= ref_size ref) ->
          bucketBytes w' + acc'.1 <= bucketBytes w + acc.1)).
Proof.
  revert acc w. induction l as [|file rest IH]; intros acc w.
  - cbn [cleanupLoop]. intros [= <- <-]. split; [done|]. intros _.
    split; intros _; lia.
  - cbn [cleanupLoop].
    destruct (Qle_bool sizeToFree (inject_Z acc.1)).
    { intros [= <- <-]. split; [done|]. intros _. split; intros _; lia. }
    destruct (deleteFileCompletely_effect file w)
      as (res & w1 & Hdel & _ & _ & Hrej & _ & _ & Hok & Hfail).
    destruct (deleteFileCompletely_accounting _ _ _ _ Hdel)
      as (Hsub1 & Hle1 & Hok1).
    assert ((forall d : ObjectId * FileDoc,
                d ∈ file :: rest -> accurateSizes w d.2) ->
            forall d : ObjectId * FileDoc, d ∈ rest -> accurateSizes w1 d.2)
      as Hacc1.
    { intros Hacc d Hd ref b Href Hb.
      apply (Hacc d); [by right|done|by apply Hsub1]. }
    unfold bind at 1.
    destruct (decide (doc_id file ∈ deleteRejected w)) as [Hin|Hnin].
    + destruct (Hfail Hin) as [-> _].
      rewrite (try_catch_Throw _ _ _ _ _ (bind_Throw _ _ _ _ _ Hdel)).
      unfold ret at 1. intros Hrun. apply IH in Hrun as [Hsub Hbytes].
      split; [by eauto|]. intros Hacc.
      destruct (Hbytes (Hacc1 Hacc)) as [_ Hle]. split.
      * intros Hnone. exfalso. apply (Hnone file); [left|done].
      * intros Hnn.
        assert (bucketBytes w1 <= bucketBytes w) as H1.
        { apply Hle1; [apply Hacc; left|].
          intros ref Href. apply (Hnn file); [left|done]. }
        assert (bucketBytes w' + acc'.1 <= bucketBytes w1 + acc.1) as H2.
        { apply Hle. intros d ref Hd. apply Hnn. by right. }
        lia.
    + destruct (Hok Hnin) as (r & -> & _).
      destruct (Hok1 r eq_refl) as (_ & Hbytes1 & Hbound1).
      rewrite (try_catch_Ok _ _ _ _ _ (bind_Ok _ _ _ _ _ Hdel)).
      intros Hrun. apply IH in Hrun as [Hsub Hbytes].
      cbn [fst snd] in *.
      split; [by eauto|]. intros Hacc.
      destruct (Hbytes (Hacc1 Hacc)) as [Heq Hle].
      rewrite Hrej in Heq.
      specialize (Hbytes1 (Hacc file ltac:(left))).
      split.
      * intros Hnone. rewrite Heq by (intros d Hd; apply Hnone; by right).
        lia.
      * intros Hnn.
        assert (bucketBytes w' + acc'.1
                <= bucketBytes w1 + (acc.1 + deletedSize r)) as H2.
        { apply Hle. intros d ref Hd. apply Hnn. by right. }
        lia.
Qed.

Lemma length_cursor_limit_pos n l :
  0 < n -> length (cursor_limit n l) = Nat.min (Z.to_nat n) (length l).
Proof. intros Hn. by rewrite cursor_limit_pos, length_take. Qed.

(** The completed records Phase 2 finds after Phase 1 are the completed
    records of the start: Phase 1 deletes candidates only. *)
Lemma completed_after_phase1 w w1 (ids1 : list ObjectId) :
  (forall id, id ∈ ids1 -> id ∈ doc_id <$> phase1Candidates w) ->
  (forall id, files w1 !! id
              = if decide (id ∈ ids1) then None else files w !! id) ->
  filter (fun d : ObjectId * FileDoc =>
            bool_decide (status d.2 = completed) = true)
         (map_to_list (files w1))
  ≡ₚ filter (fun d : ObjectId * FileDoc =>
               bool_decide (status d.2 = completed) = true)
            (map_to_list (files w)).
Proof.
  intros Hids Hf. apply NoDup_Permutation.
  - apply NoDup_filter, NoDup_map_to_list.
  - apply NoDup_filter, NoDup_map_to_list.
  - intros d.
    assert (forall m : gmap ObjectId FileDoc,
               d ∈ filter (fun d : ObjectId * FileDoc =>
                             bool_decide (status d.2 = completed) = true)
                          (map_to_list m)
               <-> m !! d.1 = Some d.2
                   /\ bool_decide (status d.2 = completed) = true) as Hel.
    { intros m. rewrite list_elem_of_filter. destruct d as [i x].
      rewrite elem_of_map_to_list. cbn. tauto. }
    rewrite !Hel, Hf. destruct (decide _) as [Hin|Hnot]; [|done].
    split; [by intros [? _]|]. intros [Hlook Hst%bool_decide_eq_true].
    exfalso. apply Hids, list_elem_of_fmap in Hin as (c & Hid & Hc).
    apply elem_of_phase1Candidates in Hc as [Hlook' Hcand].
    unfold doc_id in Hid. rewrite <- Hid in Hlook'.
    apply candidate_not_completed in Hcand. congruence.
Qed.

Lemma length_phase2Batch_after_phase1 w w1 (ids1 : list ObjectId) :
  (forall id, id ∈ ids1 -> id ∈ doc_id <$> phase1Candidates w) ->
  (forall id, files w1 !! id
              = if decide (id ∈ ids1) then None else files w !! id) ->
  length (phase2Batch w1)
  = Nat.min 100
      (length (filter (fun d : ObjectId * FileDoc =>
                         bool_decide (status d.2 = completed) = true)
                      (map_to_list (files w)))).
Proof.
  intros Hids Hf. unfold phase2Batch.
  rewrite length_cursor_limit_pos by done.
  by rewrite length_sort_createdAt, (completed_after_phase1 w w1 ids1 Hids Hf).
Qed.

Lemma length_log (dnew : list DeleteResult) (l : list (ObjectId * FileDoc))
    (P : ObjectId * FileDoc -> Prop) `{!forall d, Decision (P d)} k :
  fileId <$> dnew = doc_id <$> filter P (take k l) ->
  (length dnew <= length l)%nat.
Proof.
  intros Hids. apply (f_equal length) in Hids.
  rewrite !length_fmap in Hids.
  pose proof (length_filter P (take k l)) as Hle.
  rewrite length_take in Hle. lia.
Qed.

Lemma logged_ids_are_candidates w k1 (d1 : list DeleteResult) :
  fileId <$> d1
  = doc_id <$> filter (fun d : ObjectId * FileDoc => d.1 ∉ deleteRejected w)
                      (take k1 (phase1Candidates w)) ->
  forall id, id ∈ fileId <$> d1 -> id ∈ doc_id <$> phase1Candidates w.
Proof.
  intros -> id (d & -> & Hd)%list_elem_of_fmap.
  apply list_elem_of_fmap_2. by apply elem_of_filter_take in Hd.
Qed.

(** A run of [performAutoCleanup] that returns, with its accounting. *)
Lemma performAutoCleanup_run limits targetPercent w res w' :
  performAutoCleanup limits targetPercent w = (Ok res, w') ->
  let toFree :=
    bytesToFree limits targetPercent (statsOf limits (gridfsFilesOf w)) in
  let freed := sumZ (deletedSize <$> deletedFiles res) in
  gridfsAvailable w = true
  /\ gridfsAvailable w' = true
  /\ now w' = now w
  /\ initialStats res = statsOf limits (gridfsFilesOf w)
  /\ finalStats res = statsOf limits (gridfsFilesOf w')
  /\ (forall k b, bucket w' !! k = Some b -> bucket w !! k = Some b)
  /\ ((toFree <= 0)%Q ->
      w' = w /\ deletedFiles res = [] /\ freedSize res = None
      /\ cr_message res = AlreadyBelowTarget)
  /\ (~ (toFree <= 0)%Q ->
      freedSize res = Some freed
      /\ freedSizeMB res = Some (toFixed2 (inject_Z freed / inject_Z MB))
      /\ cr_message res = CleanupCompleted (length (deletedFiles res))
      /\ ((forall id doc, files w !! id = Some doc -> accurateSizes w doc) ->
          ((forall id doc, files w !! id = Some doc ->
                           id ∉ deleteRejected w) ->
           bucketBytes w' + freed = bucketBytes w)
          /\ ((forall id doc ref,
                  files w !! id = Some doc -> ref ∈ blobRefs doc ->
                  0 <= ref_size ref) ->
              bucketBytes w' + freed <= bucketBytes w))
      /\ (length (deletedFiles res)
          <= length (phase1Candidates w) + 100)%nat).
Proof.
  unfold performAutoCleanup. rewrite try_catch_rethrow. unfold bind at 1.
  destruct (getStorageStats limits w) as [[st|e] w0] eqn:Hst; [|done].
  apply getStorageStats_inv in Hst as [-> [[Hav Hst]|[_ ?]]]; [|done].
  injection Hst as ->. unfold bytesToFree. cbv zeta.
  change (totalSize (statsOf limits (gridfsFilesOf w)))
    with (sumLengths (gridfsFilesOf w)).
  set (toFree := (inject_Z (sumLengths (gridfsFilesOf w))
                  - inject_Z (MAX_STORAGE limits)
                    * default (TARGET_AFTER_CLEANUP limits) targetPercent)%Q).
  destruct (Qle_bool toFree 0) eqn:Hearly.
  { intros [= <- <-]. cbn [deletedFiles initialStats finalStats freedSize
                           freedSizeMB cr_message].
    do 6 (split; [done|]). split; [done|].
    intros Hne. by apply Qle_bool_iff in Hearly. }
  apply Qle_bool_false in Hearly.
  rewrite (bind_Ok _ _ _ _ _ (getCleanupCandidates_run w)).
  destruct (cleanupLoop_spec toFree (phase1Candidates w) (0, []) w)
    as (k1 & d1 & w1 & Hrun1 & Hids1 & _ & _ & Hav1 & Hnow1 & Hrej1 & _
        & Hf1 & _).
  destruct (cleanupLoop_accounting _ _ _ _ _ _ Hrun1) as [Hsub1 Hbytes1].
  rewrite (bind_Ok _ _ _ _ _ Hrun1). cbn [fst snd] in *.
  rewrite app_nil_l in *. rewrite Z.add_0_l in *.
  pose proof (length_log _ _ _ _ Hids1) as Hlen1.
  assert ((forall id doc, files w !! id = Some doc -> accurateSizes w doc) ->
          forall d : ObjectId * FileDoc,
            d ∈ phase1Candidates w -> accurateSizes w d.2) as Hacc1.
  { intros Hacc d [Hd _]%elem_of_phase1Candidates. by apply (Hacc d.1). }
  assert ((forall id doc, files w !! id = Some doc -> id ∉ deleteRejected w) ->
          forall d : ObjectId * FileDoc,
            d ∈ phase1Candidates w -> d.1 ∉ deleteRejected w) as Hok1.
  { intros Hno d [Hd _]%elem_of_phase1Candidates. by apply (Hno d.1 d.2). }
  assert ((forall id doc ref,
              files w !! id = Some doc -> ref ∈ blobRefs doc ->
              0 <= ref_size ref) ->
          forall (d : ObjectId * FileDoc) ref,
            d ∈ phase1Candidates w -> ref ∈ blobRefs d.2 ->
            0 <= ref_size ref) as Hnn1.
  { intros Hnn d ref [Hd _]%elem_of_phase1Candidates Href.
    by apply (Hnn d.1 d.2). }
  destruct (Qle_bool toFree (inject_Z (sumZ (deletedSize <$> d1)))) eqn:Hmet;
    cbn [negb].
  - unfold bind at 1, ret at 1.
    rewrite (bind_Ok _ _ _ _ _
               (getStorageStats_available limits w1 ltac:(congruence))).
    intros [= <- <-]. cbn [deletedFiles initialStats finalStats freedSize
                           freedSizeMB cr_message].
    split; [done|]. split; [congruence|]. split; [done|].
    split; [done|]. split; [done|]. split; [done|].
    split; [done|]. intros _.
    split; [done|]. split; [done|]. split; [done|].
    split; [|lia].
    intros Hacc. destruct (Hbytes1 (Hacc1 Hacc)) as [Heq Hle]. split.
    + intros Hno. rewrite Heq by auto. lia.
    + intros Hnn. specialize (Hle (Hnn1 Hnn)). lia.
  - destruct (cleanupLoop_spec toFree (phase2Batch w1)
                (sumZ (deletedSize <$> d1), d1) w1)
      as (k2 & d2 & w2 & Hrun2 & Hids2 & _ & _ & Hav2 & Hnow2 & _).
    destruct (cleanupLoop_accounting _ _ _ _ _ _ Hrun2) as [Hsub2 Hbytes2].
    cbn [fst snd] in *.
    assert (forall (k : Z * list DeleteResult -> M CleanupResult),
              bind (oldFiles <~
                      (found <~ File_find
                                  (fun f => bool_decide (status f = completed)) ;;
                       ret (cursor_limit 100 (sort_createdAt found))) ;;
                    cleanupLoop toFree oldFiles
                      (sumZ (deletedSize <$> d1), d1)) k w1
              = k (sumZ (deletedSize <$> d1) + sumZ (deletedSize <$> d2),
                   d1 ++ d2) w2) as ->.
    { intros k. apply bind_Ok. rewrite <- Hrun2. reflexivity. }
    rewrite (bind_Ok _ _ _ _ _
               (getStorageStats_available limits w2 ltac:(congruence))).
    intros [= <- <-]. cbn [deletedFiles initialStats finalStats freedSize
                           freedSizeMB cr_message fst snd].
    pose proof (length_log _ _ _ _ Hids2) as Hlen2.
    pose proof (length_phase2Batch_after_phase1 w w1 (fileId <$> d1)
                  (logged_ids_are_candidates _ _ _ Hids1) Hf1) as Hbatch.
    rewrite fmap_app, sumZ_app, length_app.
    split; [done|]. split; [congruence|]. split; [congruence|].
    split; [done|]. split; [done|]. split; [by eauto|].
    split; [done|]. intros _.
    split; [done|]. split; [done|]. split; [done|].
    split; [|lia].
    intros Hacc. destruct (Hbytes1 (Hacc1 Hacc)) as [Heq1 Hle1].
    assert (forall d : ObjectId * FileDoc,
               d ∈ phase2Batch w1 -> files w !! d.1 = Some d.2) as Hin2.
    { intros d [Hd _]%elem_of_phase2Batch.
      rewrite Hf1 in Hd. by destruct (decide _). }
    destruct Hbytes2 as [Heq2 Hle2].
    { intros d Hd ref b Href Hb.
      apply (Hacc d.1 d.2 (Hin2 d Hd) ref b Href). by apply Hsub1. }
    split.
    + intros Hno.
      assert (bucketBytes w2
              + (sumZ (deletedSize <$> d1) + sumZ (deletedSize <$> d2))
              = bucketBytes w1 + sumZ (deletedSize <$> d1)) as ->.
      { apply Heq2. intros d Hd. rewrite Hrej1.
        apply (Hno d.1 d.2). by apply Hin2. }
      rewrite Heq1 by auto. lia.
    + intros Hnn.
      assert (bucketBytes w2
              + (sumZ (deletedSize <$> d1) + sumZ (deletedSize <$> d2))
              <= bucketBytes w1 + sumZ (deletedSize <$> d1)) as H2.
      { apply Hle2. intros d ref Hd Href.
        apply (Hnn d.1 d.2); [by apply Hin2|done]. }
      specialize (Hle1 (Hnn1 Hnn)). lia.
Qed.

Lemma allAccurate_check w :
  forallb (fun d : ObjectId * FileDoc =>
             forallb (fun ref =>
                        match bucket w !! ref_id ref with
                        | Some b => blob_length b =? ref_size ref
                        | None => true
                        end) (blobRefs d.2))
          (map_to_list (files w)) = true ->
  forall id doc, files w !! id = Some doc -> accurateSizes w doc.
Proof.
  intros Hall id doc Hdoc. apply accurateSizes_check.
  rewrite forallb_forall in Hall.
  apply (Hall (id, doc)). apply list_elem_of_In.
  by apply elem_of_map_to_list.
Qed.

Lemma allNonneg_check w :
  forallb (fun d : ObjectId * FileDoc =>
             forallb (fun ref => 0 <=? ref_size ref) (blobRefs d.2))
          (map_to_list (files w)) = true ->
  forall id doc ref,
    files w !! id = Some doc -> ref ∈ blobRefs doc -> 0 <= ref_size ref.
Proof.
  intros Hall id doc ref Hdoc Href. rewrite forallb_forall in Hall.
  assert (In (id, doc) (map_to_list (files w))) as Hin
    by (by apply list_elem_of_In, elem_of_map_to_list).
  apply Hall in Hin. rewrite forallb_forall in Hin.
  apply list_elem_of_In, Hin in Href. lia.
Qed.


(** X13.  What a returning run of [performAutoCleanup] reports agrees with
    its log: when it reports freed bytes they are the sum of the
    [deletedSize] of the logged deletions, with the megabytes derived from
    that sum and the message counting the log; when it reports none, the
    log is empty and nothing was touched.  A run deletes at most a hundred
    records beyond the cleanup candidates, and it never adds a blob. *)
Theorem performAutoCleanup_reports_its_log
    (limits : StorageLimits) (targetPercent : option Q) (w w' : World)
    (res : CleanupResult) :
  performAutoCleanup limits targetPercent w = (Ok res, w') ->
  match freedSize res with
  | Some freed =>
      freed = sumZ (deletedSize <$> deletedFiles res)
      /\ freedSizeMB res = Some (toFixed2 (inject_Z freed / inject_Z MB))
      /\ cr_message res = CleanupCompleted (length (deletedFiles res))
  | None =>
      deletedFiles res = [] /\ w' = w
      /\ cr_message res = AlreadyBelowTarget
      /\ finalStats res = initialStats res
  end
  /\ (length (deletedFiles res) <= length (phase1Candidates w) + 100)%nat
  /\ (forall k b, bucket w' !! k = Some b -> bucket w !! k = Some b)
  /\ gridfsAvailable w' = gridfsAvailable w
  /\ now w' = now w.
Proof.
  intros Hrun. apply performAutoCleanup_run in Hrun.
  cbv zeta in Hrun.
  destruct Hrun as (Hav & Hav' & Hnow & Hinit & Hfinal & Hsub & Hearly & Hlate).
  split; [|split; [|split; [done|split; [congruence|done]]]].
  - destruct (Qlt_le_dec 0
                (bytesToFree limits targetPercent
                   (statsOf limits (gridfsFilesOf w)))) as [Hpos|Hneg].
    + apply Qlt_not_le in Hpos.
      destruct (Hlate Hpos) as (-> & HMB & Hmsg & _). done.
    + destruct (Hearly Hneg) as (-> & Hlog & -> & Hmsg).
      by rewrite Hfinal, Hinit.
  - destruct (Qlt_le_dec 0
                (bytesToFree limits targetPercent
                   (statsOf limits (gridfsFilesOf w)))) as [Hpos|Hneg].
    + apply Qlt_not_le in Hpos. by apply Hlate.
    + destruct (Hearly Hneg) as (_ & -> & _). cbn. lia.
Qed.

Lemma performAutoCleanup_reports_its_log_witness :
  exists res w',
    performAutoCleanup limits1000 None world_two_phases = (Ok res, w')
    /\ match freedSize res with
       | Some freed =>
           freed = sumZ (deletedSize <$> deletedFiles res)
           /\ freedSizeMB res = Some (toFixed2 (inject_Z freed / inject_Z MB))
           /\ cr_message res = CleanupCompleted (length (deletedFiles res))
       | None =>
           deletedFiles res = [] /\ w' = world_two_phases
           /\ cr_message res = AlreadyBelowTarget
           /\ finalStats res = initialStats res
       end
    /\ (length (deletedFiles res)
        <= length (phase1Candidates world_two_phases) + 100)%nat
    /\ (forall k b,
          bucket w' !! k = Some b -> bucket world_two_phases !! k = Some b)
    /\ gridfsAvailable w' = gridfsAvailable world_two_phases
    /\ now w' = now world_two_phases.
Proof.
  eexists _, _. split; [vm_compute; reflexivity|].
  eapply (performAutoCleanup_reports_its_log limits1000 None
            world_two_phases).
  vm_compute. reflexivity.
Defined.



Lemma NoDup_phase2Batch w : NoDup (doc_id <$> phase2Batch w).
Proof.
  unfold phase2Batch. rewrite cursor_limit_pos by done.
  rewrite fmap_take.
  eapply sublist_NoDup; [|apply sublist_take].
  apply (NoDup_sort_filter
           (fun d : ObjectId * FileDoc =>
              bool_decide (status d.2 = completed) = true)).
Qed.

(** X15.  With accurate and non-negative recorded sizes, a run of
    [performAutoCleanup] ends at or below the target usage, unless it has
    tried every cleanup candidate and the whole batch of the oldest
    completed records, which is a hundred of them or all there are: the
    blobs of each of those records are gone, and its record is gone
    unless the collection rejects its deletion. *)
Theorem performAutoCleanup_reaches_target_or_exhausts
    (limits : StorageLimits) (targetPercent : option Q) (w w' : World)
    (res : CleanupResult) :
  (forall id doc, files w !! id = Some doc -> accurateSizes w doc) ->
  (forall id doc ref,
      files w !! id = Some doc -> ref ∈ blobRefs doc -> 0 <= ref_size ref) ->
  performAutoCleanup limits targetPercent w = (Ok res, w') ->
  (inject_Z (totalSize (finalStats res))
   <= inject_Z (MAX_STORAGE limits)
      * default (TARGET_AFTER_CLEANUP limits) targetPercent)%Q
  \/ ((forall d : ObjectId * FileDoc,
          d ∈ phase1Candidates w ->
          (files w' !! d.1 = None \/ d.1 ∈ deleteRejected w)
          /\ forall ref, ref ∈ blobRefs d.2 ->
                         bucket w' !! ref_id ref = None)
      /\ exists batch : list (ObjectId * FileDoc),
           length batch
           = Nat.min 100
               (length (filter (fun d : ObjectId * FileDoc =>
                                  bool_decide (status d.2 = completed) = true)
                               (map_to_list (files w))))
           /\ NoDup (doc_id <$> batch)
           /\ forall d : ObjectId * FileDoc,
                d ∈ batch ->
                files w !! d.1 = Some d.2
                /\ status d.2 = completed
                /\ (files w' !! d.1 = None \/ d.1 ∈ deleteRejected w)
                /\ forall ref, ref ∈ blobRefs d.2 ->
                               bucket w' !! ref_id ref = None).
Proof.
  intros Hacc Hnn Hrun.
  destruct (performAutoCleanup_phases _ _ _ _ _ Hrun)
    as (k1 & k2 & d1 & d2 & w1 & Hlog & Hids1 & Hids2 & _ & _
        & Hf1 & Hf2 & Hgone & Hstop).
  apply performAutoCleanup_run in Hrun. cbv zeta in Hrun.
  destruct Hrun as (_ & _ & _ & Hinit & Hfinal & _ & Hearly & Hlate).
  rewrite Hinit, Hfinal in *. clear Hinit Hfinal.
  change (totalSize (statsOf limits (gridfsFilesOf w'))) with (bucketBytes w').
  unfold bytesToFree in *.
  change (totalSize (statsOf limits (gridfsFilesOf w)))
    with (bucketBytes w) in *.
  rewrite <- Hlog in Hstop.
  destruct Hstop as [Hmet|[[-> ->]|Hzero]].
  - left.
    destruct (Qlt_le_dec 0
                (inject_Z (bucketBytes w)
                 - inject_Z (MAX_STORAGE limits)
                   * default (TARGET_AFTER_CLEANUP limits) targetPercent))
      as [Hpos|Hneg].
    + apply Qlt_not_le in Hpos.
      destruct (Hlate Hpos) as (_ & _ & _ & Hbytes & _).
      destruct (Hbytes Hacc) as [_ Hle]. specialize (Hle Hnn).
      apply Qle_trans
        with (inject_Z (bucketBytes w
                        - sumZ (deletedSize <$> deletedFiles res))).
      { rewrite <- Zle_Qle. lia. }
      unfold Z.sub. rewrite inject_Z_plus, inject_Z_opp.
      apply (Qplus_le_l _ _
               (inject_Z (sumZ (deletedSize <$> deletedFiles res))
                - inject_Z (MAX_STORAGE limits)
                  * default (TARGET_AFTER_CLEANUP limits) targetPercent)).
      ring_simplify. ring_simplify in Hmet.
      eapply Qle_trans; [|exact Hmet]. ring_simplify. apply Qle_refl.
    + destruct (Hearly Hneg) as (-> & _). by apply Qle_sub_0.
  - right.
    rewrite !take_ge in * by done.
    assert (forall d : ObjectId * FileDoc,
               d ∈ phase1Candidates w \/ d ∈ phase2Batch w1 ->
               d.1 ∉ deleteRejected w -> files w' !! d.1 = None) as Hdeleted.
    { intros d Hd Hok. rewrite Hf2, Hf1.
      destruct (decide (d.1 ∈ fileId <$> d2)); [done|].
      destruct (decide (d.1 ∈ fileId <$> d1)) as [|Hn1]; [done|].
      exfalso. destruct Hd as [Hd|Hd].
      - apply Hn1. rewrite Hids1. apply (list_elem_of_fmap_2 doc_id).
        by apply list_elem_of_filter.
      - apply n. rewrite Hids2. apply (list_elem_of_fmap_2 doc_id).
        by apply list_elem_of_filter. }
    split.
    + intros d Hd. split.
      * destruct (decide (d.1 ∈ deleteRejected w)); [by right|left].
        apply Hdeleted; [by left|done].
      * intros ref Href. apply (Hgone d ref); [|done].
        apply elem_of_app. by left.
    + exists (phase2Batch w1). split; [|split].
      * apply (length_phase2Batch_after_phase1 w w1 (fileId <$> d1)); [|done].
        rewrite <- (take_ge (phase1Candidates w)
                      (length (phase1Candidates w))) in Hids1 by done.
        by apply (logged_ids_are_candidates _ _ _ Hids1).
      * apply NoDup_phase2Batch.
      * intros d Hd.
        pose proof (elem_of_phase2Batch _ _ Hd) as [Hlook Hst].
        rewrite Hf1 in Hlook.
        destruct (decide (d.1 ∈ fileId <$> d1)); [done|].
        split; [done|]. split; [done|]. split.
        -- destruct (decide (d.1 ∈ deleteRejected w)); [by right|left].
           apply Hdeleted; [by right|done].
        -- intros ref Href. apply (Hgone d ref); [|done].
           apply elem_of_app. by right.
  - left. destruct (Hearly Hzero) as (-> & _). by apply Qle_sub_0.
Qed.

Lemma performAutoCleanup_reaches_target_or_exhausts_witness :
  (forall id doc,
      files world_rejected_candidate !! id = Some doc ->
      accurateSizes world_rejected_candidate doc)
  /\ (forall id doc ref,
        files world_rejected_candidate !! id = Some doc ->
        ref ∈ blobRefs doc -> 0 <= ref_size ref)
  /\ exists res w',
       performAutoCleanup limits1000 None world_rejected_candidate
       = (Ok res, w')
       /\ totalSize (finalStats res) = 400
       /\ ((inject_Z (totalSize (finalStats res))
            <= inject_Z (MAX_STORAGE limits1000)
               * default (TARGET_AFTER_CLEANUP limits1000) None)%Q
           \/ ((forall d : ObjectId * FileDoc,
                   d ∈ phase1Candidates world_rejected_candidate ->
                   (files w' !! d.1 = None
                    \/ d.1 ∈ deleteRejected world_rejected_candidate)
                   /\ forall ref, ref ∈ blobRefs d.2 ->
                                  bucket w' !! ref_id ref = None)
               /\ exists batch : list (ObjectId * FileDoc),
                    length batch
                    = Nat.min 100
                        (length
                           (filter (fun d : ObjectId * FileDoc =>
                                      bool_decide (status d.2 = completed)
                                      = true)
                                   (map_to_list
                                      (files world_rejected_candidate))))
                    /\ NoDup (doc_id <$> batch)
                    /\ forall d : ObjectId * FileDoc,
                         d ∈ batch ->
                         files world_rejected_candidate !! d.1 = Some d.2
                         /\ status d.2 = completed
                         /\ (files w' !! d.1 = None
                             \/ d.1 ∈ deleteRejected world_rejected_candidate)
                         /\ forall ref, ref ∈ blobRefs d.2 ->
                                        bucket w' !! ref_id ref = None)).
Proof.
  split; [apply allAccurate_check; vm_compute; reflexivity|].
  split; [apply allNonneg_check; vm_compute; reflexivity|].
  eexists _, _. split; [vm_compute; reflexivity|].
  split; [reflexivity|].
  eapply (performAutoCleanup_reaches_target_or_exhausts limits1000 None
            world_rejected_candidate).
  - apply allAccurate_check. vm_compute. reflexivity.
  - apply allNonneg_check. vm_compute. reflexivity.
  - vm_compute. reflexivity.
Defined.

(** ** Byte accounting of the orphan scanner *)

Lemma orphanLoop_accounting orphans acc w acc' w' :
  orphanLoop orphans acc w = (Ok acc', w') ->
  (forall o b, o ∈ orphans -> bucket w !! gf_id o = Some b ->
               blob_length b = gf_length o) ->
  bucketBytes w' + acc'.2 = bucketBytes w + acc.2.
Proof.
  revert acc w. induction orphans as [|o orphans IH]; intros acc w.
  - cbn [orphanLoop]. by intros [= <- <-].
  - cbn [orphanLoop]. destruct (deletable w (gf_id o)) eqn:Hd.
    + unfold bind at 1, try_catch, bind at 1, ret.
      rewrite (deleteFromGridFS_deletable _ _ Hd).
      intros Hrun Hlen. apply IH in Hrun.
      * apply deletable_Some in Hd as [_ [b Hb]].
        rewrite (bucketBytes_delete _ _ _ Hb) in Hrun. cbn [fst snd] in Hrun.
        rewrite (Hlen o b) in Hrun by (done || left). lia.
      * intros o' b' Ho' Hb'. cbn [bucket set_bucket] in Hb'.
        apply lookup_delete_Some in Hb' as [_ Hb'].
        apply Hlen; [by right|done].
    + destruct (deleteFromGridFS_not_deletable _ _ Hd) as [e He].
      unfold bind at 1, try_catch, bind at 1, ret. rewrite He.
      intros Hrun Hlen. apply IH in Hrun; [done|].
      intros o' b' Ho'. apply Hlen. by right.
Qed.

(** X16.  On a store that answers, the orphan scan frees what it reports:
    the bytes it reports are the lengths of the blobs no record refers to,
    the usage computed after the scan is the usage before it less those
    bytes, and the number of blobs drops by the reported count. *)
Theorem cleanupOrphanedGridFSFiles_accounting
    (limits : StorageLimits) (w : World) :
  gridfsAvailable w = true ->
  exists r w' st st',
    cleanupOrphanedGridFSFiles w = (Ok r, w')
    /\ getStorageStats limits w = (Ok st, w)
    /\ getStorageStats limits w' = (Ok st', w')
    /\ or_freedSize r
       = sumZ (gf_length
               <$> filter (fun g => gf_id g
                                    ∉ referencedIds (map_to_list (files w)))
                          (gridfsFilesOf w))
    /\ totalSize st' = totalSize st - or_freedSize r
    /\ (fileCount st' + deletedCount r = fileCount st)%nat
    /\ or_message r = deletedCount r.
Proof.
  intros Hav.
  set (orphans := filter (fun g => gf_id g
                                   ∉ referencedIds (map_to_list (files w)))
                         (gridfsFilesOf w)).
  assert (forall o, o ∈ orphans ->
            bucket w !! gf_id o
            = Some {| blob_length := gf_length o;
                      blob_filename := gf_filename o |}) as Hin.
  { by intros o [_ Ho%elem_of_gridfsFilesOf]%list_elem_of_filter. }
  destruct (orphanLoop_all_deleted orphans (0%nat, 0) w)
    as (w' & Hrun & _ & Hsz).
  { done. }
  { apply NoDup_fmap_filter, NoDup_gridfsFilesOf. }
  { intros o Ho. rewrite (Hin o Ho). by eexists. }
  pose proof (orphanLoop_frame _ _ _ _ _ Hrun) as (Hav' & _ & _).
  pose proof (orphanLoop_accounting _ _ _ _ _ Hrun) as Hbytes.
  cbn [fst snd] in *.
  eexists _, w', _, _. split.
  { rewrite cleanupOrphanedGridFSFiles_available by done.
    fold orphans. rewrite (bind_Ok _ _ _ _ _ Hrun). reflexivity. }
  split; [by apply getStorageStats_available|].
  split; [apply getStorageStats_available; congruence|].
  cbn [or_freedSize deletedCount or_message fst snd].
  split; [lia|]. split; [|split; [|done]].
  - change (bucketBytes w' = bucketBytes w - (0 + sumZ (gf_length <$> orphans))).
    assert (bucketBytes w' + (0 + sumZ (gf_length <$> orphans))
            = bucketBytes w + 0); [|lia].
    apply Hbytes.
    intros o b Ho Hb. rewrite (Hin o Ho) in Hb. by injection Hb as <-.
  - unfold statsOf, gridfsFilesOf. cbn [fileCount].
    rewrite !length_fmap, !length_map_to_list. lia.
Qed.

Lemma cleanupOrphanedGridFSFiles_accounting_witness :
  gridfsAvailable world_five_blobs = true
  /\ exists r w' st st',
       cleanupOrphanedGridFSFiles world_five_blobs = (Ok r, w')
       /\ getStorageStats limits1000 world_five_blobs
          = (Ok st, world_five_blobs)
       /\ getStorageStats limits1000 w' = (Ok st', w')
       /\ totalSize st' = totalSize st - or_freedSize r.
Proof.
  split; [reflexivity|].
  destruct (cleanupOrphanedGridFSFiles_accounting limits1000 world_five_blobs)
    as (r & w' & st & st' & Hrun & Hst & Hst' & _ & Hbytes & _).
  - reflexivity.
  - by exists r, w', st, st'.
Defined.

(** ** Bulk deletion: effects on the stores *)

Lemma bulkDeleteOne_accounting arg acc w acc' w' :
  bulkDeleteOne arg acc w = (Ok acc', w') ->
  (forall k b, bucket w' !! k = Some b -> bucket w !! k = Some b)
  /\ (forall id doc, files w' !! id = Some doc -> files w !! id = Some doc)
  /\ (gridfsAvailable w = false -> bucket w' = bucket w)
  /\ ((forall id doc, files w !! id = Some doc -> accurateSizes w doc) ->
      ((forall id, arg = WellFormedId id -> id ∉ deleteRejected w) ->
       bucketBytes w' + ba_freed acc' = bucketBytes w + ba_freed acc)
      /\ ((forall id doc ref,
              files w !! id = Some doc -> ref ∈ blobRefs doc ->
              0 <= ref_size ref) ->
          bucketBytes w' + ba_freed acc' <= bucketBytes w + ba_freed acc)).
Proof.
  destruct (bulkDeleteOne_spec arg acc w)
    as (dh & eh & w1 & Hstep & _ & _ & _ & Hcase).
  rewrite Hstep. intros [= <- <-]. cbn [ba_freed].
  destruct Hcase
    as [(id & doc & r & -> & Hdoc & Hnin & -> & -> & Hid & Hf1 & Hb1)
       |[(id & doc & -> & Hdoc & Hin & -> & -> & Hf1 & Hb1)
        |[(id & -> & Hdoc & -> & -> & ->)
         |(raw & -> & -> & -> & ->)]]];
    [| |unfold sumZ; cbn [fmap list_fmap foldr];
        (split; [done|]); (split; [done|]); (split; [done|]);
        intros _; split; intros _; lia..].
  - (* the record is deleted *)
    destruct (deleteFileCompletely_effect (id, doc) w)
      as (res & w1' & Hdel & _ & _ & _ & _ & _ & Hok & _).
    destruct (Hok Hnin) as (r' & -> & _).
    assert (bulkDeleteOne (WellFormedId id) acc w
            = (Ok {| ba_deleted := ba_deleted acc ++ [r'];
                     ba_errors := ba_errors acc;
                     ba_freed := ba_freed acc + deletedSize r' |}, w1')) as Heq.
    { unfold bulkDeleteOne. apply try_catch_Ok.
      rewrite (bind_Ok _ _ _ _ _ (File_findById_wellformed id w)).
      rewrite Hdoc. cbn [fmap option_fmap option_map].
      by rewrite (bind_Ok _ _ _ _ _ Hdel). }
    rewrite Heq in Hstep. injection Hstep as Hlog _ _ <-.
    apply app_inv_head in Hlog. injection Hlog as ->.
    destruct (deleteFileCompletely_accounting _ _ _ _ Hdel)
      as (Hsub & _ & Hok1).
    destruct (Hok1 r eq_refl) as (_ & Hbytes & _).
    split; [done|]. split; [|split].
    + intros k d. rewrite Hf1. by intros [_ ?]%lookup_delete_Some.
    + intros Hav. apply map_eq. intros k. rewrite Hb1, decide_False; [done|].
      rewrite Hav. by intros [? _].
    + intros Hacc. rewrite fmap_cons, fmap_nil, sumZ_cons. unfold sumZ.
      cbn [foldr]. rewrite Hbytes by (by apply (Hacc id)).
      split; intros _; lia.
  - (* the collection rejects the deletion *)
    destruct (deleteFileCompletely_effect (id, doc) w)
      as (res & w1' & Hdel & _ & _ & _ & _ & _ & _ & Hfail).
    destruct (Hfail Hin) as (-> & _).
    assert (bulkDeleteOne (WellFormedId id) acc w
            = (Ok {| ba_deleted := ba_deleted acc;
                     ba_errors :=
                       ba_errors acc
                       ++ [{| ie_fileId := WellFormedId id;
                              ie_error := message (RecordDeleteFailed id) |}];
                     ba_freed := ba_freed acc |}, w1')) as Heq.
    { unfold bulkDeleteOne.
      erewrite try_catch_Throw; [reflexivity|].
      rewrite (bind_Ok _ _ _ _ _ (File_findById_wellformed id w)).
      rewrite Hdoc. cbn [fmap option_fmap option_map].
      apply bind_Throw. exact Hdel. }
    rewrite Heq in Hstep. injection Hstep as _ _ <-.
    destruct (deleteFileCompletely_accounting _ _ _ _ Hdel)
      as (Hsub & Hle & _).
    split; [done|]. split; [|split].
    + intros k d. by rewrite Hf1.
    + intros Hav. apply map_eq. intros k. rewrite Hb1, decide_False; [done|].
      rewrite Hav. by intros [? _].
    + intros Hacc. unfold sumZ. cbn [fmap list_fmap foldr]. split.
      * intros Hno. exfalso. by apply (Hno id).
      * intros Hnn.
        assert (bucketBytes w1' <= bucketBytes w); [|lia].
        apply Hle; [by apply (Hacc id)|].
        intros ref Href. by apply (Hnn id doc).
Qed.

Lemma bulkDeleteLoop_accounting fileIds acc w acc' w' :
  bulkDeleteLoop fileIds acc w = (Ok acc', w') ->
  (forall k b, bucket w' !! k = Some b -> bucket w !! k = Some b)
  /\ (gridfsAvailable w = false -> bucket w' = bucket w)
  /\ ((forall id doc, files w !! id = Some doc -> accurateSizes w doc) ->
      ((forall id, WellFormedId id ∈ fileIds -> id ∉ deleteRejected w) ->
       bucketBytes w' + ba_freed acc' = bucketBytes w + ba_freed acc)
      /\ ((forall id doc ref,
              files w !! id = Some doc -> ref ∈ blobRefs doc ->
              0 <= ref_size ref) ->
          bucketBytes w' + ba_freed acc' <= bucketBytes w + ba_freed acc)).
Proof.
  revert acc w. induction fileIds as [|arg rest IH]; intros acc w.
  - cbn [bulkDeleteLoop]. intros [= <- <-]. split; [done|]. split; [done|].
    intros _. split; intros _; lia.
  - cbn [bulkDeleteLoop]. unfold bind at 1.
    destruct (bulkDeleteOne arg acc w) as [[acc1|e] w1] eqn:Hstep; [|done].
    intros Hrun. apply IH in Hrun as (Hsub & Hun & Hbytes).
    destruct (bulkDeleteOne_spec arg acc w)
      as (? & ? & ? & Hs & Hav1 & _ & Hrej1 & _).
    rewrite Hstep in Hs. injection Hs as _ <-.
    apply bulkDeleteOne_accounting in Hstep
      as (Hsub1 & Hfiles1 & Hun1 & Hbytes1).
    split; [by eauto|]. split.
    + intros Hav. rewrite Hun, Hun1 by congruence. done.
    + intros Hacc. destruct (Hbytes1 Hacc) as [Heq1 Hle1].
      destruct Hbytes as [Heq Hle].
      { intros id doc Hdoc ref b Href Hb.
        apply (Hacc id doc); [by apply Hfiles1|done|by apply Hsub1]. }
      split.
      * intros Hno. rewrite Heq, Heq1; [done| |].
        -- intros id ->. apply Hno. left.
        -- intros id Hid. rewrite Hrej1. apply Hno. by right.
      * intros Hnn.
        assert (bucketBytes w' + ba_freed acc'
                <= bucketBytes w1 + ba_freed acc1) as H2.
        { apply Hle. intros id doc ref Hdoc. apply (Hnn id doc).
          by apply Hfiles1. }
        specialize (Hle1 Hnn). lia.
Qed.

(** X17.  On a blob store that does not answer, [deleteMultipleFiles]
    answers 500 for a non-empty list of ids, yet it has removed by then
    the record of every listed id whose deletion the collection accepts,
    and none of their blobs. *)
Theorem deleteMultipleFiles_unavailable_store
    (limits : StorageLimits) (fileIds : list IdArg) (w : World) :
  fileIds ≠ [] ->
  gridfsAvailable w = false ->
  exists w',
    deleteMultipleFiles limits (Some fileIds) w
    = (Ok (Status500 "Error deleting files" (message StoreUnavailable)), w')
    /\ bucket w' = bucket w
    /\ (forall id, files w' !! id
                   = if decide (WellFormedId id ∈ fileIds
                                /\ id ∉ deleteRejected w) then None
                     else files w !! id).
Proof.
  intros Hne Hav.
  destruct (bulkDeleteLoop_spec fileIds
              {| ba_deleted := []; ba_errors := []; ba_freed := 0 |} w)
    as (dnew & enew & w' & Hrun & _ & Hav' & _ & _ & Hfiles & _).
  destruct (bulkDeleteLoop_accounting _ _ _ _ _ Hrun) as (_ & Hun & _).
  exists w'. split; [|split; [by apply Hun|done]].
  unfold deleteMultipleFiles.
  destruct fileIds as [|arg rest]; [done|].
  erewrite try_catch_Throw; [reflexivity|].
  rewrite (bind_Ok _ _ _ _ _ Hrun).
  apply bind_Throw. apply getStorageStats_unavailable. congruence.
Qed.

Lemma deleteMultipleFiles_unavailable_store_witness :
  [WellFormedId 10%N] ≠ []
  /\ gridfsAvailable
       (worldOf false [(1%N, 100)]
          [(10%N, docOf "failed.pdf" failed 1%N 100 5)] 0) = false
  /\ exists w',
       deleteMultipleFiles limits1000 (Some [WellFormedId 10%N])
         (worldOf false [(1%N, 100)]
            [(10%N, docOf "failed.pdf" failed 1%N 100 5)] 0)
       = (Ok (Status500 "Error deleting files" (message StoreUnavailable)), w')
       /\ files w' !! 10%N = None
       /\ is_Some (bucket w' !! 1%N).
Proof.
  split; [done|]. split; [reflexivity|].
  destruct (deleteMultipleFiles_unavailable_store limits1000
              [WellFormedId 10%N]
              (worldOf false [(1%N, 100)]
                 [(10%N, docOf "failed.pdf" failed 1%N 100 5)] 0))
    as (w' & Hrun & Hb & Hf).
  - done.
  - reflexivity.
  - exists w'. split; [done|]. split.
    + rewrite Hf. vm_compute. reflexivity.
    + rewrite Hb. vm_compute. by eexists.
Defined.

(** X18.  With accurate recorded sizes, [currentStats] of a 200 answer of
    [deleteMultipleFiles] is the snapshot of the bucket after the request,
    and its usage is the usage before the request less the
    [totalFreedSize] it reports, provided the collection rejects the
    deletion of none of the listed records.  When it rejects some, their
    blobs are deleted but not counted: with non-negative sizes the usage
    reported is then at most the usage before less [totalFreedSize]. *)
Theorem deleteMultipleFiles_usage_after
    (limits : StorageLimits) (fileIds : list IdArg) (w w' : World)
    (body : BulkDeleteBody) :
  (forall id doc, files w !! id = Some doc -> accurateSizes w doc) ->
  deleteMultipleFiles limits (Some fileIds) w = (Ok (Status200 body), w') ->
  currentStats body = statsOf limits (gridfsFilesOf w')
  /\ ((forall id, WellFormedId id ∈ fileIds -> id ∉ deleteRejected w) ->
      totalSize (currentStats body) = bucketBytes w - totalFreedSize body)
  /\ ((forall id doc ref,
          files w !! id = Some doc -> ref ∈ blobRefs doc ->
          0 <= ref_size ref) ->
      totalSize (currentStats body) <= bucketBytes w - totalFreedSize body).
Proof.
  intros Hacc. unfold deleteMultipleFiles.
  destruct fileIds as [|arg rest].
  { cbv [try_catch ret]. done. }
  destruct (bulkDeleteLoop_spec (arg :: rest)
              {| ba_deleted := []; ba_errors := []; ba_freed := 0 |} w)
    as (dnew & enew & w1 & Hrun & _ & Hav' & _).
  destruct (bulkDeleteLoop_accounting _ _ _ _ _ Hrun) as (_ & _ & Hbytes).
  destruct (Hbytes Hacc) as [Heq Hle]. cbn [ba_freed] in Heq, Hle.
  destruct (gridfsAvailable w) eqn:Hav.
  - erewrite try_catch_Ok;
      [|rewrite (bind_Ok _ _ _ _ _ Hrun);
        rewrite (bind_Ok _ _ _ _ _
                   (getStorageStats_available limits w1 ltac:(congruence)));
        reflexivity].
    intros [= <- <-]. cbn [currentStats totalFreedSize ba_freed].
    split; [done|].
    change (totalSize (statsOf limits (gridfsFilesOf w1)))
      with (bucketBytes w1).
    split; [intros Hno; specialize (Heq Hno)|intros Hnn; specialize (Hle Hnn)];
      lia.
  - erewrite try_catch_Throw;
      [|rewrite (bind_Ok _ _ _ _ _ Hrun);
        apply bind_Throw, getStorageStats_unavailable; congruence].
    done.
Qed.

Lemma deleteMultipleFiles_usage_after_witness :
  ((forall id doc,
       files world_two_phases !! id = Some doc ->
       accurateSizes world_two_phases doc)
   /\ exists body w',
        deleteMultipleFiles limits1000
          (Some [WellFormedId 10%N; WellFormedId 99%N; WellFormedId 20%N])
          world_two_phases
        = (Ok (Status200 body), w')
        /\ totalFreedSize body = 500
        /\ totalSize (currentStats body)
           = bucketBytes world_two_phases - totalFreedSize body)
  /\ ((forall id doc,
          files world_rejected_candidate !! id = Some doc ->
          accurateSizes world_rejected_candidate doc)
      /\ exists body w',
           deleteMultipleFiles limits1000
             (Some [WellFormedId 10%N; WellFormedId 99%N; WellFormedId 20%N])
             world_rejected_candidate
           = (Ok (Status200 body), w')
           /\ totalFreedSize body = 400
           /\ totalSize (currentStats body) = 400
           /\ totalSize (currentStats body)
              <= bucketBytes world_rejected_candidate - totalFreedSize body).
Proof.
  split.
  - split; [apply allAccurate_check; vm_compute; reflexivity|].
    eexists _, _. split; [vm_compute; reflexivity|].
    split; [reflexivity|].
    refine (proj1 (proj2 (deleteMultipleFiles_usage_after limits1000
                            [WellFormedId 10%N; WellFormedId 99%N;
                             WellFormedId 20%N]
                            world_two_phases _ _ _ _)) _);
      first [apply allAccurate_check; vm_compute; reflexivity
            |vm_compute; reflexivity
            |intros id Hid; apply not_elem_of_empty].
  - split; [apply allAccurate_check; vm_compute; reflexivity|].
    eexists _, _. split; [vm_compute; reflexivity|].
    split; [reflexivity|]. split; [reflexivity|].
    refine (proj2 (proj2 (deleteMultipleFiles_usage_after limits1000
                            [WellFormedId 10%N; WellFormedId 99%N;
                             WellFormedId 20%N]
                            world_rejected_candidate _ _ _ _)) _);
      first [apply allAccurate_check; vm_compute; reflexivity
            |apply allNonneg_check; vm_compute; reflexivity
            |vm_compute; reflexivity].
Defined.

(** X19.  The status of [deleteMultipleFiles] depends on the list and on
    the blob store alone: 400 with nothing touched when the list is
    missing or empty, otherwise 200 when the blob store answers and 500
    when it does not; whether the ids exist plays no part. *)
Theorem deleteMultipleFiles_status_codes
    (limits : StorageLimits) (fileIds : option (list IdArg)) (w : World) :
  exists resp w',
    deleteMultipleFiles limits fileIds w = (Ok resp, w')
    /\ match resp with
       | Status400 msg =>
           (fileIds = None \/ fileIds = Some []) /\ w' = w
           /\ msg = "Please provide an array of file IDs to delete"%string
       | Status200 body =>
           (exists l, fileIds = Some l /\ l ≠ []) /\ gridfsAvailable w = true
       | Status500 msg error =>
           (exists l, fileIds = Some l /\ l ≠ []) /\ gridfsAvailable w = false
       end.
Proof.
  destruct fileIds as [[|arg rest]|].
  - eexists _, _. split; [reflexivity|]. split; [by right|done].
  - destruct (bulkDeleteLoop_spec (arg :: rest)
                {| ba_deleted := []; ba_errors := []; ba_freed := 0 |} w)
      as (dnew & enew & w1 & Hrun & _ & Hav' & _).
    destruct (gridfsAvailable w) eqn:Hav.
    + eexists _, _. split.
      * unfold deleteMultipleFiles. apply try_catch_Ok.
        rewrite (bind_Ok _ _ _ _ _ Hrun).
        rewrite (bind_Ok _ _ _ _ _
                   (getStorageStats_available limits w1 ltac:(congruence))).
        reflexivity.
      * split; [by eexists|done].
    + eexists _, _. split.
      * unfold deleteMultipleFiles.
        erewrite try_catch_Throw; [reflexivity|].
        rewrite (bind_Ok _ _ _ _ _ Hrun).
        apply bind_Throw, getStorageStats_unavailable. congruence.
      * split; [by eexists|done].
  - eexists _, _. split; [reflexivity|]. split; [by left|done].
Qed.

(** ** The handlers and the blob store *)




(** ** The storage report *)

Lemma groupsOf_lookup `{Countable K} (key : FileDoc -> K)
    (docs : list (ObjectId * FileDoc)) (k : K) :
  groupsOf key docs !! k
  = if decide (withKey key k docs = []) then None
    else Some (g_count (groupRowOf key k docs),
               g_totalSize (groupRowOf key k docs)).
Proof.
  unfold groupRowOf. cbn [g_count g_totalSize].
  induction docs as [|d docs IH].
  - unfold groupsOf, withKey. cbn [foldr]. rewrite lookup_empty.
    rewrite filter_nil. by rewrite decide_True.
  - unfold groupsOf in *. cbn [foldr]. unfold addToGroup at 1.
    unfold withKey in *. rewrite filter_cons.
    destruct (decide (key d.2 = k)) as [<-|Hne].
    + rewrite lookup_insert_eq, decide_False by done.
      rewrite IH. cbn [length]. rewrite fmap_cons, sumZ_cons.
      destruct (decide (filter _ docs = [])) as [->|_];
        cbn [default]; unfold id; cbn [fst snd].
      * rewrite fmap_nil. unfold sumZ. cbn [foldr length]. do 2 f_equal. lia.
      * do 2 f_equal. lia.
    + by rewrite lookup_insert_ne.
Qed.

(** The rows of a [$group] stage: one for each key some document carries,
    and one only, with the count and the summed size of the documents that
    carry it. *)
Lemma File_aggregate_group_rows `{Countable K} (key : FileDoc -> K) w :
  exists rows,
    File_aggregate_group key w = (Ok rows, w)
    /\ NoDup (g_id <$> rows)
    /\ (forall row,
          row ∈ rows
          <-> row = groupRowOf key (g_id row) (map_to_list (files w))
              /\ exists d, d ∈ map_to_list (files w) /\ key d.2 = g_id row)
    /\ length rows
       = size (list_to_set ((fun d : ObjectId * FileDoc => key d.2)
                            <$> map_to_list (files w)) : gset K).
Proof.
  eexists. split; [reflexivity|].
  assert (NoDup (g_id <$> ((fun kv : K * (nat * Z) =>
                              {| g_id := kv.1; g_count := kv.2.1;
                                 g_totalSize := kv.2.2 |})
                           <$> map_to_list
                                 (groupsOf key (map_to_list (files w))))))
    as Hnd.
  { rewrite <- list_fmap_compose.
    apply (NoDup_fst_map_to_list (groupsOf key (map_to_list (files w)))). }
  assert (forall row,
             row ∈ (fun kv : K * (nat * Z) =>
                      {| g_id := kv.1; g_count := kv.2.1;
                         g_totalSize := kv.2.2 |})
                   <$> map_to_list (groupsOf key (map_to_list (files w)))
             <-> row = groupRowOf key (g_id row) (map_to_list (files w))
                 /\ exists d, d ∈ map_to_list (files w)
                              /\ key d.2 = g_id row) as Hrows.
  { intros row. rewrite list_elem_of_fmap. split.
    - intros ([k [n z]] & -> & Hkv). cbn [g_id fst snd].
      apply elem_of_map_to_list in Hkv. rewrite groupsOf_lookup in Hkv.
      destruct (decide (withKey key k _ = [])) as [|Hne]; [done|].
      injection Hkv as <- <-. split; [done|].
      destruct (withKey key k (map_to_list (files w))) as [|d l] eqn:E;
        [done|].
      assert (d ∈ withKey key k (map_to_list (files w))) as Hd
        by (rewrite E; left).
      apply list_elem_of_filter in Hd as [Hk Hd]. by exists d.
    - intros [Hrow (d & Hd & Hk)].
      exists (g_id row, (g_count row, g_totalSize row)).
      split; [by destruct row|].
      apply elem_of_map_to_list. rewrite groupsOf_lookup.
      rewrite decide_False.
      + by rewrite <- Hrow.
      + intros E.
        assert (d ∈ withKey key (g_id row) (map_to_list (files w))) as Hin
          by (by apply list_elem_of_filter).
        rewrite E in Hin. by apply elem_of_nil in Hin. }
  split; [done|]. split; [done|].
  rewrite <- (length_fmap g_id), <- (size_list_to_set (C := gset K)) by done.
  f_equal. apply set_eq. intros k. rewrite !elem_of_list_to_set.
  rewrite !list_elem_of_fmap. split.
  - intros (row & -> & [_ (d & Hd & Hk)]%Hrows). by exists d.
  - intros (d & -> & Hd).
    exists (groupRowOf key (key d.2) (map_to_list (files w))).
    split; [done|]. apply Hrows. split; [done|]. by exists d.
Qed.

(** X21.  On a store that answers, [getStorageReport] answers 200 and
    writes nothing; its candidate count is the number of cleanup
    candidates; the status and type breakdowns hold exactly one row for
    each value some record carries, with the number of those records and
    the sum of their input sizes; and the user breakdown holds such rows
    for ten distinct users, or for all users when there are fewer,
    largest total first, no user left out having a larger total than a
    user listed. *)
Theorem getStorageReport_contents (limits : StorageLimits) (w : World) :
  gridfsAvailable w = true ->
  let docs := map_to_list (files w) in
  exists body,
    getStorageReport limits w = (Ok (Status200 body), w)
    /\ rb_stats body = statsOf limits (gridfsFilesOf w)
    /\ cleanupCandidatesCount body = length (phase1Candidates w)
    /\ NoDup (g_id <$> statusCounts body)
    /\ (forall row,
          row ∈ statusCounts body
          <-> row = groupRowOf status (g_id row) docs
              /\ exists d, d ∈ docs /\ status d.2 = g_id row)
    /\ NoDup (g_id <$> typeCounts body)
    /\ (forall row,
          row ∈ typeCounts body
          <-> row = groupRowOf fileType (g_id row) docs
              /\ exists d, d ∈ docs /\ fileType d.2 = g_id row)
    /\ length (userCounts body)
       = Nat.min 10
           (size (list_to_set ((fun d : ObjectId * FileDoc => uploadedBy d.2)
                               <$> docs) : gset ObjectId))
    /\ NoDup (g_id <$> userCounts body)
    /\ StronglySorted totalSize_ge (userCounts body)
    /\ (forall row,
          row ∈ userCounts body ->
          row = groupRowOf uploadedBy (g_id row) docs
          /\ exists d, d ∈ docs /\ uploadedBy d.2 = g_id row)
    /\ (forall d row,
          d ∈ docs -> row ∈ userCounts body ->
          groupRowOf uploadedBy (uploadedBy d.2) docs ∉ userCounts body ->
          g_totalSize (groupRowOf uploadedBy (uploadedBy d.2) docs)
          <= g_totalSize row).
Proof.
  intros Hav docs.
  destruct (File_aggregate_group_rows status w) as (rs & Hrs & Hnds & Hs & _).
  destruct (File_aggregate_group_rows uploadedBy w)
    as (ru & Hru & Hndu & Hu & Hlenu).
  destruct (File_aggregate_group_rows fileType w) as (rt & Hrt & Hndt & Ht & _).
  eexists. split.
  { unfold getStorageReport. apply try_catch_Ok.
    rewrite (bind_Ok _ _ _ _ _ (getStorageStats_available limits w Hav)).
    rewrite (bind_Ok _ _ _ _ _ (getCleanupCandidates_run w)).
    rewrite (bind_Ok _ _ _ _ _ Hrs).
    rewrite (bind_Ok _ _ _ _ _ (bind_Ok _ _ _ _ _ Hru)).
    rewrite (bind_Ok _ _ _ _ _ Hrt). reflexivity. }
  cbn [rb_stats cleanupCandidatesCount statusCounts userCounts typeCounts].
  split; [done|]. split; [done|]. split; [done|]. split; [done|].
  split; [done|]. split; [done|].
  unfold topTen.
  assert (StronglySorted totalSize_ge (merge_sort totalSize_ge ru)) as Hsorted
    by (apply StronglySorted_merge_sort; apply _).
  split; [|split; [|split; [|split]]].
  - rewrite length_take, merge_sort_Permutation. fold docs in Hlenu.
    by rewrite Hlenu.
  - rewrite fmap_take. eapply sublist_NoDup; [|apply sublist_take].
    by rewrite merge_sort_Permutation.
  - rewrite <- (take_drop 10 (merge_sort totalSize_ge ru)) in Hsorted.
    by apply StronglySorted_app_1_l in Hsorted.
  - intros row Hrow. apply Hu.
    eapply elem_of_sublist in Hrow; [|apply sublist_take].
    by rewrite merge_sort_Permutation in Hrow.
  - intros d row Hd Hrow Hout.
    set (r := groupRowOf uploadedBy (uploadedBy d.2) docs) in *.
    assert (r ∈ drop 10 (merge_sort totalSize_ge ru)) as Hrest.
    { assert (r ∈ ru) as Hr by (apply Hu; split; [done|by exists d]).
      rewrite <- (merge_sort_Permutation totalSize_ge) in Hr.
      rewrite <- (take_drop 10) in Hr.
      apply elem_of_app in Hr as [?|?]; done. }
    apply (StronglySorted_app_1_elem_of totalSize_ge
             (take 10 (merge_sort totalSize_ge ru))
             (drop 10 (merge_sort totalSize_ge ru)) row r); [|done|done].
    by rewrite take_drop.
Qed.

Lemma getStorageReport_contents_witness :
  gridfsAvailable world_two_phases = true
  /\ exists body,
       getStorageReport limits1000 world_two_phases
       = (Ok (Status200 body), world_two_phases)
       /\ cleanupCandidatesCount body = 1%nat
       /\ length (statusCounts body) = 2%nat
       /\ NoDup (g_id <$> statusCounts body)
       /\ length (userCounts body) = 1%nat.
Proof.
  split; [reflexivity|].
  destruct (getStorageReport_contents limits1000 world_two_phases)
    as (body & Hrun & _ & Hcount & Hnd & _ & _ & _ & Hlen & _).
  - reflexivity.
  - exists body. split; [done|]. split; [|split; [|split; [done|]]].
    + rewrite Hcount. vm_compute. reflexivity.
    + revert Hrun. vm_compute. by intros [= <-].
    + rewrite Hlen. vm_compute. reflexivity.
Defined.

(** ** The command-line script *)






(** ** Further properties of the snapshot and of a run *)

Lemma percent_le_bytes (c : Q) (x m : Z) :
  0 < m ->
  ((c * 100 <= inject_Z x / inject_Z m * 100)%Q
   <-> (c * inject_Z m <= inject_Z x)%Q).
Proof.
  intros Hm.
  assert (0 < inject_Z m)%Q as Hm' by (unfold Qlt, inject_Z; simpl; lia).
  assert (~ inject_Z m == 0)%Q as Hne
    by (intros E; rewrite E in Hm'; by apply Qlt_irrefl in Hm').
  rewrite <- Qle_bool_iff, Qle_bool_percent, Qle_bool_iff.
  split; intros H.
  - apply (Qmult_le_r _ _ (inject_Z m)) in H; [|done].
    unfold Qdiv in H. rewrite <- Qmult_assoc in H.
    rewrite (Qmult_comm (/ inject_Z m)), Qmult_inv_r, Qmult_1_r in H; done.
  - apply (Qmult_le_r _ _ (inject_Z m)); [done|].
    unfold Qdiv. rewrite <- Qmult_assoc.
    rewrite (Qmult_comm (/ inject_Z m)), Qmult_inv_r, Qmult_1_r; done.
Qed.

(** X23.  The snapshot [getStorageStats] returns on a store that answers:
    the bytes in use and the bytes available add up to the capacity, the
    file count is the number of blobs, and with a positive capacity the
    status is decided on the bytes themselves, not on the rounded
    percentage: it is [critical] exactly when the bytes in use reach the
    critical share of the capacity, and [normal] exactly when they are
    below every threshold's share. *)
Theorem getStorageStats_snapshot (limits : StorageLimits) (w : World) :
  gridfsAvailable w = true ->
  0 < MAX_STORAGE limits ->
  exists st,
    getStorageStats limits w = (Ok st, w)
    /\ totalSize st = bucketBytes w
    /\ totalSize st + available st = MAX_STORAGE limits
    /\ fileCount st = size (bucket w)
    /\ (stats_status st = critical
        <-> (CRITICAL_THRESHOLD limits * inject_Z (MAX_STORAGE limits)
             <= inject_Z (totalSize st))%Q)
    /\ (stats_status st = normal
        <-> (inject_Z (totalSize st)
             < CRITICAL_THRESHOLD limits * inject_Z (MAX_STORAGE limits))%Q
            /\ (inject_Z (totalSize st)
                < CLEANUP_THRESHOLD limits * inject_Z (MAX_STORAGE limits))%Q
            /\ (inject_Z (totalSize st)
                < WARNING_THRESHOLD limits * inject_Z (MAX_STORAGE limits))%Q).
Proof.
  intros Hav Hmax. eexists. split; [by apply getStorageStats_available|].
  unfold statsOf. cbn [totalSize available fileCount stats_status].
  fold (bucketBytes w).
  split; [done|]. split; [lia|]. split.
  { unfold gridfsFilesOf. by rewrite length_fmap, length_map_to_list. }
  unfold getStorageStatus.
  split.
  - rewrite <- (percent_le_bytes _ (bucketBytes w) _ Hmax), <- Qle_bool_iff.
    by repeat destruct (Qle_bool _ _).
  - assert (forall c : Q,
               (inject_Z (bucketBytes w) < c * inject_Z (MAX_STORAGE limits))%Q
               <-> Qle_bool (c * 100)
                     (inject_Z (bucketBytes w)
                      / inject_Z (MAX_STORAGE limits) * 100) = false) as Hlt.
    { intros c. rewrite Qle_bool_false, percent_le_bytes by done.
      split; [apply Qlt_not_le|apply Qnot_le_lt]. }
    rewrite !Hlt.
    repeat destruct (Qle_bool _ _); split; try done;
      try (by intros (? & ? & ?)).
Qed.

Lemma getStorageStats_snapshot_witness :
  gridfsAvailable world_two_phases = true
  /\ 0 < MAX_STORAGE limits1000
  /\ exists st,
       getStorageStats limits1000 world_two_phases = (Ok st, world_two_phases)
       /\ totalSize st = 900
       /\ totalSize st + available st = MAX_STORAGE limits1000.
Proof.
  split; [reflexivity|]. split; [done|].
  destruct (getStorageStats_snapshot limits1000 world_two_phases)
    as (st & Hrun & Htotal & Hsum & _).
  - reflexivity.
  - done.
  - exists st. split; [done|]. split; [|done].
    rewrite Htotal. vm_compute. reflexivity.
Defined.

(** X24.  A blob a record refers to only through an output that is not
    flagged as stored in GridFS is not deleted with the record: it stays
    in the bucket, and when no other record refers to it, no record refers
    to it any more. *)
Theorem deleteFileCompletely_leaves_unflagged_outputs
    (file : Document) (w w' : World) (r : DeleteResult) (id : ObjectId) :
  deleteFileCompletely file w = (Ok r, w') ->
  id ∉ ref_id <$> blobRefs file.2 ->
  (forall fid doc,
      fid ≠ doc_id file -> files w !! fid = Some doc ->
      gridfsInputFileId doc ≠ Some id
      /\ forall o, o ∈ outputFiles doc -> of_gridfsFileId o ≠ Some id) ->
  bucket w' !! id = bucket w !! id /\ ~ referenced w' id.
Proof.
  intros Hrun Hnot Hothers.
  destruct (deleteFileCompletely_effect file w)
    as (res & w1 & Hrun' & _ & _ & _ & _ & Hb & Hok & Hfail).
  rewrite Hrun' in Hrun. injection Hrun as -> ->.
  assert (files w' = delete (doc_id file) (files w)) as Hfiles.
  { destruct (decide (doc_id file ∈ deleteRejected w)) as [Hin|Hnin].
    - by destruct (Hfail Hin).
    - by destruct (Hok Hnin) as (? & _ & _ & ?). }
  split.
  - rewrite Hb. rewrite decide_False; [done|]. by intros [_ ?].
  - intros (fid & doc & Hdoc & Href). rewrite Hfiles in Hdoc.
    apply lookup_delete_Some in Hdoc as [Hne Hdoc].
    destruct (Hothers fid doc ltac:(done) Hdoc) as [Hin Hout].
    destruct Href as [?|(o & Ho & Hid)]; [done|]. by apply (Hout o).
Qed.

Lemma deleteFileCompletely_leaves_unflagged_outputs_witness :
  exists r w',
    deleteFileCompletely
      (10%N, default doc_half_gone (files world_five_blobs !! 10%N))
      world_five_blobs = (Ok r, w')
    /\ bucket w' !! 2%N = bucket world_five_blobs !! 2%N
    /\ ~ referenced w' 2%N.
Proof.
  eexists _, _. split; [vm_compute; reflexivity|].
  eapply (deleteFileCompletely_leaves_unflagged_outputs
            (10%N, default doc_half_gone (files world_five_blobs !! 10%N))
            world_five_blobs).
  - vm_compute. reflexivity.
  - refine (bool_decide_unpack _ _). vm_compute. exact I.
  - intros fid doc Hne Hdoc. exfalso.
    destruct (decide (fid = 10%N)) as [->|Hne']; [done|].
    assert (files world_five_blobs !! fid = None) as Hnone.
    { unfold world_five_blobs, worldOf. cbn [files list_to_map foldr].
      rewrite lookup_insert_ne by done. apply lookup_empty. }
    congruence.
Defined.

(** X25.  Once a run of [performAutoCleanup] ends at or below its target,
    running it again with the same target finds nothing to do: it returns
    the early result with the previous final snapshot and touches
    nothing. *)
Theorem performAutoCleanup_second_run_is_noop
    (limits : StorageLimits) (targetPercent : option Q) (w w' : World)
    (res : CleanupResult) :
  performAutoCleanup limits targetPercent w = (Ok res, w') ->
  (inject_Z (totalSize (finalStats res))
   <= inject_Z (MAX_STORAGE limits)
      * default (TARGET_AFTER_CLEANUP limits) targetPercent)%Q ->
  performAutoCleanup limits targetPercent w'
  = (Ok {| cr_success := true; cr_message := AlreadyBelowTarget;
           initialStats := finalStats res; finalStats := finalStats res;
           deletedFiles := []; freedSize := None; freedSizeMB := None |}, w').
Proof.
  intros Hrun Hbelow. apply performAutoCleanup_run in Hrun.
  cbv zeta in Hrun. destruct Hrun as (_ & Hav' & _ & _ & Hfinal & _).
  change (performAutoCleanup limits targetPercent)
    with (performAutoCleanup limits
            (Some (default (TARGET_AFTER_CLEANUP limits) targetPercent))).
  apply performAutoCleanup_below_target; [|done].
  rewrite Hfinal. by apply getStorageStats_available.
Qed.

Lemma performAutoCleanup_second_run_is_noop_witness :
  exists res w',
    performAutoCleanup limits1000 None world_two_phases = (Ok res, w')
    /\ (inject_Z (totalSize (finalStats res))
        <= inject_Z (MAX_STORAGE limits1000)
           * default (TARGET_AFTER_CLEANUP limits1000) None)%Q
    /\ performAutoCleanup limits1000 None w'
       = (Ok {| cr_success := true; cr_message := AlreadyBelowTarget;
                initialStats := finalStats res; finalStats := finalStats res;
                deletedFiles := []; freedSize := None; freedSizeMB := None |},
          w').
Proof.
  eexists _, _. split; [vm_compute; reflexivity|].
  split; [vm_compute; discriminate|].
  eapply (performAutoCleanup_second_run_is_noop limits1000 None
            world_two_phases).
  - vm_compute. reflexivity.
  - vm_compute. discriminate.
Defined.

(** X26.  Every deletion of a run of [performAutoCleanup], of a candidate
    or of a completed record, starts while the bytes freed so far are
    below the bytes to free: the run never deletes a record after its
    target is met. *)
Theorem performAutoCleanup_stops_once_freed
    (limits : StorageLimits) (targetPercent : option Q) (w w' : World)
    (res : CleanupResult) (j : nat) :
  performAutoCleanup limits targetPercent w = (Ok res, w') ->
  (j < length (deletedFiles res))%nat ->
  (inject_Z (sumZ (deletedSize <$> take j (deletedFiles res)))
   < bytesToFree limits targetPercent (initialStats res))%Q.
Proof.
  intros Hrun Hj.
  destruct (performAutoCleanup_phases _ _ _ _ _ Hrun)
    as (k1 & k2 & d1 & d2 & w1 & Hlog & _ & _ & _ & Hbelow & _).
  rewrite Hlog in *. by apply Hbelow.
Qed.

Lemma performAutoCleanup_stops_once_freed_witness :
  exists res w',
    performAutoCleanup limits1000 None world_two_phases = (Ok res, w')
    /\ (1 < length (deletedFiles res))%nat
    /\ (inject_Z (sumZ (deletedSize <$> take 1 (deletedFiles res)))
        < bytesToFree limits1000 None (initialStats res))%Q.
Proof.
  eexists _, _. split; [vm_compute; reflexivity|].
  split; [vm_compute; lia|].
  eapply (performAutoCleanup_stops_once_freed limits1000 None
            world_two_phases).
  - vm_compute. reflexivity.
  - vm_compute. lia.
Defined.
